(** * n3dc_obj: a loader for a restricted subset of OBJ files

    A shallow embedding of [src/libs/n3dc_obj.h] and the properties of its
    scanners, driver loop and resolver pass.

    Conventions of the embedding.
    - The source buffer is a [list ascii]; [file_chars_length] is its length.
      [n3dc_obj_read_text_file] allocates one more cell and stores a NUL in
      it, so the allocated block is [file_chars ++ [NUL]].
    - [size_t] offsets are [nat]: they never exceed the buffer length plus two.
    - [unsigned int] values are [Z] with the reduction modulo [2^32] written
      at every operation that can wrap ([uint]).
    - [float] and [double] values are [spec_float] (IEEE 754 data of the
      standard library); [float_of_double] is the C cast.
    - A [malloc]ed array is a [list (option A)]: [None] is a cell that was
      never written.  Reads and writes are bounds checked, and a violation is
      reported as [Undef].  [malloc] itself is assumed to succeed.
    - Every [printf] of a diagnostic is recorded: a function returns the list
      of diagnostics it printed together with its outcome.
    - [atof] and [atoi] belong to the C library, not to the repository; the
      development is parameterised by them (Section [Loader]) and a model of
      both is given in Module [Libc] for the concrete runs.  Both are taken
      as functions that return a value on every string: what the C library
      does inside a call, in particular [atoi] on a number that does not fit
      an [int], is not part of the embedding, and [Undef] records the memory
      accesses and the arithmetic of the repository's own code only. *)

From stdpp Require Import base list strings.
From Stdlib Require Import ZArith Ascii Lia.
From Stdlib Require Import SpecFloat.

Local Open Scope Z_scope.

(** ** Characters, integers, outcomes *)

Definition LF : ascii := "010"%char.
Definition NUL : ascii := "000"%char.
Definition SP : ascii := " "%char.
Definition SLASH : ascii := "/"%char.

(** Conversion of a mathematical integer to [unsigned int]. *)
Definition uint (z : Z) : Z := z mod 2 ^ 32.

Definition INT_MAX : Z := 2 ^ 31 - 1.

(** One constructor per diagnostic the source prints. *)
Inductive diag : Type :=
| Vec3_x_missing            (* "... without parsing the x element" *)
| Vec3_y_missing            (* "... without parsing the y element" *)
| Vec3_invalid_char (c : ascii)
| Vec3_end_of_file
| Vec2_x_missing
| Vec2_invalid_char (c : ascii)
| Vec2_end_of_file
| Group_texture_missing     (* "... without parsing the texture index" *)
| Group_vertex_invalid      (* "Vertex index ... missing or invalid" *)
| Group_texture_invalid
| Group_normal_invalid
| Group_end_of_file
| Face_not_triangulated     (* "Parsed 3 OBJ index groups ... non-triangulated" *)
| Face_end_of_file
| Seek_end_of_file          (* "Reached end of file while seeking end of line" *)
| Max_vertices_exceeded
| Max_texture_coords_exceeded
| Max_normals_exceeded
| Max_indices_exceeded.

(** Behaviour the C standard leaves undefined and that the source can reach. *)
Inductive undefined : Type :=
| Out_of_bounds_read
| Out_of_bounds_write
| Uninitialised_read
| Signed_overflow.

(** [Ok a]: return [0] (or a non-null pointer) with results [a];
    [Err]: return [-1] (or [NULL]); [Undef u]: the call runs into [u]. *)
Inductive outcome (A : Type) : Type :=
| Ok (a : A)
| Err
| Undef (u : undefined).
Arguments Ok {A} a.
Arguments Err {A}.
Arguments Undef {A} u.

Definition bind {A B} (r : outcome A) (k : A -> outcome B) : outcome B :=
  match r with
  | Ok a => k a
  | Err => Err
  | Undef u => Undef u
  end.

(** What was printed, and what was returned. *)
Definition run (A : Type) : Type := (list diag * outcome A)%type.

(** The scanners return [0] with their results ([Some]) or [-1] ([None]). *)
Definition scan (A : Type) : Type := (list diag * option A)%type.

Definition raise {A} (d : diag) : scan A := ([d], None).
Definition ret {A} (a : A) : scan A := ([], Some a).

(** ** Arrays *)

Definition array (A : Type) : Type := list (option A).

Definition malloc {A} (n : Z) : array A := replicate (Z.to_nat n) None.

Definition store {A} (arr : array A) (off : Z) (v : A) : option (array A) :=
  if decide (off < Z.of_nat (length arr))
  then Some (<[Z.to_nat off := Some v]> arr)
  else None.

Definition fetch {A} (arr : array A) (off : Z) : outcome A :=
  match arr !! Z.to_nat off with
  | None => Undef Out_of_bounds_read
  | Some None => Undef Uninitialised_read
  | Some (Some v) => Ok v
  end.

(** A cell written through an out-pointer: [None] leaves the target as it is. *)
Definition store_opt {A} (arr : array A) (off : Z) (v : option A)
  : option (array A) :=
  match v with
  | None => Some arr
  | Some x => store arr off x
  end.

(** ** The result record *)

Record n3dc_obj_t : Type := {
  num_vertices : Z;
  vertices : list spec_float;
  normals : list spec_float;
  texture_coords : list spec_float
}.

Definition float_of_double (d : spec_float) : spec_float :=
  match d with
  | S754_finite s m e => binary_round 24 128 s m e
  | _ => d
  end.

(** The characters of a NUL-terminated buffer, as a C string function sees
    them. *)
Fixpoint c_str (buf : list ascii) : list ascii :=
  match buf with
  | [] => []
  | c :: rest => if decide (c = NUL) then [] else c :: c_str rest
  end.

(** [file_chars[i]] for an offset inside the allocated block. *)
Definition char_at (file_chars : list ascii) (i : nat) : ascii :=
  default NUL (file_chars !! i).

(** ** A model of the C library functions

    [atoi] is [(int) strtol (s, NULL, 10)] with a 64-bit [long], as in glibc.
    [atof] is modelled on the lexical forms the vector scanners let through:
    blanks, a sign, digits and a decimal point (no exponent, no hexadecimal
    form, no [inf] or [nan]); the value is the decimal number rounded to
    nearest-even in binary64. *)
Module Libc.

Definition isspace (c : ascii) : bool :=
  let n := nat_of_ascii c in
  bool_decide (n = 32 \/ (9 <= n /\ n <= 13))%nat.

Definition digit_of (c : ascii) : option Z :=
  let n := Z.of_nat (nat_of_ascii c) in
  if decide (48 <= n /\ n <= 57) then Some (n - 48) else None.

Fixpoint skip_space (s : list ascii) : list ascii :=
  match s with
  | c :: rest => if isspace c then skip_space rest else s
  | [] => []
  end.

(** An optional sign: [true] for a minus. *)
Definition take_sign (s : list ascii) : bool * list ascii :=
  match s with
  | "-"%char :: rest => (true, rest)
  | "+"%char :: rest => (false, rest)
  | _ => (false, s)
  end.

(** The leading digits of [s]: their value on top of [acc], how many there
    are, and what follows them. *)
Fixpoint take_digits (s : list ascii) (acc : Z) (n : nat)
  : Z * nat * list ascii :=
  match s with
  | c :: rest =>
    match digit_of c with
    | Some d => take_digits rest (10 * acc + d) (S n)
    | None => (acc, n, s)
    end
  | [] => (acc, n, s)
  end.

Definition LONG_MAX : Z := 2 ^ 63 - 1.
Definition LONG_MIN : Z := - 2 ^ 63.

Definition strtol (s : list ascii) : Z :=
  let '(neg, s1) := take_sign (skip_space s) in
  let '(v, _, _) := take_digits s1 0 0 in
  let v := if neg then - v else v in
  Z.max LONG_MIN (Z.min LONG_MAX v).

(** Conversion of a [long] to [int]: reduction to [-2^31 .. 2^31-1]. *)
Definition int_of_long (z : Z) : Z := (z + 2 ^ 31) mod 2 ^ 32 - 2 ^ 31.

Definition atoi (s : list ascii) : Z := int_of_long (strtol s).

(** [m / 10^k] with sign [neg], rounded to binary64. *)
Definition decimal_to_double (neg : bool) (m : Z) (k : nat) : spec_float :=
  match m with
  | Zpos p =>
    SFdiv 53 1024 (S754_finite neg p 0)
      (S754_finite false (Z.to_pos (10 ^ Z.of_nat k)) 0)
  | _ => S754_zero neg
  end.

Definition atof (s : list ascii) : spec_float :=
  let '(neg, s1) := take_sign (skip_space s) in
  let '(int_part, int_digits, s2) := take_digits s1 0 0 in
  match s2 with
  | "."%char :: s3 =>
    let '(m, frac_digits, _) := take_digits s3 int_part 0 in
    if decide (int_digits + frac_digits = 0)%nat then S754_zero false
    else decimal_to_double neg m frac_digits
  | _ =>
    if decide (int_digits = 0)%nat then S754_zero false
    else decimal_to_double neg int_part 0
  end.

End Libc.

(** ** Input files as lists of lines

    The record syntax of section 6 of the specification.  A line is kept as
    data and [render] gives its characters, newline included. *)

(** The three fields of an index group [a/b/c]. *)
Definition group : Type := (list ascii * list ascii * list ascii)%type.

Inductive line : Type :=
| Position (body : list ascii)        (* "v " body LF *)
| Texture_coord (body : list ascii)   (* "vt " body LF *)
| Normal (body : list ascii)          (* "vn " body LF *)
| Face (g1 g2 g3 : group)             (* "f a/b/c a/b/c a/b/c" LF *)
| Other (text : list ascii).          (* text LF *)

(** A group with the space in front of it. *)
Definition render_group (g : group) : list ascii :=
  let '(a, b, c) := g in SP :: a ++ SLASH :: b ++ SLASH :: c.

Definition render (l : line) : list ascii :=
  match l with
  | Position body => "v"%char :: SP :: body ++ [LF]
  | Texture_coord body => "v"%char :: "t"%char :: SP :: body ++ [LF]
  | Normal body => "v"%char :: "n"%char :: SP :: body ++ [LF]
  | Face g1 g2 g3 =>
    "f"%char :: render_group g1 ++ render_group g2 ++ render_group g3 ++ [LF]
  | Other text => text ++ [LF]
  end.

Definition render_all (ls : list line) : list ascii := concat (map render ls).

Definition is_position (l : line) : bool :=
  match l with Position _ => true | _ => false end.
Definition is_texture_coord (l : line) : bool :=
  match l with Texture_coord _ => true | _ => false end.
Definition is_normal (l : line) : bool :=
  match l with Normal _ => true | _ => false end.
Definition is_face (l : line) : bool :=
  match l with Face _ _ _ => true | _ => false end.

(** Number of lines of one kind, as an integer. *)
Definition count (kind : line -> bool) (ls : list line) : Z :=
  Z.of_nat (length (filter kind ls)).

(** The two-character lookahead of the driver: does it select a scanner? *)
Definition is_record_tag (c1 c2 : ascii) : bool :=
  bool_decide (c1 = "v"%char /\ c2 = SP)
  || bool_decide (c1 = "v"%char /\ c2 = "t"%char)
  || bool_decide (c1 = "v"%char /\ c2 = "n"%char)
  || bool_decide (c1 = "f"%char /\ c2 = SP).

(** A character of an index field: not a separator of the group syntax. *)
Definition field_char (c : ascii) : Prop := c <> SLASH /\ c <> SP /\ c <> LF.

Definition shaped_group (g : group) : Prop :=
  let '(a, b, c) := g in
  Forall field_char a /\ Forall field_char b /\ Forall field_char c.

(** The least the driver needs to stay aligned on line starts: record bodies
    run to the first newline, the three groups of a face are separated by
    single spaces, and any other line is non-empty and does not begin with a
    record tag. *)
Definition shaped (l : line) : Prop :=
  match l with
  | Position body | Texture_coord body | Normal body => (LF ∉ body)
  | Face g1 g2 g3 => shaped_group g1 /\ shaped_group g2 /\ shaped_group g3
  | Other text =>
    text <> [] /\ (LF ∉ text) /\
    is_record_tag (char_at text 0) (char_at (text ++ [LF]) 1) = false
  end.

(** No line of the file begins with a record tag; [at_line_start] tells
    whether the first of [cells] begins a line. *)
Fixpoint no_record_from (at_line_start : bool) (cells : list ascii) : bool :=
  match cells with
  | [] => true
  | c :: rest =>
    (if at_line_start then negb (is_record_tag c (char_at rest 0)) else true)
    && no_record_from (bool_decide (c = LF)) rest
  end.

Definition no_records (file_chars : list ascii) : bool :=
  no_record_from true file_chars.

Definition newline_terminated (file_chars : list ascii) : Prop :=
  file_chars = [] \/ last file_chars = Some LF.

(** ** Concrete inputs *)

Definition chars (s : string) : list ascii := String.list_ascii_of_string s.

(** The characters of a file given line by line, a newline after each. *)
Definition text_lines (ls : list string) : list ascii :=
  concat (map (fun s => chars s ++ [LF]) ls).

(** The scenario of section 8 of the specification. *)
Definition triangle_obj : list ascii :=
  text_lines ["v 0.0 1.0 2.0"; "vt 0.5 0.5"; "vn 0.0 0.0 1.0";
              "f 1/1/1 1/1/1 1/1/1"].

(** The same scene as a list of lines. *)
Definition triangle_lines : list line :=
  [Position (chars "0.0 1.0 2.0"); Texture_coord (chars "0.5 0.5");
   Normal (chars "0.0 0.0 1.0");
   Face (chars "1", chars "1", chars "1") (chars "1", chars "1", chars "1")
        (chars "1", chars "1", chars "1")].

(** A face whose second group ends the line and whose third group, on the
    next line, has a zero normal index. *)
Definition split_face_obj : list ascii :=
  text_lines ["v 0.0 1.0 2.0"; "vt 0.5 0.5"; "vn 0.0 0.0 1.0";
              "f 1/1/1 1/1/1"; "1/1/0"].


(** A comment that is not followed by a newline. *)
Definition unterminated_obj : list ascii := chars "# abc".

(** Comment and blank lines only. *)
Definition comments_obj : list ascii := text_lines ["# hi"; ""; "# yo"].

(** A face before the records it names, with two positions. *)
Definition forward_lines : list line :=
  [Face (chars "2", chars "1", chars "1") (chars "1", chars "1", chars "1")
        (chars "1", chars "1", chars "1");
   Position (chars "0 1 2"); Position (chars "3.5 4 5");
   Texture_coord (chars "0.5 0.5"); Normal (chars "0 0 1")].

(** A face whose first corner names a second position, after the only
    position record of the file. *)
Definition dangling_lines : list line :=
  [Position (chars "0 1 2"); Texture_coord (chars "0.5 0.5");
   Normal (chars "0 0 1");
   Face (chars "2", chars "1", chars "1") (chars "1", chars "1", chars "1")
        (chars "1", chars "1", chars "1")].

(** The records of the scenario without its face. *)
Definition record_lines : list line :=
  [Position (chars "0.0 1.0 2.0"); Texture_coord (chars "0.5 0.5");
   Normal (chars "0.0 0.0 1.0")].

(** A triangle face that the file ends in, without a newline. *)
Definition unterminated_face_obj : list ascii :=
  render_all record_lines ++ chars "f 1/1/1 1/1/1 1/1/1".

(** The scenario with a fourth index group on its face line. *)
Definition four_group_obj : list ascii :=
  text_lines ["v 0.0 1.0 2.0"; "vt 0.5 0.5"; "vn 0.0 0.0 1.0";
              "f 1/1/1 1/1/1 1/1/1 1/1/1"].

(** The same file with an empty line before the face line. *)
Definition blank_line_four_group_obj : list ascii :=
  text_lines ["v 0.0 1.0 2.0"; "vt 0.5 0.5"; "vn 0.0 0.0 1.0"; "";
              "f 1/1/1 1/1/1 1/1/1 1/1/1"].

(** Two position records, and the same two with an empty line between. *)
Definition two_positions_obj : list ascii :=
  text_lines ["v 1 2 3"; "v 4 5 6"].

Definition blank_line_positions_obj : list ascii :=
  text_lines ["v 1 2 3"; ""; "v 4 5 6"].

(** Two texture-coordinate records, and the same two with an empty line
    between. *)
Definition two_texture_coords_obj : list ascii :=
  text_lines ["vt 0.5 0.5"; "vt 0.25 0.75"].

Definition blank_line_texture_coords_obj : list ascii :=
  text_lines ["vt 0.5 0.5"; ""; "vt 0.25 0.75"].

(** The binary32 number [m * 2^e]. *)
Definition float32 (m e : Z) : spec_float := binary_normalize 24 128 m e false.

Section Loader.

(** The two C library functions the converter calls. *)
Variable atof : list ascii -> spec_float.
Variable atoi : list ascii -> Z.

(** ** Numeric token converter *)

Definition n3dc_obj_min_uint (a b : Z) : Z := if decide (a < b) then a else b.

Definition char_count (start end_ : nat) : Z :=
  n3dc_obj_min_uint (uint (Z.of_nat end_ - Z.of_nat start)) 10.

(** The local buffer [string_section] after the [memcpy] and the store of its
    terminator.  (The ranges the scanners pass lie inside [full_string].) *)
Definition string_section (start end_ : nat) (full_string : list ascii)
  : list ascii :=
  take (Z.to_nat (char_count start end_)) (drop start full_string) ++ [NUL].

Definition n3dc_obj_string_section_to_float
    (start end_ : nat) (full_string : list ascii) : spec_float :=
  float_of_double (atof (c_str (string_section start end_ full_string))).

Definition n3dc_obj_string_section_to_uint
    (start end_ : nat) (full_string : list ascii) : Z :=
  uint (atoi (c_str (string_section start end_ full_string))).

Definition n3dc_obj_is_valid_vec_char (c : ascii) : bool :=
  match c with
  | "-"%char | "."%char
  | "0"%char | "1"%char | "2"%char | "3"%char | "4"%char
  | "5"%char | "6"%char | "7"%char | "8"%char | "9"%char => true
  | _ => false
  end.

(** ** Vector scanners *)

(** The [for] loop of [n3dc_obj_parse_obj_vec3]; [cells] are the characters at
    offsets [i .. file_chars_length - 1].  It yields [(x_end, y_end, z_end)]. *)
Fixpoint vec3_loop (cells : list ascii) (i : nat)
    (x_parsed y_parsed : bool) (x_end y_end : nat) : scan (nat * nat * nat) :=
  match cells with
  | [] => raise Vec3_end_of_file
  | current_char :: cells' =>
    if decide (current_char = SP) then
      if negb x_parsed then vec3_loop cells' (S i) true y_parsed i y_end
      else if negb y_parsed then vec3_loop cells' (S i) x_parsed true x_end i
      else vec3_loop cells' (S i) x_parsed y_parsed x_end y_end
    else if decide (current_char = LF) then
      if negb x_parsed then raise Vec3_x_missing
      else if negb y_parsed then raise Vec3_y_missing
      else ret (x_end, y_end, i)
    else if negb (n3dc_obj_is_valid_vec_char current_char) then
      raise (Vec3_invalid_char current_char)
    else vec3_loop cells' (S i) x_parsed y_parsed x_end y_end
  end.

(** Result: [(x, y, z, line_end)]. *)
Definition n3dc_obj_parse_obj_vec3 (file_chars : list ascii) (vec3_start : nat)
  : scan (spec_float * spec_float * spec_float * nat) :=
  match vec3_loop (drop vec3_start file_chars) vec3_start false false 0%nat 0%nat with
  | (p, Some (x_end, y_end, z_end)) =>
    (p, Some (n3dc_obj_string_section_to_float vec3_start x_end file_chars,
              n3dc_obj_string_section_to_float x_end y_end file_chars,
              n3dc_obj_string_section_to_float y_end z_end file_chars,
              z_end))
  | (p, None) => (p, None)
  end.

(** The [for] loop of [n3dc_obj_parse_obj_vec2]: every space moves [x_end]. *)
Fixpoint vec2_loop (cells : list ascii) (i : nat)
    (x_parsed : bool) (x_end : nat) : scan (nat * nat) :=
  match cells with
  | [] => raise Vec2_end_of_file
  | current_char :: cells' =>
    if decide (current_char = SP) then vec2_loop cells' (S i) true i
    else if decide (current_char = LF) then
      if negb x_parsed then raise Vec2_x_missing
      else ret (x_end, i)
    else if negb (n3dc_obj_is_valid_vec_char current_char) then
      raise (Vec2_invalid_char current_char)
    else vec2_loop cells' (S i) x_parsed x_end
  end.

(** Result: [(x, y, line_end)]. *)
Definition n3dc_obj_parse_obj_vec2 (file_chars : list ascii) (vec2_start : nat)
  : scan (spec_float * spec_float * nat) :=
  match vec2_loop (drop vec2_start file_chars) vec2_start false 0%nat with
  | (p, Some (x_end, y_end)) =>
    (p, Some (n3dc_obj_string_section_to_float vec2_start x_end file_chars,
              n3dc_obj_string_section_to_float x_end y_end file_chars,
              y_end))
  | (p, None) => (p, None)
  end.

(** ** Index-group scanner *)

(** The three cells behind the out-pointers of one index group, as the scan
    leaves them: [None] is a cell the scan did not write. *)
Record index_group : Type := {
  vertex_index : option Z;
  texture_index : option Z;
  normal_index : option Z
}.

Definition untouched : index_group :=
  {| vertex_index := None; texture_index := None; normal_index := None |}.

(** The [for] loop of [n3dc_obj_parse_obj_index_group], up to the point where
    the terminator of the group is met.  It yields
    [(vertex_index_end, texture_index_end, normal_index_end)]. *)
Fixpoint index_group_loop (cells : list ascii) (i : nat)
    (vertex_index_parsed texture_index_parsed : bool)
    (vertex_index_end texture_index_end : nat) : scan (nat * nat * nat) :=
  match cells with
  | [] => raise Group_end_of_file
  | current_char :: cells' =>
    if decide (current_char = SLASH) then
      if negb vertex_index_parsed then
        index_group_loop cells' (S i) true texture_index_parsed i texture_index_end
      else if negb texture_index_parsed then
        index_group_loop cells' (S i) vertex_index_parsed true vertex_index_end i
      else
        index_group_loop cells' (S i) vertex_index_parsed texture_index_parsed
          vertex_index_end texture_index_end
    else if (bool_decide (current_char = SP) || bool_decide (current_char = LF))
            && vertex_index_parsed then
      if negb texture_index_parsed then raise Group_texture_missing
      else ret (vertex_index_end, texture_index_end, i)
    else
      index_group_loop cells' (S i) vertex_index_parsed texture_index_parsed
        vertex_index_end texture_index_end
  end.

(** The tail of [n3dc_obj_parse_obj_index_group], entered at the terminator
    of a group whose two slashes were seen: the three fields are converted,
    tested against [0] and decremented in turn. *)
Definition convert_index_group (file_chars : list ascii)
    (index_group_start vertex_index_end texture_index_end normal_index_end : nat)
  : list diag * index_group * option nat :=
  let v := n3dc_obj_string_section_to_uint
             index_group_start vertex_index_end file_chars in
  if decide (v = 0) then
    ([Group_vertex_invalid],
     {| vertex_index := Some 0; texture_index := None; normal_index := None |},
     None)
  else
    let t := n3dc_obj_string_section_to_uint
               (vertex_index_end + 1) texture_index_end file_chars in
    if decide (t = 0) then
      ([Group_texture_invalid],
       {| vertex_index := Some (v - 1); texture_index := Some 0;
          normal_index := None |},
       None)
    else
      let n := n3dc_obj_string_section_to_uint
                 (texture_index_end + 1) normal_index_end file_chars in
      if decide (n = 0) then
        ([Group_normal_invalid],
         {| vertex_index := Some (v - 1); texture_index := Some (t - 1);
            normal_index := Some 0 |},
         None)
      else
        ([],
         {| vertex_index := Some (v - 1); texture_index := Some (t - 1);
            normal_index := Some (n - 1) |},
         Some normal_index_end).

(** Result: the printed diagnostics, the cells written, and [index_group_end]
    on success. *)
Definition n3dc_obj_parse_obj_index_group
    (file_chars : list ascii) (index_group_start : nat)
  : list diag * index_group * option nat :=
  match index_group_loop (drop index_group_start file_chars) index_group_start
          false false 0%nat 0%nat with
  | (p, Some (vertex_index_end, texture_index_end, normal_index_end)) =>
    convert_index_group file_chars index_group_start
      vertex_index_end texture_index_end normal_index_end
  | (p, None) => (p, untouched, None)
  end.

(** ** Face scanner *)

(** The [while] loop of [n3dc_obj_parse_obj_face] runs at most three times:
    the flags [index_group_1_parsed] and [index_group_2_parsed] select the
    branch, and the third branch always returns.  The three iterations are
    written one after the other.  Result: the diagnostics, the cells of the
    three groups, and [line_end] on success. *)
Definition n3dc_obj_parse_obj_face (file_chars : list ascii) (face_start : nat)
  : list diag * (index_group * index_group * index_group) * option nat :=
  let file_chars_length := length file_chars in
  if decide (face_start < file_chars_length)%nat then
    match n3dc_obj_parse_obj_index_group file_chars face_start with
    | (p1, g1, Some end1) =>
      if decide (end1 < file_chars_length)%nat then
        match n3dc_obj_parse_obj_index_group file_chars end1 with
        | (p2, g2, Some end2) =>
          if decide (end2 < file_chars_length)%nat then
            (* third branch: [error] is assigned but not tested *)
            let '(p3, g3, r3) :=
              n3dc_obj_parse_obj_index_group file_chars end2 in
            let index_group_end :=
              match r3 with Some end3 => end3 | None => end2 end in
            if decide (char_at file_chars index_group_end <> LF) then
              (p1 ++ p2 ++ p3 ++ [Face_not_triangulated], (g1, g2, g3), None)
            else
              (p1 ++ p2 ++ p3, (g1, g2, g3), Some index_group_end)
          else (p1 ++ p2 ++ [Face_end_of_file], (g1, g2, untouched), None)
        | (p2, g2, None) => (p1 ++ p2, (g1, g2, untouched), None)
        end
      else (p1 ++ [Face_end_of_file], (g1, untouched, untouched), None)
    | (p1, g1, None) => (p1, (g1, untouched, untouched), None)
    end
  else ([Face_end_of_file], (untouched, untouched, untouched), None).

(** ** Skipping a line *)

(** The loop of [n3dc_obj_seek_end_of_line] tests [start_offset], not [i],
    against [file_chars_length]: once entered it only leaves through the
    [return] at a newline.  [cells] are the cells of the allocated block from
    offset [i] on; running out of them is a read past the allocation. *)
Fixpoint seek_loop (cells : list ascii) (i : nat) : run nat :=
  match cells with
  | [] => ([], Undef Out_of_bounds_read)
  | c :: cells' => if decide (c = LF) then ([], Ok i) else seek_loop cells' (S i)
  end.

Definition n3dc_obj_seek_end_of_line (file_chars : list ascii) (start_offset : nat)
  : run nat :=
  if decide (start_offset < length file_chars)%nat
  then seek_loop (drop start_offset (file_chars ++ [NUL])) start_offset
  else ([Seek_end_of_file], Err).

(** ** Well-formed lines *)

(** A character the vector scanners accept inside a record. *)
Definition vec_char (c : ascii) : Prop :=
  c = SP \/ n3dc_obj_is_valid_vec_char c = true.

Definition spaces (body : list ascii) : nat :=
  length (filter (fun c => c = SP) body).

(** How many spaces [vec3_loop] still needs before the newline. *)
Definition spaces_needed (x_parsed y_parsed : bool) : nat :=
  match x_parsed, y_parsed with
  | true, true => 0
  | false, false => 2
  | _, _ => 1
  end.

(** The converter applied to a field on its own. *)
Definition field_value (field : list ascii) : Z :=
  n3dc_obj_string_section_to_uint 0 (length field) field.

(** The vertex field is converted together with the space in front of it. *)
Definition wf_group (g : group) : Prop :=
  let '(a, b, c) := g in
  shaped_group g /\
  field_value (SP :: a) <> 0 /\ field_value b <> 0 /\ field_value c <> 0.

(** A line every scanner accepts. *)
Definition wf (l : line) : Prop :=
  match l with
  | Position body | Normal body => Forall vec_char body /\ (2 <= spaces body)%nat
  | Texture_coord body => Forall vec_char body /\ (1 <= spaces body)%nat
  | Face g1 g2 g3 => wf_group g1 /\ wf_group g2 /\ wf_group g3
  | Other text => shaped (Other text)
  end.

#[global] Instance field_char_dec c : Decision (field_char c).
Proof. unfold field_char. apply _. Defined.

#[global] Instance shaped_group_dec g : Decision (shaped_group g).
Proof. destruct g as [[a b] c]. unfold shaped_group. apply _. Defined.

#[global] Instance shaped_dec l : Decision (shaped l).
Proof. destruct l; unfold shaped; apply _. Defined.

#[global] Instance vec_char_dec c : Decision (vec_char c).
Proof. unfold vec_char. apply _. Defined.

#[global] Instance wf_group_dec g : Decision (wf_group g).
Proof. destruct g as [[a b] c]. unfold wf_group. apply _. Defined.

#[global] Instance wf_dec l : Decision (wf l).
Proof. destruct l; unfold wf; apply _. Defined.

(** The cells of a group that was scanned to its end. *)
Definition written (c : index_group) : Prop :=
  is_Some (vertex_index c) /\ is_Some (texture_index c)
  /\ is_Some (normal_index c).

(** The outcome of [convert_index_group] in terms of the three converted
    values. *)
Definition index_group_result (v t n : Z) (normal_index_end : nat)
  : list diag * index_group * option nat :=
  if decide (v = 0) then
    ([Group_vertex_invalid],
     {| vertex_index := Some 0; texture_index := None; normal_index := None |},
     None)
  else if decide (t = 0) then
    ([Group_texture_invalid],
     {| vertex_index := Some (v - 1); texture_index := Some 0;
        normal_index := None |},
     None)
  else if decide (n = 0) then
    ([Group_normal_invalid],
     {| vertex_index := Some (v - 1); texture_index := Some (t - 1);
        normal_index := Some 0 |},
     None)
  else
    ([],
     {| vertex_index := Some (v - 1); texture_index := Some (t - 1);
        normal_index := Some (n - 1) |},
     Some normal_index_end).

(** The scan of a group given by its fields, ending at offset [e]. *)
Definition group_outcome (g : group) (e : nat)
  : list diag * index_group * option nat :=
  let '(a, b, c) := g in
  index_group_result (field_value (SP :: a)) (field_value b) (field_value c) e.

(** ** What the lines of a file hold *)

(** The float a field converts to when it is scanned on its own. *)
Definition field_float (field : list ascii) : spec_float :=
  n3dc_obj_string_section_to_float 0 (length field) field.

(** The scalars of a vector record: those [n3dc_obj_parse_obj_vec3] (or
    [n3dc_obj_parse_obj_vec2]) returns on the body of the record alone. *)
Definition vec3_values (body : list ascii) : list spec_float :=
  match n3dc_obj_parse_obj_vec3 (body ++ [LF]) 0 with
  | (_, Some (x, y, z, _)) => [x; y; z]
  | (_, None) => []
  end.

Definition vec2_values (body : list ascii) : list spec_float :=
  match n3dc_obj_parse_obj_vec2 (body ++ [LF]) 0 with
  | (_, Some (x, y, _)) => [x; y]
  | (_, None) => []
  end.

(** The 0-based indices of a group: each converted field less one. *)
Definition group_indices (g : group) : Z * Z * Z :=
  let '(a, b, c) := g in
  (field_value (SP :: a) - 1, field_value b - 1, field_value c - 1).

(** The cells a group scan fills when it succeeds. *)
Definition group_cells (g : group) : index_group :=
  let '(v, t, n) := group_indices g in
  {| vertex_index := Some v; texture_index := Some t; normal_index := Some n |}.

(** An array of [n] cells of which the first hold the values [l] and the
    others have never been written. *)
Definition filled {A} (n : Z) (l : list A) : array A :=
  (Some <$> l) ++ replicate (Z.to_nat n - length l) None.

(** The pools and the corners of a list of lines, in file order. *)
Fixpoint positions_of (ls : list line) : list spec_float :=
  match ls with
  | [] => []
  | Position body :: ls' => vec3_values body ++ positions_of ls'
  | _ :: ls' => positions_of ls'
  end.

Fixpoint texture_coords_of (ls : list line) : list spec_float :=
  match ls with
  | [] => []
  | Texture_coord body :: ls' => vec2_values body ++ texture_coords_of ls'
  | _ :: ls' => texture_coords_of ls'
  end.

Fixpoint normals_of (ls : list line) : list spec_float :=
  match ls with
  | [] => []
  | Normal body :: ls' => vec3_values body ++ normals_of ls'
  | _ :: ls' => normals_of ls'
  end.

Fixpoint corners_of (ls : list line) : list (Z * Z * Z) :=
  match ls with
  | [] => []
  | Face g1 g2 g3 :: ls' =>
    group_indices g1 :: group_indices g2 :: group_indices g3 :: corners_of ls'
  | _ :: ls' => corners_of ls'
  end.

(** The [width] scalars of record [index] in a pool. *)
Definition record_scalars (width : nat) (pool : list spec_float) (index : Z)
  : list spec_float :=
  take width (drop (width * Z.to_nat index) pool).

(** The object a file of lines [ls] denotes: every corner expanded to the
    scalars of the records its indices name. *)
Definition expanded (ls : list line) : n3dc_obj_t := {|
  num_vertices := 3 * count is_face ls;
  vertices :=
    concat (map (fun '(v, _, _) => record_scalars 3 (positions_of ls) v)
                (corners_of ls));
  normals :=
    concat (map (fun '(_, _, n) => record_scalars 3 (normals_of ls) n)
                (corners_of ls));
  texture_coords :=
    concat (map (fun '(_, t, _) => record_scalars 2 (texture_coords_of ls) t)
                (corners_of ls))
|}.

(** Every index of a corner names a record of the file. *)
Definition corner_in_range (ls : list line) (corner : Z * Z * Z) : Prop :=
  let '(v, t, n) := corner in
  v < count is_position ls /\ t < count is_texture_coord ls
  /\ n < count is_normal ls.

Definition indices_in_range (ls : list line) : Prop :=
  Forall (corner_in_range ls) (corners_of ls).

(** The characters of a number: those [n3dc_obj_is_valid_vec_char] accepts. *)
Definition number_char (c : ascii) : Prop :=
  n3dc_obj_is_valid_vec_char c = true.

(** The two end-of-file diagnostics that the scanners of a face and of a
    skipped line print when they are entered at or after the end of the
    buffer. *)
Definition entry_diag (d : diag) : bool :=
  match d with
  | Face_end_of_file | Seek_end_of_file => true
  | _ => false
  end.

#[global] Instance number_char_dec c : Decision (number_char c).
Proof. unfold number_char. apply _. Defined.

#[global] Instance corner_in_range_dec ls corner :
  Decision (corner_in_range ls corner).
Proof. destruct corner as [[v t] n]. unfold corner_in_range. apply _. Defined.

#[global] Instance indices_in_range_dec ls : Decision (indices_in_range ls).
Proof. unfold indices_in_range. apply _. Defined.

(** The diagnostics of the index-group scanner. *)
Definition group_diag (d : diag) : bool :=
  match d with
  | Group_texture_missing | Group_vertex_invalid | Group_texture_invalid
  | Group_normal_invalid | Group_end_of_file => true
  | _ => false
  end.

(** ** Line classifier and driver loop *)

Section Driver.

Variable file_chars : list ascii.
Variables max_vertices max_normals max_indices : Z.

(** The local variables of [n3dc_obj_load] that live across iterations of its
    [while] loop ([pool_vertices], [pool_texture_coords] and [pool_normals]
    are the source's [vertices], [texture_coords] and [normals]), and the
    diagnostics printed so far. *)
Record scan_state : Type := {
  current_char_offset : nat;
  pool_vertices : array spec_float;
  vertex_offset : Z;
  parsed_vertices : Z;
  pool_texture_coords : array spec_float;
  texture_coord_offset : Z;
  parsed_texture_coords : Z;
  pool_normals : array spec_float;
  normal_offset : Z;
  parsed_normals : Z;
  vertex_indices : array Z;
  texture_indices : array Z;
  normal_indices : array Z;
  parsed_indices : Z;
  index_offset : Z;
  printed : list diag
}.

Definition initial_state : scan_state := {|
  current_char_offset := 1;
  pool_vertices := malloc (max_vertices * 3);
  vertex_offset := 0;
  parsed_vertices := 0;
  pool_texture_coords := malloc (max_indices * 2);
  texture_coord_offset := 0;
  parsed_texture_coords := 0;
  pool_normals := malloc (max_normals * 3);
  normal_offset := 0;
  parsed_normals := 0;
  vertex_indices := malloc max_indices;
  texture_indices := malloc max_indices;
  normal_indices := malloc max_indices;
  parsed_indices := 0;
  index_offset := 0;
  printed := []
|}.

(** How one execution of the loop body ends. *)
Inductive iteration : Type :=
| Next (st : scan_state)
| Break (p : list diag)
| Crash (p : list diag) (u : undefined).

Definition after_vertex (st : scan_state) (p : list diag) (line_end : nat)
    (cells : array spec_float) (offset parsed : Z) : scan_state := {|
  current_char_offset := line_end + 2;
  pool_vertices := cells;
  vertex_offset := offset;
  parsed_vertices := parsed;
  pool_texture_coords := pool_texture_coords st;
  texture_coord_offset := texture_coord_offset st;
  parsed_texture_coords := parsed_texture_coords st;
  pool_normals := pool_normals st;
  normal_offset := normal_offset st;
  parsed_normals := parsed_normals st;
  vertex_indices := vertex_indices st;
  texture_indices := texture_indices st;
  normal_indices := normal_indices st;
  parsed_indices := parsed_indices st;
  index_offset := index_offset st;
  printed := printed st ++ p
|}.

Definition after_texture_coord (st : scan_state) (p : list diag) (line_end : nat)
    (cells : array spec_float) (offset parsed : Z) : scan_state := {|
  current_char_offset := line_end + 2;
  pool_vertices := pool_vertices st;
  vertex_offset := vertex_offset st;
  parsed_vertices := parsed_vertices st;
  pool_texture_coords := cells;
  texture_coord_offset := offset;
  parsed_texture_coords := parsed;
  pool_normals := pool_normals st;
  normal_offset := normal_offset st;
  parsed_normals := parsed_normals st;
  vertex_indices := vertex_indices st;
  texture_indices := texture_indices st;
  normal_indices := normal_indices st;
  parsed_indices := parsed_indices st;
  index_offset := index_offset st;
  printed := printed st ++ p
|}.

Definition after_normal (st : scan_state) (p : list diag) (line_end : nat)
    (cells : array spec_float) (offset parsed : Z) : scan_state := {|
  current_char_offset := line_end + 2;
  pool_vertices := pool_vertices st;
  vertex_offset := vertex_offset st;
  parsed_vertices := parsed_vertices st;
  pool_texture_coords := pool_texture_coords st;
  texture_coord_offset := texture_coord_offset st;
  parsed_texture_coords := parsed_texture_coords st;
  pool_normals := cells;
  normal_offset := offset;
  parsed_normals := parsed;
  vertex_indices := vertex_indices st;
  texture_indices := texture_indices st;
  normal_indices := normal_indices st;
  parsed_indices := parsed_indices st;
  index_offset := index_offset st;
  printed := printed st ++ p
|}.

Definition after_face (st : scan_state) (p : list diag) (line_end : nat)
    (vi ti ni : array Z) (offset parsed : Z) : scan_state := {|
  current_char_offset := line_end + 2;
  pool_vertices := pool_vertices st;
  vertex_offset := vertex_offset st;
  parsed_vertices := parsed_vertices st;
  pool_texture_coords := pool_texture_coords st;
  texture_coord_offset := texture_coord_offset st;
  parsed_texture_coords := parsed_texture_coords st;
  pool_normals := pool_normals st;
  normal_offset := normal_offset st;
  parsed_normals := parsed_normals st;
  vertex_indices := vi;
  texture_indices := ti;
  normal_indices := ni;
  parsed_indices := parsed;
  index_offset := offset;
  printed := printed st ++ p
|}.

Definition after_skip (st : scan_state) (p : list diag) (line_end : nat)
  : scan_state :=
  after_face st p line_end (vertex_indices st) (texture_indices st)
    (normal_indices st) (index_offset st) (parsed_indices st).

(** Three consecutive stores, as the scanners do through their out-pointers. *)
Definition store3 {A} (arr : array A) (o1 : Z) (v1 : option A)
    (o2 : Z) (v2 : option A) (o3 : Z) (v3 : option A) : option (array A) :=
  arr1 ← store_opt arr o1 v1;
  arr2 ← store_opt arr1 o2 v2;
  store_opt arr2 o3 v3.

(** The branch of the loop body for a position record, ["v "]. *)
Definition vertex_branch (st : scan_state) : iteration :=
  let parsed := uint (parsed_vertices st + 1) in
  if decide (parsed > max_vertices) then
    Break (printed st ++ [Max_vertices_exceeded])
  else
    let start := (current_char_offset st + 1)%nat in
    let x_offset := vertex_offset st in
    let y_offset := uint (x_offset + 1) in
    let z_offset := uint (y_offset + 1) in
    let offset := uint (z_offset + 1) in
    match n3dc_obj_parse_obj_vec3 file_chars start with
    | (p, Some (x, y, z, line_end)) =>
      match store3 (pool_vertices st)
              x_offset (Some x) y_offset (Some y) z_offset (Some z) with
      | Some cells => Next (after_vertex st p line_end cells offset parsed)
      | None => Crash (printed st ++ p) Out_of_bounds_write
      end
    | (p, None) => Break (printed st ++ p)
    end.

(** The branch for a texture-coordinate record, ["vt"]: the count is tested
    against [max_indices]. *)
Definition texture_coord_branch (st : scan_state) : iteration :=
  let parsed := uint (parsed_texture_coords st + 1) in
  if decide (parsed > max_indices) then
    Break (printed st ++ [Max_texture_coords_exceeded])
  else
    let start := (current_char_offset st + 2)%nat in
    let x_offset := texture_coord_offset st in
    let y_offset := uint (x_offset + 1) in
    let offset := uint (y_offset + 1) in
    match n3dc_obj_parse_obj_vec2 file_chars start with
    | (p, Some (x, y, line_end)) =>
      match store (pool_texture_coords st) x_offset x
              ≫= (fun cells => store cells y_offset y) with
      | Some cells =>
        Next (after_texture_coord st p line_end cells offset parsed)
      | None => Crash (printed st ++ p) Out_of_bounds_write
      end
    | (p, None) => Break (printed st ++ p)
    end.

(** The branch for a normal record, ["vn"]. *)
Definition normal_branch (st : scan_state) : iteration :=
  let parsed := uint (parsed_normals st + 1) in
  if decide (parsed > max_normals) then
    Break (printed st ++ [Max_normals_exceeded])
  else
    let start := (current_char_offset st + 2)%nat in
    let x_offset := normal_offset st in
    let y_offset := uint (x_offset + 1) in
    let z_offset := uint (y_offset + 1) in
    let offset := uint (z_offset + 1) in
    match n3dc_obj_parse_obj_vec3 file_chars start with
    | (p, Some (x, y, z, line_end)) =>
      match store3 (pool_normals st)
              x_offset (Some x) y_offset (Some y) z_offset (Some z) with
      | Some cells => Next (after_normal st p line_end cells offset parsed)
      | None => Crash (printed st ++ p) Out_of_bounds_write
      end
    | (p, None) => Break (printed st ++ p)
    end.

(** The branch for a face record, ["f "]: the scan starts on the space. *)
Definition face_branch (st : scan_state) : iteration :=
  let parsed := uint (parsed_indices st + 3) in
  if decide (parsed > max_indices) then
    Break (printed st ++ [Max_indices_exceeded])
  else
    let group_1_offset := index_offset st in
    let group_2_offset := uint (group_1_offset + 1) in
    let group_3_offset := uint (group_2_offset + 1) in
    let offset := uint (group_3_offset + 1) in
    let '(p, (g1, g2, g3), r) :=
      n3dc_obj_parse_obj_face file_chars (current_char_offset st) in
    match
      store3 (vertex_indices st) group_1_offset (vertex_index g1)
        group_2_offset (vertex_index g2) group_3_offset (vertex_index g3),
      store3 (texture_indices st) group_1_offset (texture_index g1)
        group_2_offset (texture_index g2) group_3_offset (texture_index g3),
      store3 (normal_indices st) group_1_offset (normal_index g1)
        group_2_offset (normal_index g2) group_3_offset (normal_index g3)
    with
    | Some vi, Some ti, Some ni =>
      match r with
      | Some line_end => Next (after_face st p line_end vi ti ni offset parsed)
      | None => Break (printed st ++ p)
      end
    | _, _, _ => Crash (printed st ++ p) Out_of_bounds_write
    end.

(** The last branch: skip to the start of the next line. *)
Definition skip_branch (st : scan_state) : iteration :=
  match n3dc_obj_seek_end_of_line file_chars (current_char_offset st) with
  | (p, Ok line_end) => Next (after_skip st p line_end)
  | (p, Err) => Break (printed st ++ p)
  | (p, Undef u) => Crash (printed st ++ p) u
  end.

(** The body of the [while] loop of [n3dc_obj_load]: the two-character
    lookahead selects a branch. *)
Definition loop_body (st : scan_state) : iteration :=
  let last_char := char_at file_chars (current_char_offset st - 1) in
  let current_char := char_at file_chars (current_char_offset st) in
  if decide (last_char = "v"%char /\ current_char = SP) then
    vertex_branch st
  else if decide (last_char = "v"%char /\ current_char = "t"%char) then
    texture_coord_branch st
  else if decide (last_char = "v"%char /\ current_char = "n"%char) then
    normal_branch st
  else if decide (last_char = "f"%char /\ current_char = SP) then
    face_branch st
  else
    skip_branch st.

(** The [while] loop, with a bound on the number of iterations; [None] means
    the bound was too small ([run_from_total] shows that the number of
    characters left in the buffer is enough). *)
Fixpoint scan_loop (fuel : nat) (st : scan_state) : option (run scan_state) :=
  if decide (current_char_offset st < length file_chars)%nat then
    match fuel with
    | O => None
    | S fuel' =>
      match loop_body st with
      | Next st' => scan_loop fuel' st'
      | Break p => Some (p, Err)
      | Crash p u => Some (p, Undef u)
      end
    end
  else Some (printed st, Ok st).

(** ** Resolver pass *)

(** One iteration of the final [for] loop, for corner [i]: the scalars to
    append to [ordered_vertices], [ordered_texture_coords] and
    [ordered_normals].  The products [i * 3] and [i * 2] are computed in
    [int]. *)
Definition resolve_corner (st : scan_state) (i : Z)
  : outcome (list spec_float * list spec_float * list spec_float) :=
  bind (fetch (vertex_indices st) i) (fun vertex_index =>
  let vertex_offset := uint (vertex_index * 3) in
  if decide (i * 3 > INT_MAX) then Undef Signed_overflow else
  bind (fetch (pool_vertices st) vertex_offset) (fun v0 =>
  bind (fetch (pool_vertices st) (uint (vertex_offset + 1))) (fun v1 =>
  bind (fetch (pool_vertices st) (uint (vertex_offset + 2))) (fun v2 =>
  bind (fetch (texture_indices st) i) (fun texture_index =>
  let texture_coord_offset := uint (texture_index * 2) in
  bind (fetch (pool_texture_coords st) texture_coord_offset) (fun t0 =>
  bind (fetch (pool_texture_coords st) (uint (texture_coord_offset + 1))) (fun t1 =>
  bind (fetch (normal_indices st) i) (fun normal_index =>
  let normal_offset := uint (normal_index * 3) in
  bind (fetch (pool_normals st) normal_offset) (fun n0 =>
  bind (fetch (pool_normals st) (uint (normal_offset + 1))) (fun n1 =>
  bind (fetch (pool_normals st) (uint (normal_offset + 2))) (fun n2 =>
  Ok ([v0; v1; v2], [t0; t1], [n0; n1; n2])))))))))))).

(** The [for] loop over the corners [i, i+1, ..., i+count-1]; the output
    arrays are filled from the front, three (or two) cells per corner. *)
Fixpoint resolve_loop (st : scan_state) (count : nat) (i : Z)
  : outcome (list spec_float * list spec_float * list spec_float) :=
  match count with
  | O => Ok ([], [], [])
  | S count' =>
    bind (resolve_corner st i) (fun '(v, t, n) =>
    bind (resolve_loop st count' (i + 1)) (fun '(vs, ts, ns) =>
    Ok (v ++ vs, t ++ ts, n ++ ns)))
  end.

Definition resolve (st : scan_state) : outcome n3dc_obj_t :=
  bind (resolve_loop st (Z.to_nat (parsed_indices st)) 0)
    (fun '(ordered_vertices, ordered_texture_coords, ordered_normals) =>
    Ok {| num_vertices := parsed_indices st;
          vertices := ordered_vertices;
          normals := ordered_normals;
          texture_coords := ordered_texture_coords |}).

(** [n3dc_obj_load] after a successful [n3dc_obj_read_text_file] that put
    [file_chars] in the buffer.  [None] only if the iteration bound of the
    driver loop is too small, which [n3dc_obj_load_total] excludes. *)
Definition n3dc_obj_load : option (run n3dc_obj_t) :=
  match scan_loop (length file_chars) initial_state with
  | None => None
  | Some (p, Ok st) =>
    match resolve st with
    | Ok obj => Some (p, Ok obj)
    | Err => Some (p, Err)
    | Undef u => Some (p, Undef u)
    end
  | Some (p, Err) => Some (p, Err)
  | Some (p, Undef u) => Some (p, Undef u)
  end.

(** ** Invariant of the driver loop *)

(** The loop from [st] on, with as much fuel as characters are left. *)
Definition run_from (st : scan_state) : option (run scan_state) :=
  scan_loop (length file_chars - current_char_offset st) st.

(** What every state reached from [initial_state] satisfies: the arrays keep
    their allocated sizes, the write offsets follow the counters, and the
    counters stay below the capacities. *)
Definition Inv (st : scan_state) : Prop :=
  (1 <= current_char_offset st)%nat /\
  (Z.of_nat (length (pool_vertices st)) = max_vertices * 3 /\
   vertex_offset st = uint (3 * parsed_vertices st) /\
   0 <= parsed_vertices st <= max_vertices) /\
  (Z.of_nat (length (pool_texture_coords st)) = max_indices * 2 /\
   texture_coord_offset st = uint (2 * parsed_texture_coords st) /\
   0 <= parsed_texture_coords st <= max_indices) /\
  (Z.of_nat (length (pool_normals st)) = max_normals * 3 /\
   normal_offset st = uint (3 * parsed_normals st) /\
   0 <= parsed_normals st <= max_normals) /\
  (Z.of_nat (length (vertex_indices st)) = max_indices /\
   Z.of_nat (length (texture_indices st)) = max_indices /\
   Z.of_nat (length (normal_indices st)) = max_indices /\
   index_offset st = parsed_indices st /\
   0 <= parsed_indices st <= max_indices /\
   exists k, parsed_indices st = 3 * k).

(** The counters of [st'] are those of [st] after the records of [ls]. *)
Definition counted (ls : list line) (st st' : scan_state) : Prop :=
  parsed_vertices st' = parsed_vertices st + count is_position ls /\
  parsed_texture_coords st' = parsed_texture_coords st + count is_texture_coord ls /\
  parsed_normals st' = parsed_normals st + count is_normal ls /\
  parsed_indices st' = parsed_indices st + 3 * count is_face ls.

(** The capacities leave room for the records of [ls] after [st]. *)
Definition room (ls : list line) (st : scan_state) : Prop :=
  parsed_vertices st + count is_position ls <= max_vertices /\
  parsed_texture_coords st + count is_texture_coord ls <= max_indices /\
  parsed_normals st + count is_normal ls <= max_normals /\
  parsed_indices st + 3 * count is_face ls <= max_indices.

(** The pools and the index arrays of [st] hold the records and the corners
    of [ls], and its counters their numbers. *)
Definition holds (ls : list line) (st : scan_state) : Prop :=
  (parsed_vertices st = count is_position ls /\
   pool_vertices st = filled (max_vertices * 3) (positions_of ls)) /\
  (parsed_texture_coords st = count is_texture_coord ls /\
   pool_texture_coords st = filled (max_indices * 2) (texture_coords_of ls)) /\
  (parsed_normals st = count is_normal ls /\
   pool_normals st = filled (max_normals * 3) (normals_of ls)) /\
  (parsed_indices st = 3 * count is_face ls /\
   vertex_indices st
   = filled max_indices ((fun '(v, _, _) => v) <$> corners_of ls) /\
   texture_indices st
   = filled max_indices ((fun '(_, t, _) => t) <$> corners_of ls) /\
   normal_indices st
   = filled max_indices ((fun '(_, _, n) => n) <$> corners_of ls)).

(** The counters and the offsets that the records of [ls] need do not wrap
    around, and the corner numbers times three fit in [int]. *)
Definition representable (ls : list line) : Prop :=
  3 * count is_position ls < 2 ^ 32 /\
  2 * count is_texture_coord ls < 2 ^ 32 /\
  3 * count is_normal ls < 2 ^ 32 /\
  9 * count is_face ls <= INT_MAX.

#[global] Instance representable_dec ls : Decision (representable ls).
Proof. unfold representable. apply _. Defined.

End Driver.

(** * Properties of the scanners *)

(** Lengths of concatenations, up to linear arithmetic. *)
Ltac list_len :=
  repeat first [rewrite length_app in * | progress simpl in * ]; try lia.

(** Equality of concatenations up to associativity. *)
Ltac list_eq :=
  repeat first [rewrite <- app_assoc | progress simpl]; reflexivity.

(** ** Facts about [uint] and arrays *)

Lemma uint_range z : 0 <= uint z < 2 ^ 32.
Proof. unfold uint. apply Z.mod_pos_bound. lia. Qed.

Lemma uint_small z : 0 <= z < 2 ^ 32 -> uint z = z.
Proof. unfold uint. apply Z.mod_small. Qed.

Lemma uint_le z : 0 <= z -> uint z <= z.
Proof. intros Hz. unfold uint. apply Z.mod_le; lia. Qed.

Lemma uint_add_l a b : uint (uint a + b) = uint (a + b).
Proof. unfold uint. apply Zplus_mod_idemp_l. Qed.

Lemma uint_mul_r k a : uint (k * uint a) = uint (k * a).
Proof. unfold uint. apply Zmult_mod_idemp_r. Qed.

Lemma store_Some {A} (arr arr' : array A) off v :
  store arr off v = Some arr' ->
  off < Z.of_nat (length arr) /\ length arr' = length arr.
Proof.
  unfold store. case_decide; [|discriminate].
  intros [= <-]. split; [assumption|]. apply length_insert.
Qed.

Lemma store_in_bounds {A} (arr : array A) off v :
  off < Z.of_nat (length arr) ->
  exists arr', store arr off v = Some arr' /\ length arr' = length arr.
Proof.
  intros Hoff. unfold store. rewrite decide_True by assumption.
  eexists. split; [reflexivity|]. apply length_insert.
Qed.

Lemma store_opt_length {A} (arr arr' : array A) off v :
  store_opt arr off v = Some arr' -> length arr' = length arr.
Proof.
  destruct v as [x|]; simpl.
  - intros H. apply store_Some in H. tauto.
  - intros [= <-]. reflexivity.
Qed.

Lemma store3_length {A} (arr arr' : array A) o1 v1 o2 v2 o3 v3 :
  store3 arr o1 v1 o2 v2 o3 v3 = Some arr' -> length arr' = length arr.
Proof.
  unfold store3. intros H.
  destruct (store_opt arr o1 v1) as [a1|] eqn:H1; [|discriminate].
  simpl in H.
  destruct (store_opt a1 o2 v2) as [a2|] eqn:H2; [|discriminate].
  simpl in H.
  apply store_opt_length in H1, H2, H. congruence.
Qed.

Lemma store3_first {A} (arr arr' : array A) o1 x o2 v2 o3 v3 :
  store3 arr o1 (Some x) o2 v2 o3 v3 = Some arr' ->
  o1 < Z.of_nat (length arr).
Proof.
  unfold store3. simpl.
  destruct (store arr o1 x) as [a1|] eqn:H1; [|discriminate].
  intros _. apply store_Some in H1. tauto.
Qed.

Lemma store3_in_bounds {A} (arr : array A) o1 x1 o2 x2 o3 x3 :
  o1 < Z.of_nat (length arr) ->
  o2 < Z.of_nat (length arr) ->
  o3 < Z.of_nat (length arr) ->
  exists arr',
    store3 arr o1 (Some x1) o2 (Some x2) o3 (Some x3) = Some arr' /\
    length arr' = length arr.
Proof.
  intros H1 H2 H3. unfold store3. simpl.
  destruct (store_in_bounds arr o1 x1 H1) as (a1 & -> & L1). simpl.
  rewrite <- L1 in H2, H3.
  destruct (store_in_bounds a1 o2 x2 H2) as (a2 & -> & L2). simpl.
  rewrite <- L2 in H3.
  destruct (store_in_bounds a2 o3 x3 H3) as (a3 & -> & L3).
  exists a3. split; [reflexivity|]. congruence.
Qed.

(** ** Facts about the converter *)

Lemma char_count_range start end_ :
  (start <= end_)%nat -> Z.of_nat (end_ - start) < 2 ^ 32 ->
  Z.to_nat (char_count start end_) = ((end_ - start) `min` 10)%nat.
Proof.
  intros Hle Hlt. unfold char_count, n3dc_obj_min_uint.
  rewrite uint_small by lia. case_decide; lia.
Qed.

Lemma char_count_le start end_ :
  (start <= end_)%nat -> (Z.to_nat (char_count start end_) <= end_ - start)%nat.
Proof.
  intros Hle. unfold char_count, n3dc_obj_min_uint.
  pose proof (uint_le (Z.of_nat end_ - Z.of_nat start)).
  pose proof (uint_range (Z.of_nat end_ - Z.of_nat start)).
  case_decide; lia.
Qed.

(** The buffer built for a field depends on the field only. *)
Lemma string_section_infix pre field post :
  string_section (length pre) (length pre + length field) (pre ++ field ++ post)
  = string_section 0 (length field) field.
Proof.
  unfold string_section.
  assert (char_count (length pre) (length pre + length field)
          = char_count 0 (length field)) as ->.
  { unfold char_count. do 2 f_equal. lia. }
  pose proof (char_count_le 0 (length field)) as Hle.
  rewrite drop_app_length. simpl.
  rewrite take_app_le by lia. reflexivity.
Qed.

Lemma to_uint_infix pre field post s e :
  s = length pre -> e = (length pre + length field)%nat ->
  n3dc_obj_string_section_to_uint s e (pre ++ field ++ post) = field_value field.
Proof.
  intros -> ->. unfold n3dc_obj_string_section_to_uint, field_value.
  rewrite string_section_infix. reflexivity.
Qed.

(** ** Facts about the vector scanners *)

Lemma vec_char_not_LF c : vec_char c -> c <> LF.
Proof.
  intros [Hc|Hc] Heq; rewrite Heq in Hc; [discriminate|].
  vm_compute in Hc. discriminate.
Qed.

Lemma vec3_loop_Some cells : forall i xp yp xe ye p xe' ye' ze,
  vec3_loop cells i xp yp xe ye = (p, Some (xe', ye', ze)) ->
  p = [] /\ (i <= ze)%nat.
Proof. clear atof.
  induction cells as [|c cells IH]; intros i xp yp xe ye p xe' ye' ze; simpl; unfold raise, ret.
  - intros [=].
  - repeat case_decide; destruct xp, yp; simpl;
      try destruct (n3dc_obj_is_valid_vec_char c); simpl;
      try (intros [=]; fail);
      try (intros [=]; subst; split; [reflexivity|lia]);
      intros Hrun; apply IH in Hrun; (split; [tauto|lia]).
Qed.

(** A successful scan stops at the first newline. *)
Lemma vec3_loop_first_newline body post : forall i xp yp xe ye p xe' ye' ze,
  LF ∉ body ->
  vec3_loop (body ++ LF :: post) i xp yp xe ye = (p, Some (xe', ye', ze)) ->
  ze = (i + length body)%nat.
Proof.
  induction body as [|c body IH]; intros i xp yp xe ye p xe' ye' ze Hnl; simpl; unfold raise, ret.
  - repeat case_decide; try discriminate; try congruence.
    destruct xp, yp; simpl; intros [=]; subst; lia.
  - apply not_elem_of_cons in Hnl as [Hc Hnl].
    repeat case_decide; try congruence; destruct xp, yp; simpl;
      try destruct (n3dc_obj_is_valid_vec_char c); simpl;
      try (intros [=]; fail);
      intros Hrun; apply IH in Hrun; try assumption; lia.
Qed.

Lemma vec3_loop_ok body post : forall i xp yp xe ye,
  Forall vec_char body ->
  (spaces_needed xp yp <= spaces body)%nat ->
  exists xe' ye',
    vec3_loop (body ++ LF :: post) i xp yp xe ye
    = ([], Some (xe', ye', (i + length body)%nat)).
Proof.
  induction body as [|c body IH]; intros i xp yp xe ye Hok Hsp; simpl.
  - unfold spaces in Hsp. destruct xp, yp; simpl in *; try lia.
    exists xe, ye. unfold ret. do 3 f_equal. lia.
  - apply Forall_cons in Hok as [Hc Hok].
    unfold spaces in Hsp. rewrite filter_cons in Hsp. fold (spaces body) in Hsp.
    destruct (decide (c = SP)) as [->|Hsp'].
    + simpl in Hsp. fold (spaces body) in Hsp.
      destruct xp, yp; simpl in *;
        match goal with
        | |- exists _ _, vec3_loop _ ?j ?f1 ?f2 ?a ?b = _ =>
          destruct (IH j f1 f2 a b Hok) as (xe' & ye' & Heq); [simpl; lia|];
          rewrite Heq; exists xe', ye'; do 3 f_equal; lia
        end.
    + try rewrite decide_False in Hsp by congruence. fold (spaces body) in Hsp.
      rewrite decide_False by (apply vec_char_not_LF; assumption).
      destruct Hc as [?|Hv]; [contradiction|]. rewrite Hv. simpl.
      destruct (IH (S i) xp yp xe ye Hok) as (xe' & ye' & Heq); [lia|].
      rewrite Heq. exists xe', ye'. do 3 f_equal. lia.
Qed.

Lemma vec3_loop_invalid body c rest : forall i xp yp xe ye,
  Forall vec_char body -> ~ vec_char c -> c <> LF ->
  vec3_loop (body ++ c :: rest) i xp yp xe ye = ([Vec3_invalid_char c], None).
Proof. clear atof.
  induction body as [|b body IH]; intros i xp yp xe ye Hok Hbad Hnl; simpl.
  - unfold vec_char in Hbad.
    rewrite decide_False by tauto. rewrite decide_False by assumption.
    destruct (n3dc_obj_is_valid_vec_char c); [tauto|]. reflexivity.
  - apply Forall_cons in Hok as [Hb Hok].
    destruct (decide (b = SP)) as [->|Hsp].
    + destruct xp, yp; simpl; apply IH; assumption.
    + rewrite decide_False by (apply vec_char_not_LF; assumption).
      destruct Hb as [?|Hv]; [contradiction|]. rewrite Hv. simpl.
      apply IH; assumption.
Qed.

Lemma vec2_loop_Some cells : forall i xp xe p xe' ye,
  vec2_loop cells i xp xe = (p, Some (xe', ye)) -> p = [] /\ (i <= ye)%nat.
Proof. clear atof.
  induction cells as [|c cells IH]; intros i xp xe p xe' ye; simpl; unfold raise, ret.
  - intros [=].
  - repeat case_decide; destruct xp; simpl;
      try destruct (n3dc_obj_is_valid_vec_char c); simpl;
      try (intros [=]; fail);
      try (intros [=]; subst; split; [reflexivity|lia]);
      intros Hrun; apply IH in Hrun; (split; [tauto|lia]).
Qed.

Lemma vec2_loop_first_newline body post : forall i xp xe p xe' ye,
  LF ∉ body ->
  vec2_loop (body ++ LF :: post) i xp xe = (p, Some (xe', ye)) ->
  ye = (i + length body)%nat.
Proof.
  induction body as [|c body IH]; intros i xp xe p xe' ye Hnl; simpl; unfold raise, ret.
  - repeat case_decide; try discriminate; try congruence.
    destruct xp; simpl; intros [=]; subst; lia.
  - apply not_elem_of_cons in Hnl as [Hc Hnl].
    repeat case_decide; try congruence; destruct xp; simpl;
      try destruct (n3dc_obj_is_valid_vec_char c); simpl;
      try (intros [=]; fail);
      intros Hrun; apply IH in Hrun; try assumption; lia.
Qed.

Lemma vec2_loop_ok body post : forall i (xp : bool) xe,
  Forall vec_char body ->
  ((if xp then 0 else 1) <= spaces body)%nat ->
  exists xe',
    vec2_loop (body ++ LF :: post) i xp xe
    = ([], Some (xe', (i + length body)%nat)).
Proof.
  induction body as [|c body IH]; intros i xp xe Hok Hsp; simpl.
  - unfold spaces in Hsp. destruct xp; simpl in *; try lia.
    exists xe. unfold ret. do 3 f_equal. lia.
  - apply Forall_cons in Hok as [Hc Hok].
    unfold spaces in Hsp. rewrite filter_cons in Hsp. fold (spaces body) in Hsp.
    destruct (decide (c = SP)) as [->|Hsp'].
    + simpl in Hsp. fold (spaces body) in Hsp.
      destruct (IH (S i) true i Hok) as (xe' & Heq); [simpl; lia|].
      rewrite Heq. exists xe'. do 3 f_equal. lia.
    + try rewrite decide_False in Hsp by congruence. fold (spaces body) in Hsp.
      rewrite decide_False by (apply vec_char_not_LF; assumption).
      destruct Hc as [?|Hv]; [contradiction|]. rewrite Hv. simpl.
      destruct (IH (S i) xp xe Hok) as (xe' & Heq); [lia|].
      rewrite Heq. exists xe'. do 3 f_equal. lia.
Qed.

Lemma vec2_loop_invalid body c rest : forall i xp xe,
  Forall vec_char body -> ~ vec_char c -> c <> LF ->
  vec2_loop (body ++ c :: rest) i xp xe = ([Vec2_invalid_char c], None).
Proof. clear atof.
  induction body as [|b body IH]; intros i xp xe Hok Hbad Hnl; simpl.
  - unfold vec_char in Hbad.
    rewrite decide_False by tauto. rewrite decide_False by assumption.
    destruct (n3dc_obj_is_valid_vec_char c); [tauto|]. reflexivity.
  - apply Forall_cons in Hok as [Hb Hok].
    destruct (decide (b = SP)) as [->|Hsp].
    + apply IH; assumption.
    + rewrite decide_False by (apply vec_char_not_LF; assumption).
      destruct Hb as [?|Hv]; [contradiction|]. rewrite Hv. simpl.
      apply IH; assumption.
Qed.

(** ** Facts about the index-group and face scanners *)

Lemma index_group_loop_Some cells : forall i f1 f2 ve te p ve' te' ne,
  index_group_loop cells i f1 f2 ve te = (p, Some (ve', te', ne)) ->
  p = [] /\ (i <= ne)%nat.
Proof. clear atof.
  induction cells as [|c cells IH]; intros i f1 f2 ve te p ve' te' ne; simpl;
    unfold raise, ret.
  - intros [=].
  - destruct (decide (c = SLASH)); [|destruct (_ && _)];
      destruct f1, f2; simpl;
      try (intros [=]; fail);
      try (intros [=]; subst; split; [reflexivity|lia]);
      intros Hrun; apply IH in Hrun; (split; [tauto|lia]).
Qed.

Lemma index_group_loop_skip field rest : forall i f1 f2 ve te,
  Forall field_char field ->
  index_group_loop (field ++ rest) i f1 f2 ve te
  = index_group_loop rest (i + length field) f1 f2 ve te.
Proof.
  induction field as [|c field IH]; intros i f1 f2 ve te Hf; simpl.
  - f_equal. lia.
  - apply Forall_cons in Hf as [(Hs & Hsp & Hnl) Hf].
    rewrite decide_False by assumption.
    rewrite !bool_decide_eq_false_2 by assumption. simpl.
    rewrite IH by assumption. f_equal. lia.
Qed.

(** The loop over a group [ a/b/c] followed by a space or a newline. *)
Lemma index_group_loop_group a b c term rest i :
  shaped_group (a, b, c) -> term = SP \/ term = LF ->
  index_group_loop (render_group (a, b, c) ++ term :: rest) i false false 0 0
  = ([], Some ((i + 1 + length a)%nat,
               (i + 2 + length a + length b)%nat,
               (i + 3 + length a + length b + length c)%nat)).
Proof.
  intros (Ha & Hb & Hc) Hterm. unfold render_group. simpl.
  rewrite <- !app_assoc. rewrite index_group_loop_skip by assumption. simpl.
  rewrite <- !app_assoc. rewrite index_group_loop_skip by assumption. simpl.
  rewrite index_group_loop_skip by assumption. simpl.
  assert (term <> SLASH) by (destruct Hterm; subst; discriminate).
  rewrite decide_False by assumption.
  assert (bool_decide (term = SP) || bool_decide (term = LF) = true) as ->.
  { destruct Hterm; subst; reflexivity. }
  simpl. unfold ret. do 3 f_equal; [f_equal|]; lia.
Qed.

Lemma convert_index_group_result file s ve te ne :
  convert_index_group file s ve te ne
  = index_group_result
      (n3dc_obj_string_section_to_uint s ve file)
      (n3dc_obj_string_section_to_uint (ve + 1) te file)
      (n3dc_obj_string_section_to_uint (te + 1) ne file) ne.
Proof.
  unfold convert_index_group, index_group_result.
  repeat case_decide; reflexivity.
Qed.

(** A successful group scan prints nothing and writes its three cells. *)
Lemma index_group_result_Some v t n e p g e' :
  index_group_result v t n e = (p, g, Some e') ->
  p = [] /\ e' = e /\ (v <> 0 /\ t <> 0 /\ n <> 0) /\
  g = {| vertex_index := Some (v - 1); texture_index := Some (t - 1);
         normal_index := Some (n - 1) |}.
Proof.
  unfold index_group_result. repeat case_decide; intros [=]; subst.
  repeat split; done.
Qed.

(** Index translation: a group that is scanned successfully holds three
    converted values that are at least [1], each stored less one; a value
    of [0] makes the scan of the group fail. *)
Lemma index_group_translation file s p cells e :
  n3dc_obj_parse_obj_index_group file s = (p, cells, Some e) ->
  exists ve te,
    let v := n3dc_obj_string_section_to_uint s ve file in
    let t := n3dc_obj_string_section_to_uint (ve + 1) te file in
    let n := n3dc_obj_string_section_to_uint (te + 1) e file in
    1 <= v /\ 1 <= t /\ 1 <= n /\
    cells = {| vertex_index := Some (v - 1); texture_index := Some (t - 1);
               normal_index := Some (n - 1) |}.
Proof.
  unfold n3dc_obj_parse_obj_index_group.
  destruct (index_group_loop _ _ _ _ _ _) as [q [[[ve te] ne]|]] eqn:Hloop;
    [|intros [=]].
  rewrite convert_index_group_result. intros H.
  apply index_group_result_Some in H as (_ & -> & (Hv & Ht & Hn) & ->).
  exists ve, te. simpl.
  unfold n3dc_obj_string_section_to_uint in *.
  pose proof (uint_range (atoi (c_str (string_section s ve file)))).
  pose proof (uint_range (atoi (c_str (string_section (ve + 1) te file)))).
  pose proof (uint_range (atoi (c_str (string_section (te + 1) ne file)))).
  repeat split; try lia.
Qed.

Lemma index_group_Some file s p g e :
  n3dc_obj_parse_obj_index_group file s = (p, g, Some e) ->
  p = [] /\ (s <= e)%nat /\ exists v, vertex_index g = Some v.
Proof. clear atof.
  unfold n3dc_obj_parse_obj_index_group.
  destruct (index_group_loop _ _ _ _ _ _) as [q [[[ve te] ne]|]] eqn:Hloop;
    [|intros [=]].
  apply index_group_loop_Some in Hloop as [-> Hle].
  rewrite convert_index_group_result. intros H.
  apply index_group_result_Some in H as (-> & -> & _ & ->).
  split; [reflexivity|]. split; [assumption|]. eexists. reflexivity.
Qed.

(** The scan of a group inside a file is determined by its fields. *)
Lemma index_group_at file pre g term post :
  file = pre ++ render_group g ++ term :: post ->
  shaped_group g -> term = SP \/ term = LF ->
  n3dc_obj_parse_obj_index_group file (length pre)
  = group_outcome g (length pre + length (render_group g)).
Proof.
  destruct g as [[a b] c]. intros -> Hg Hterm.
  unfold n3dc_obj_parse_obj_index_group.
  rewrite drop_app_length.
  rewrite index_group_loop_group by assumption.
  rewrite convert_index_group_result. unfold group_outcome.
  assert (length (render_group (a, b, c))
          = (3 + length a + length b + length c)%nat) as Hlen.
  { unfold render_group. list_len. }
  rewrite Hlen. unfold render_group.
  f_equal; [ | | | lia].
  - change (SP :: a ++ SLASH :: b ++ SLASH :: c)
      with ((SP :: a) ++ SLASH :: b ++ SLASH :: c).
    rewrite <- app_assoc. apply to_uint_infix; list_len.
  - replace (pre ++ (SP :: a ++ SLASH :: b ++ SLASH :: c) ++ term :: post)
      with ((pre ++ SP :: a ++ [SLASH]) ++ b ++ (SLASH :: c ++ term :: post)).
    + apply to_uint_infix; list_len.
    + list_eq.
  - replace (pre ++ (SP :: a ++ SLASH :: b ++ SLASH :: c) ++ term :: post)
      with ((pre ++ SP :: a ++ SLASH :: b ++ [SLASH]) ++ c ++ (term :: post)).
    + apply to_uint_infix; list_len.
    + list_eq.
Qed.

Lemma group_outcome_wf g e :
  wf_group g ->
  exists v t n,
    group_outcome g e
    = ([], {| vertex_index := Some v; texture_index := Some t;
              normal_index := Some n |}, Some e).
Proof.
  destruct g as [[a b] c]. intros (_ & Hv & Ht & Hn).
  unfold group_outcome, index_group_result.
  rewrite !decide_False by assumption. eauto.
Qed.

Lemma group_outcome_Some g e p cells e' :
  group_outcome g e = (p, cells, Some e') ->
  p = [] /\ e' = e /\ exists v, vertex_index cells = Some v.
Proof.
  destruct g as [[a b] c]. unfold group_outcome. intros H.
  apply index_group_result_Some in H as (-> & -> & _ & ->). eauto.
Qed.

Lemma face_Some file s p c1 c2 c3 le :
  n3dc_obj_parse_obj_face file s = (p, (c1, c2, c3), Some le) ->
  (s <= le)%nat /\ is_Some (vertex_index c1).
Proof. clear atof.
  unfold n3dc_obj_parse_obj_face.
  case_decide; [|intros [=]].
  destruct (n3dc_obj_parse_obj_index_group file s) as [[p1 g1] [e1|]] eqn:Hg1;
    [|intros [=]].
  case_decide; [|intros [=]].
  destruct (n3dc_obj_parse_obj_index_group file e1) as [[p2 g2] [e2|]] eqn:Hg2;
    [|intros [=]].
  case_decide; [|intros [=]].
  destruct (n3dc_obj_parse_obj_index_group file e2) as [[p3 g3] r3] eqn:Hg3.
  apply index_group_Some in Hg1 as (_ & L1 & v1 & Hv1).
  apply index_group_Some in Hg2 as (_ & L2 & _).
  case_decide; intros [=]; subst.
  split; [|exists v1; assumption].
  destruct r3 as [e3|]; [|lia].
  apply index_group_Some in Hg3 as (_ & L3 & _). lia.
Qed.

(** ** The face scanner on a line of three or more groups *)

Lemma char_at_middle l1 c l2 n : n = length l1 -> char_at (l1 ++ c :: l2) n = c.
Proof.
  intros ->. unfold char_at. rewrite list_lookup_middle by reflexivity.
  reflexivity.
Qed.

Lemma render_group_cons g : exists tail, render_group g = SP :: tail.
Proof. destruct g as [[a b] c]. eexists. reflexivity. Qed.

(** Where the three group scans of a face start and end, and what they
    return.  [term] is the character after the third group. *)
Lemma face_layout file pre g1 g2 g3 term post :
  file = pre ++ "f"%char :: render_group g1 ++ render_group g2
             ++ render_group g3 ++ term :: post ->
  shaped_group g1 -> shaped_group g2 -> shaped_group g3 ->
  term = SP \/ term = LF ->
  let e1 := (length pre + 1 + length (render_group g1))%nat in
  let e2 := (e1 + length (render_group g2))%nat in
  let e3 := (e2 + length (render_group g3))%nat in
  (length pre + 1 < length file)%nat /\
  (e1 < length file)%nat /\ (e2 < length file)%nat /\
  n3dc_obj_parse_obj_index_group file (length pre + 1) = group_outcome g1 e1 /\
  n3dc_obj_parse_obj_index_group file e1 = group_outcome g2 e2 /\
  n3dc_obj_parse_obj_index_group file e2 = group_outcome g3 e3 /\
  char_at file e2 = SP /\ char_at file e3 = term.
Proof.
  intros Hfile H1 H2 H3 Hterm e1 e2 e3.
  destruct (render_group_cons g1) as (t1 & Ht1).
  destruct (render_group_cons g2) as (t2 & Ht2).
  destruct (render_group_cons g3) as (t3 & Ht3).
  assert (length file = (e3 + 1 + length post)%nat) as Hlen.
  { subst file e3 e2 e1. list_len. }
  split; [subst e3 e2 e1; rewrite Ht1 in *; list_len|].
  split; [subst e3 e2 e1; rewrite Ht2 in *; list_len|].
  split; [subst e3 e2 e1; rewrite Ht3 in *; list_len|].
  split.
  { replace (length pre + 1)%nat with (length (pre ++ ["f"%char])) by list_len.
    replace e1 with (length (pre ++ ["f"%char]) + length (render_group g1))%nat
      by (subst e1; list_len).
    apply index_group_at with (term := SP)
      (post := t2 ++ render_group g3 ++ term :: post); auto.
    rewrite Hfile, Ht2. list_eq. }
  split.
  { replace e1 with (length (pre ++ "f"%char :: render_group g1))
      by (subst e1; list_len).
    replace e2 with (length (pre ++ "f"%char :: render_group g1)
                     + length (render_group g2))%nat
      by (subst e2 e1; list_len).
    apply index_group_at with (term := SP) (post := t3 ++ term :: post); auto.
    rewrite Hfile, Ht3. list_eq. }
  split.
  { replace e2
      with (length (pre ++ "f"%char :: render_group g1 ++ render_group g2))
      by (subst e2 e1; list_len).
    replace e3
      with (length (pre ++ "f"%char :: render_group g1 ++ render_group g2)
            + length (render_group g3))%nat
      by (subst e3 e2 e1; list_len).
    apply index_group_at with (term := term) (post := post); auto.
    rewrite Hfile. list_eq. }
  split.
  - rewrite Hfile, Ht3.
    replace (pre ++ "f"%char :: render_group g1 ++ render_group g2
                 ++ (SP :: t3) ++ term :: post)
      with ((pre ++ "f"%char :: render_group g1 ++ render_group g2)
              ++ SP :: t3 ++ term :: post) by list_eq.
    apply char_at_middle. subst e2 e1. list_len.
  - rewrite Hfile.
    replace (pre ++ "f"%char :: render_group g1 ++ render_group g2
                 ++ render_group g3 ++ term :: post)
      with ((pre ++ "f"%char :: render_group g1 ++ render_group g2
                 ++ render_group g3) ++ term :: post) by list_eq.
    apply char_at_middle. subst e3 e2 e1. list_len.
Qed.

Lemma wf_group_shaped g : wf_group g -> shaped_group g.
Proof. clear atof. destruct g as [[a b] c]. unfold wf_group. tauto. Qed.

(** Three well-formed groups and a newline: the face is accepted. *)
Lemma face_wf file pre g1 g2 g3 post :
  file = pre ++ render (Face g1 g2 g3) ++ post ->
  wf_group g1 -> wf_group g2 -> wf_group g3 ->
  exists c1 c2 c3 : index_group,
    n3dc_obj_parse_obj_face file (length pre + 1)
    = ([], (c1, c2, c3),
       Some (length pre + length (render (Face g1 g2 g3)) - 1)%nat) /\
    Forall written [c1; c2; c3].
Proof. clear atof.
  intros Hfile W1 W2 W3.
  pose proof (wf_group_shaped _ W1) as S1.
  pose proof (wf_group_shaped _ W2) as S2.
  pose proof (wf_group_shaped _ W3) as S3.
  destruct (face_layout file pre g1 g2 g3 LF post) as
    (L0 & L1 & L2 & G1 & G2 & G3 & C2 & C3); auto.
  { rewrite Hfile. simpl. list_eq. }
  unfold n3dc_obj_parse_obj_face.
  rewrite decide_True by assumption. rewrite G1.
  destruct (group_outcome_wf g1 (length pre + 1 + length (render_group g1)) W1)
    as (v1 & t1 & n1 & ->).
  rewrite decide_True by assumption. rewrite G2.
  destruct (group_outcome_wf g2
              (length pre + 1 + length (render_group g1)
               + length (render_group g2)) W2) as (v2 & t2 & n2 & ->).
  rewrite decide_True by assumption. rewrite G3.
  destruct (group_outcome_wf g3
              (length pre + 1 + length (render_group g1)
               + length (render_group g2) + length (render_group g3)) W3)
    as (v3 & t3 & n3 & ->).
  rewrite C3. rewrite decide_False by (intros Hne; apply Hne; reflexivity).
  do 3 eexists. split.
  - simpl. do 2 f_equal. list_len.
  - unfold written. repeat constructor; simpl; eauto.
Qed.

(** Three well-formed groups and then a space: the face is refused as
    non-triangulated, and nothing else is printed. *)
Lemma face_four_groups file pre g1 g2 g3 post :
  file = pre ++ "f"%char :: render_group g1 ++ render_group g2
             ++ render_group g3 ++ SP :: post ->
  wf_group g1 -> wf_group g2 -> wf_group g3 ->
  exists c1 c2 c3 : index_group,
    n3dc_obj_parse_obj_face file (length pre + 1)
    = ([Face_not_triangulated], (c1, c2, c3), None) /\
    Forall written [c1; c2; c3].
Proof. clear atof.
  intros Hfile W1 W2 W3.
  pose proof (wf_group_shaped _ W1) as S1.
  pose proof (wf_group_shaped _ W2) as S2.
  pose proof (wf_group_shaped _ W3) as S3.
  destruct (face_layout file pre g1 g2 g3 SP post) as
    (L0 & L1 & L2 & G1 & G2 & G3 & C2 & C3); auto.
  unfold n3dc_obj_parse_obj_face.
  rewrite decide_True by assumption. rewrite G1.
  destruct (group_outcome_wf g1 (length pre + 1 + length (render_group g1)) W1)
    as (v1 & t1 & n1 & ->).
  rewrite decide_True by assumption. rewrite G2.
  destruct (group_outcome_wf g2
              (length pre + 1 + length (render_group g1)
               + length (render_group g2)) W2) as (v2 & t2 & n2 & ->).
  rewrite decide_True by assumption. rewrite G3.
  destruct (group_outcome_wf g3
              (length pre + 1 + length (render_group g1)
               + length (render_group g2) + length (render_group g3)) W3)
    as (v3 & t3 & n3 & ->).
  rewrite C3. rewrite decide_True by discriminate.
  do 3 eexists. split; [reflexivity|].
  unfold written. repeat constructor; simpl; eauto.
Qed.

(** On a line of three groups the scan can only succeed at its newline, and
    then it has printed nothing. *)
Lemma face_shaped_Some file pre g1 g2 g3 post p cs le :
  file = pre ++ render (Face g1 g2 g3) ++ post ->
  shaped (Face g1 g2 g3) ->
  n3dc_obj_parse_obj_face file (length pre + 1) = (p, cs, Some le) ->
  p = [] /\ le = (length pre + length (render (Face g1 g2 g3)) - 1)%nat.
Proof.
  intros Hfile (S1 & S2 & S3).
  destruct (face_layout file pre g1 g2 g3 LF post) as
    (L0 & L1 & L2 & G1 & G2 & G3 & C2 & C3); auto.
  { rewrite Hfile. simpl. list_eq. }
  unfold n3dc_obj_parse_obj_face.
  rewrite decide_True by assumption. rewrite G1.
  destruct (group_outcome g1 _) as [[p1 k1] [x1|]] eqn:O1; [|intros [=]].
  apply group_outcome_Some in O1 as (-> & -> & Hv1).
  rewrite decide_True by assumption. rewrite G2.
  destruct (group_outcome g2 _) as [[p2 k2] [x2|]] eqn:O2; [|intros [=]].
  apply group_outcome_Some in O2 as (-> & -> & Hv2).
  rewrite decide_True by assumption. rewrite G3.
  destruct (group_outcome g3 _) as [[p3 k3] [x3|]] eqn:O3.
  - apply group_outcome_Some in O3 as (-> & -> & Hv3).
    rewrite C3. rewrite decide_False by (intros Hne; apply Hne; reflexivity).
    intros [=]; subst. split; [reflexivity|]. list_len.
  - rewrite C2. rewrite decide_True by discriminate. intros [=].
Qed.

(** When the second group of a face ends at a newline, a failure of the
    scan of the third group is not tested and the face is accepted. *)
Lemma third_group_error_is_ignored file s p1 g1 e1 p2 g2 e2 p3 g3 :
  (s < length file)%nat ->
  n3dc_obj_parse_obj_index_group file s = (p1, g1, Some e1) ->
  (e1 < length file)%nat ->
  n3dc_obj_parse_obj_index_group file e1 = (p2, g2, Some e2) ->
  (e2 < length file)%nat ->
  n3dc_obj_parse_obj_index_group file e2 = (p3, g3, None) ->
  char_at file e2 = LF ->
  n3dc_obj_parse_obj_face file s = (p1 ++ p2 ++ p3, (g1, g2, g3), Some e2).
Proof.
  intros Hs H1 He1 H2 He2 H3 Hnl. unfold n3dc_obj_parse_obj_face.
  rewrite decide_True by assumption. rewrite H1.
  rewrite decide_True by assumption. rewrite H2.
  rewrite decide_True by assumption. rewrite H3.
  rewrite decide_False by (intros Hne; apply Hne; assumption). reflexivity.
Qed.

(** ** Facts about line skipping *)

Lemma seek_loop_Ok cells : forall i p e,
  seek_loop cells i = (p, Ok e) -> p = [] /\ (i <= e)%nat.
Proof. clear atof.
  induction cells as [|c cells IH]; intros i p e; simpl.
  - intros [=].
  - case_decide.
    + intros [=]; subst. split; [reflexivity|lia].
    + intros Hrun. apply IH in Hrun. split; [tauto|lia].
Qed.

Lemma seek_loop_not_Err cells : forall i p, seek_loop cells i <> (p, Err).
Proof.
  induction cells as [|c cells IH]; intros i p; simpl.
  - intros [=].
  - case_decide; [intros [=]|apply IH].
Qed.

Lemma seek_loop_found body rest : forall i,
  LF ∉ body -> seek_loop (body ++ LF :: rest) i = ([], Ok (i + length body)%nat).
Proof.
  induction body as [|c body IH]; intros i Hnl; simpl.
  - do 2 f_equal. lia.
  - apply not_elem_of_cons in Hnl as [Hc Hnl].
    rewrite decide_False by congruence. rewrite IH by assumption.
    do 2 f_equal. lia.
Qed.

Lemma seek_loop_no_newline cells : forall i,
  LF ∉ cells -> seek_loop cells i = ([], Undef Out_of_bounds_read).
Proof.
  induction cells as [|c cells IH]; intros i Hnl; simpl.
  - reflexivity.
  - apply not_elem_of_cons in Hnl as [Hc Hnl].
    rewrite decide_False by congruence. apply IH. assumption.
Qed.

Lemma uint_add3 a : uint (uint (uint (a + 1) + 1) + 1) = uint (a + 3).
Proof.
  rewrite uint_add_l, <- Z.add_assoc, uint_add_l, <- Z.add_assoc. reflexivity.
Qed.

Lemma uint_add2 a : uint (uint (a + 1) + 1) = uint (a + 2).
Proof. rewrite uint_add_l, <- Z.add_assoc. reflexivity. Qed.

Lemma triple_next p :
  uint (uint (uint (uint (3 * p) + 1) + 1) + 1) = uint (3 * uint (p + 1)).
Proof. rewrite uint_add3, uint_add_l, uint_mul_r. f_equal. lia. Qed.

Lemma pair_next p : uint (uint (uint (2 * p) + 1) + 1) = uint (2 * uint (p + 1)).
Proof. rewrite uint_add2, uint_add_l, uint_mul_r. f_equal. lia. Qed.

Lemma triple_in_bounds max p off :
  off = uint (3 * p) -> 0 <= p <= max -> max < 2 ^ 32 -> uint (p + 1) <= max ->
  off < max * 3 /\ uint (off + 1) < max * 3 /\ uint (uint (off + 1) + 1) < max * 3.
Proof.
  intros -> Hp Hmax Hcap.
  rewrite uint_add2, !uint_add_l.
  pose proof (uint_range (3 * p)). pose proof (uint_le (3 * p)).
  pose proof (uint_range (3 * p + 1)). pose proof (uint_le (3 * p + 1)).
  pose proof (uint_range (3 * p + 2)). pose proof (uint_le (3 * p + 2)).
  destruct (decide (p + 1 < 2 ^ 32)) as [Hs|Hs].
  - rewrite uint_small in Hcap by lia. lia.
  - lia.
Qed.

Lemma pair_in_bounds max p off :
  off = uint (2 * p) -> 0 <= p <= max -> max < 2 ^ 32 -> uint (p + 1) <= max ->
  off < max * 2 /\ uint (off + 1) < max * 2.
Proof.
  intros -> Hp Hmax Hcap.
  rewrite !uint_add_l.
  pose proof (uint_range (2 * p)). pose proof (uint_le (2 * p)).
  pose proof (uint_range (2 * p + 1)). pose proof (uint_le (2 * p + 1)).
  destruct (decide (p + 1 < 2 ^ 32)) as [Hs|Hs].
  - rewrite uint_small in Hcap by lia. lia.
  - lia.
Qed.

Lemma parse_vec3_Some file s p x y z le :
  n3dc_obj_parse_obj_vec3 file s = (p, Some (x, y, z, le)) ->
  p = [] /\ (s <= le)%nat.
Proof.
  unfold n3dc_obj_parse_obj_vec3.
  destruct (vec3_loop _ _ _ _ _ _) as [q [[[xe ye] ze]|]] eqn:Hloop;
    intros [=]; subst.
  apply vec3_loop_Some in Hloop. assumption.
Qed.

Lemma parse_vec2_Some file s p x y le :
  n3dc_obj_parse_obj_vec2 file s = (p, Some (x, y, le)) ->
  p = [] /\ (s <= le)%nat.
Proof.
  unfold n3dc_obj_parse_obj_vec2.
  destruct (vec2_loop _ _ _ _) as [q [[xe ye]|]] eqn:Hloop; intros [=]; subst.
  apply vec2_loop_Some in Hloop. assumption.
Qed.

Lemma seek_Ok file s p le :
  n3dc_obj_seek_end_of_line file s = (p, Ok le) -> p = [] /\ (s <= le)%nat.
Proof. clear atof.
  unfold n3dc_obj_seek_end_of_line. case_decide; [|intros [=]].
  apply seek_loop_Ok.
Qed.

Lemma store3_opt_in_bounds {A} (arr : array A) o1 v1 o2 v2 o3 v3 :
  o1 < Z.of_nat (length arr) ->
  o2 < Z.of_nat (length arr) ->
  o3 < Z.of_nat (length arr) ->
  exists arr', store3 arr o1 v1 o2 v2 o3 v3 = Some arr'.
Proof.
  intros H1 H2 H3. unfold store3.
  assert (forall (a : array A) o v, o < Z.of_nat (length a) ->
            exists a', store_opt a o v = Some a' /\ length a' = length a)
    as Hstep.
  { intros a o [x|] Ho; simpl; [apply store_in_bounds; assumption|eauto]. }
  destruct (Hstep arr o1 v1 H1) as (a1 & -> & L1). simpl.
  rewrite <- L1 in H2, H3.
  destruct (Hstep a1 o2 v2 H2) as (a2 & -> & L2). simpl.
  rewrite <- L2 in H3.
  destruct (Hstep a2 o3 v3 H3) as (a3 & -> & L3). eauto.
Qed.

(** ** The scanners on one line of the file *)

Lemma drop_prefix (file pre rest : list ascii) n :
  file = pre ++ rest -> n = length pre -> drop n file = rest.
Proof. intros -> ->. apply drop_app_length. Qed.

Lemma parse_vec3_line file pre body post p x y z le :
  file = pre ++ body ++ LF :: post -> LF ∉ body ->
  n3dc_obj_parse_obj_vec3 file (length pre) = (p, Some (x, y, z, le)) ->
  p = [] /\ le = (length pre + length body)%nat.
Proof.
  intros Hfile Hnl. unfold n3dc_obj_parse_obj_vec3.
  rewrite (drop_prefix file pre (body ++ LF :: post)) by done.
  destruct (vec3_loop _ _ _ _ _ _) as [q [[[xe ye] ze]|]] eqn:Hloop;
    intros [=]; subst q le.
  split.
  - apply vec3_loop_Some in Hloop. tauto.
  - eapply vec3_loop_first_newline; eassumption.
Qed.

Lemma parse_vec3_line_ok file pre body post :
  file = pre ++ body ++ LF :: post ->
  Forall vec_char body -> (2 <= spaces body)%nat ->
  exists x y z,
    n3dc_obj_parse_obj_vec3 file (length pre)
    = ([], Some (x, y, z, (length pre + length body)%nat)).
Proof.
  intros Hfile Hok Hsp. unfold n3dc_obj_parse_obj_vec3.
  rewrite (drop_prefix file pre (body ++ LF :: post)) by done.
  destruct (vec3_loop_ok body post (length pre) false false 0%nat 0%nat Hok Hsp)
    as (xe & ye & ->).
  eauto.
Qed.

Lemma parse_vec3_line_invalid file pre body c rest :
  file = pre ++ body ++ c :: rest ->
  Forall vec_char body -> ~ vec_char c -> c <> LF ->
  n3dc_obj_parse_obj_vec3 file (length pre) = ([Vec3_invalid_char c], None).
Proof.
  intros Hfile Hok Hbad Hnl. unfold n3dc_obj_parse_obj_vec3.
  rewrite (drop_prefix file pre (body ++ c :: rest)) by done.
  rewrite vec3_loop_invalid by assumption. reflexivity.
Qed.

Lemma parse_vec2_line file pre body post p x y le :
  file = pre ++ body ++ LF :: post -> LF ∉ body ->
  n3dc_obj_parse_obj_vec2 file (length pre) = (p, Some (x, y, le)) ->
  p = [] /\ le = (length pre + length body)%nat.
Proof.
  intros Hfile Hnl. unfold n3dc_obj_parse_obj_vec2.
  rewrite (drop_prefix file pre (body ++ LF :: post)) by done.
  destruct (vec2_loop _ _ _ _) as [q [[xe ye]|]] eqn:Hloop;
    intros [=]; subst q le.
  split.
  - apply vec2_loop_Some in Hloop. tauto.
  - eapply vec2_loop_first_newline; eassumption.
Qed.

Lemma parse_vec2_line_ok file pre body post :
  file = pre ++ body ++ LF :: post ->
  Forall vec_char body -> (1 <= spaces body)%nat ->
  exists x y,
    n3dc_obj_parse_obj_vec2 file (length pre)
    = ([], Some (x, y, (length pre + length body)%nat)).
Proof.
  intros Hfile Hok Hsp. unfold n3dc_obj_parse_obj_vec2.
  rewrite (drop_prefix file pre (body ++ LF :: post)) by done.
  destruct (vec2_loop_ok body post (length pre) false 0%nat Hok Hsp)
    as (xe & ->).
  eauto.
Qed.

Lemma parse_vec2_line_invalid file pre body c rest :
  file = pre ++ body ++ c :: rest ->
  Forall vec_char body -> ~ vec_char c -> c <> LF ->
  n3dc_obj_parse_obj_vec2 file (length pre) = ([Vec2_invalid_char c], None).
Proof.
  intros Hfile Hok Hbad Hnl. unfold n3dc_obj_parse_obj_vec2.
  rewrite (drop_prefix file pre (body ++ c :: rest)) by done.
  rewrite vec2_loop_invalid by assumption. reflexivity.
Qed.

Lemma seek_line file pre t post :
  file = pre ++ t ++ LF :: post -> LF ∉ t ->
  n3dc_obj_seek_end_of_line file (length pre)
  = ([], Ok (length pre + length t)%nat).
Proof.
  intros -> Hnl. unfold n3dc_obj_seek_end_of_line.
  rewrite decide_True by list_len.
  rewrite <- app_assoc, drop_app_length.
  rewrite <- app_assoc. simpl. apply seek_loop_found. assumption.
Qed.

(** The counters after one line, once the scan of the line is known. *)
Ltac counters :=
  unfold count; simpl length;
  change (Z.of_nat 1) with 1; change (Z.of_nat 0) with 0;
  rewrite ?Z.add_0_r, ?Z.mul_0_r, ?Z.mul_1_r;
  split;
    [|split;
       [assumption
       |repeat split; try assumption;
        try (rewrite uint_small by lia; assumption); try lia]].

Lemma count_cons kind l ls : count kind (l :: ls) = count kind [l] + count kind ls.
Proof.
  unfold count. rewrite !filter_cons, filter_nil.
  destruct (decide (kind l)); simpl; lia.
Qed.

Lemma count_range kind ls : 0 <= count kind ls.
Proof. unfold count. lia. Qed.

Lemma wf_shaped l : wf l -> shaped l.
Proof. clear atof.
  destruct l as [body|body|body|g1 g2 g3|text]; simpl; try tauto.
  - intros [Hok _] Hin.
    rewrite Forall_forall in Hok. apply Hok in Hin.
    apply vec_char_not_LF in Hin. congruence.
  - intros [Hok _] Hin.
    rewrite Forall_forall in Hok. apply Hok in Hin.
    apply vec_char_not_LF in Hin. congruence.
  - intros [Hok _] Hin.
    rewrite Forall_forall in Hok. apply Hok in Hin.
    apply vec_char_not_LF in Hin. congruence.
  - intros (W1 & W2 & W3). auto using wf_group_shaped.
Qed.

Lemma render_length l : shaped l -> (2 <= length (render l))%nat.
Proof.
  destruct l as [body|body|body|g1 g2 g3|text]; simpl; intros Hs.
  - list_len.
  - list_len.
  - list_len.
  - destruct (render_group_cons g1) as [t ->]. list_len.
  - destruct Hs as (Hne & _). destruct text; [contradiction|]. list_len.
Qed.

Lemma render_all_cons l ls : render_all (l :: ls) = render l ++ render_all ls.
Proof. reflexivity. Qed.

(** ** The resolver pass *)

Lemma resolve_corner_lengths st i v t n :
  resolve_corner st i = Ok (v, t, n) ->
  length v = 3%nat /\ length t = 2%nat /\ length n = 3%nat.
Proof.
  unfold resolve_corner, bind.
  repeat first [case_decide | case_match]; intros [=]; subst; done.
Qed.

Lemma resolve_loop_lengths st count : forall i vs ts ns,
  resolve_loop st count i = Ok (vs, ts, ns) ->
  length vs = (3 * count)%nat /\ length ts = (2 * count)%nat
  /\ length ns = (3 * count)%nat.
Proof.
  induction count as [|count IH]; intros i vs ts ns; simpl.
  - intros [=]; subst. done.
  - unfold bind.
    destruct (resolve_corner st i) as [[[v t] n]| |] eqn:Hc; try discriminate.
    destruct (resolve_loop st count (i + 1)) as [[[vs' ts'] ns']| |] eqn:Hl;
      try discriminate.
    intros [=]; subst.
    apply resolve_corner_lengths in Hc as (? & ? & ?).
    apply IH in Hl as (? & ? & ?).
    rewrite !length_app. lia.
Qed.

Lemma resolve_Ok st obj :
  resolve st = Ok obj ->
  num_vertices obj = parsed_indices st /\
  length (vertices obj) = (3 * Z.to_nat (parsed_indices st))%nat /\
  length (normals obj) = (3 * Z.to_nat (parsed_indices st))%nat /\
  length (texture_coords obj) = (2 * Z.to_nat (parsed_indices st))%nat.
Proof.
  unfold resolve, bind.
  destruct (resolve_loop st _ 0) as [[[vs ts] ns]| |] eqn:Hl; try discriminate.
  intros [= <-]. simpl. apply resolve_loop_lengths in Hl. tauto.
Qed.

(** ** Files without records *)

Lemma no_record_from_at cells : forall b i,
  no_record_from b cells = true ->
  (i < length cells)%nat ->
  (i = 0%nat /\ b = true) \/ (0 < i /\ cells !! (i - 1)%nat = Some LF)%nat ->
  is_record_tag (char_at cells i) (char_at cells (i + 1)) = false.
Proof.
  induction cells as [|c rest IH]; intros b i Hno Hi Hstart; simpl in *.
  - lia.
  - apply andb_prop in Hno as [Hc Hrest].
    destruct i as [|i].
    + destruct Hstart as [[_ ->]|[Hpos _]]; [|lia].
      apply negb_true_iff in Hc. exact Hc.
    + destruct Hstart as [[Hz _]|[_ Hprev]]; [discriminate|].
      replace (S i + 1)%nat with (S (i + 1)) by lia.
      change (char_at (c :: rest) (S i)) with (char_at rest i).
      change (char_at (c :: rest) (S (i + 1))) with (char_at rest (i + 1)).
      apply (IH (bool_decide (c = LF))); [assumption|lia|].
      simpl in Hprev. rewrite Nat.sub_0_r in Hprev.
      destruct i as [|i].
      * left. split; [reflexivity|].
        simpl in Hprev. injection Hprev as ->. reflexivity.
      * right. split; [lia|]. simpl in *. rewrite Nat.sub_0_r. exact Hprev.
Qed.

Lemma seek_loop_finds cells : forall i,
  LF ∈ cells ->
  exists le, seek_loop cells i = ([], Ok le) /\ (i <= le)%nat /\
             cells !! (le - i)%nat = Some LF.
Proof.
  induction cells as [|c rest IH]; intros i Hin.
  - apply elem_of_nil in Hin. contradiction.
  - simpl. destruct (decide (c = LF)) as [->|Hne].
    + exists i. rewrite Nat.sub_diag. auto.
    + apply elem_of_cons in Hin as [Heq|Hin]; [congruence|].
      destruct (IH (S i) Hin) as (le & Hrun & Hle & Hat).
      exists le. split; [assumption|]. split; [lia|].
      replace (le - i)%nat with (S (le - S i)) by lia. exact Hat.
Qed.

(** In a buffer that ends with a newline the seek step stays inside it. *)
Lemma seek_terminated file s :
  last file = Some LF -> (s < length file)%nat ->
  exists le, n3dc_obj_seek_end_of_line file s = ([], Ok le) /\
             (s <= le)%nat /\ file !! le = Some LF.
Proof.
  intros Hlast Hs. unfold n3dc_obj_seek_end_of_line.
  rewrite decide_True by assumption.
  rewrite last_lookup in Hlast.
  destruct (seek_loop_finds (drop s (file ++ [NUL])) s) as (le & Hrun & Hle & Hat).
  { apply list_elem_of_lookup. exists (pred (length file) - s)%nat.
    rewrite lookup_drop, lookup_app_l by lia.
    replace (s + (pred (length file) - s))%nat with (pred (length file)) by lia.
    assumption. }
  exists le. split; [assumption|]. split; [assumption|].
  rewrite lookup_drop in Hat.
  replace (s + (le - s))%nat with le in Hat by lia.
  destruct (decide (le < length file)%nat) as [Hlt|Hge].
  - rewrite lookup_app_l in Hat by assumption. assumption.
  - rewrite lookup_app_r in Hat by lia.
    destruct (le - length file)%nat; simpl in Hat; discriminate.
Qed.

(** When no newline is left the seek step does not report a truncation: it
    runs past the terminator of the buffer. *)
Lemma seek_without_newline file s :
  (s < length file)%nat -> LF ∉ drop s file ->
  n3dc_obj_seek_end_of_line file s = ([], Undef Out_of_bounds_read).
Proof.
  intros Hs Hnl. unfold n3dc_obj_seek_end_of_line.
  rewrite decide_True by assumption.
  apply seek_loop_no_newline.
  rewrite drop_app_le by lia.
  rewrite elem_of_app, list_elem_of_singleton. intros [?|[=]]. contradiction.
Qed.

(** ** Fields of the vector records *)

Lemma to_float_infix pre field post s e :
  s = length pre -> e = (length pre + length field)%nat ->
  n3dc_obj_string_section_to_float s e (pre ++ field ++ post)
  = field_float field.
Proof.
  intros -> ->. unfold n3dc_obj_string_section_to_float, field_float.
  rewrite string_section_infix. reflexivity.
Qed.

Lemma number_char_not_SP c : number_char c -> c <> SP.
Proof. clear atof atoi. intros H ->. vm_compute in H. discriminate. Qed.

Lemma number_char_not_LF c : number_char c -> c <> LF.
Proof. clear atof atoi. intros H ->. vm_compute in H. discriminate. Qed.

Lemma vec_char_without_space l :
  Forall vec_char l -> spaces l = 0%nat -> Forall number_char l.
Proof. clear atof atoi.
  induction l as [|c l IH]; intros Hok Hsp; [constructor|].
  apply Forall_cons in Hok as [Hc Hok].
  unfold spaces in Hsp. rewrite filter_cons in Hsp.
  destruct (decide (c = SP)) as [->|Hne]; [simpl in Hsp; lia|].
  fold (spaces l) in Hsp. constructor; [|apply IH; assumption].
  destruct Hc as [?|Hv]; [contradiction|exact Hv].
Qed.

(** A body with a space splits at its first space. *)
Lemma first_space body :
  Forall vec_char body -> (1 <= spaces body)%nat ->
  exists a rest,
    body = a ++ SP :: rest /\ Forall number_char a /\ Forall vec_char rest /\
    spaces body = S (spaces rest).
Proof. clear atof atoi.
  induction body as [|c body IH]; intros Hok Hsp; [unfold spaces in Hsp; simpl in Hsp; lia|].
  apply Forall_cons in Hok as [Hc Hok].
  destruct (decide (c = SP)) as [->|Hne].
  - exists [], body.
    split; [reflexivity|]. split; [constructor|]. split; [assumption|].
    unfold spaces. rewrite filter_cons. rewrite decide_True by reflexivity.
    reflexivity.
  - assert (spaces (c :: body) = spaces body) as Heq.
    { unfold spaces. rewrite filter_cons. rewrite decide_False by assumption.
      reflexivity. }
    rewrite Heq in Hsp. destruct (IH Hok Hsp) as (a & rest & -> & Ha & Hr & Hn).
    exists (c :: a), rest.
    split; [reflexivity|]. split; [|split; [assumption|]].
    + constructor; [|assumption]. destruct Hc as [?|Hv]; [contradiction|exact Hv].
    + rewrite Heq. exact Hn.
Qed.

(** A body with a space splits at its last space. *)
Lemma last_space body :
  Forall vec_char body -> (1 <= spaces body)%nat ->
  exists a b, body = a ++ SP :: b /\ Forall vec_char a /\ Forall number_char b.
Proof. clear atof atoi.
  induction body as [|c body IH]; intros Hok Hsp; [unfold spaces in Hsp; simpl in Hsp; lia|].
  apply Forall_cons in Hok as [Hc Hok].
  destruct (decide (1 <= spaces body)%nat) as [Hmore|Hnone].
  - destruct (IH Hok Hmore) as (a & b & -> & Ha & Hb).
    exists (c :: a), b.
    split; [reflexivity|]. split; [constructor|]; assumption.
  - destruct (decide (c = SP)) as [->|Hne].
    + exists [], body. split; [reflexivity|]. split; [constructor|].
      apply vec_char_without_space; [assumption|lia].
    + unfold spaces in Hsp. rewrite filter_cons in Hsp.
      rewrite decide_False in Hsp by assumption. fold (spaces body) in Hsp. lia.
Qed.

Lemma vec3_loop_number field rest : forall i xp yp xe ye,
  Forall number_char field ->
  vec3_loop (field ++ rest) i xp yp xe ye
  = vec3_loop rest (i + length field) xp yp xe ye.
Proof. clear atof atoi.
  induction field as [|c field IH]; intros i xp yp xe ye Hf; simpl.
  - f_equal. lia.
  - apply Forall_cons in Hf as [Hc Hf].
    rewrite decide_False by (apply number_char_not_SP; assumption).
    rewrite decide_False by (apply number_char_not_LF; assumption).
    unfold number_char in Hc. rewrite Hc. simpl.
    rewrite IH by assumption. f_equal. lia.
Qed.

Lemma vec3_loop_tail body post : forall i xe ye,
  Forall vec_char body ->
  vec3_loop (body ++ LF :: post) i true true xe ye
  = ([], Some (xe, ye, (i + length body)%nat)).
Proof. clear atof atoi.
  induction body as [|c body IH]; intros i xe ye Hok; simpl.
  - unfold ret. do 3 f_equal. lia.
  - apply Forall_cons in Hok as [Hc Hok].
    destruct (decide (c = SP)) as [->|Hne].
    + simpl. rewrite IH by assumption. do 3 f_equal. lia.
    + rewrite decide_False by (apply vec_char_not_LF; assumption).
      destruct Hc as [?|Hv]; [contradiction|]. rewrite Hv. simpl.
      rewrite IH by assumption. do 3 f_equal. lia.
Qed.

Lemma vec2_loop_number field rest : forall i xp xe,
  Forall number_char field ->
  vec2_loop (field ++ rest) i xp xe = vec2_loop rest (i + length field) xp xe.
Proof. clear atof atoi.
  induction field as [|c field IH]; intros i xp xe Hf; simpl.
  - f_equal. lia.
  - apply Forall_cons in Hf as [Hc Hf].
    rewrite decide_False by (apply number_char_not_SP; assumption).
    rewrite decide_False by (apply number_char_not_LF; assumption).
    unfold number_char in Hc. rewrite Hc. simpl.
    rewrite IH by assumption. f_equal. lia.
Qed.

Lemma vec2_loop_last_space a b post : forall i xp xe,
  Forall vec_char a -> Forall number_char b ->
  vec2_loop (a ++ SP :: b ++ LF :: post) i xp xe
  = ([], Some ((i + length a)%nat, (i + length a + 1 + length b)%nat)).
Proof. clear atof atoi.
  induction a as [|c a IH]; intros i xp xe Ha Hb; simpl.
  - rewrite vec2_loop_number by assumption. simpl.
    unfold ret. do 3 f_equal; lia.
  - apply Forall_cons in Ha as [Hc Ha].
    destruct (decide (c = SP)) as [->|Hne].
    + rewrite IH by assumption. do 3 f_equal; lia.
    + rewrite decide_False by (apply vec_char_not_LF; assumption).
      destruct Hc as [?|Hv]; [contradiction|]. rewrite Hv. simpl.
      rewrite IH by assumption. do 3 f_equal; lia.
Qed.

Lemma parse_vec3_fields pre a b c post :
  Forall number_char a -> Forall number_char b -> Forall vec_char c ->
  n3dc_obj_parse_obj_vec3 (pre ++ a ++ SP :: b ++ SP :: c ++ LF :: post)
    (length pre)
  = ([], Some (field_float a, field_float (SP :: b), field_float (SP :: c),
               (length pre + length a + length b + length c + 2)%nat)).
Proof.
  intros Ha Hb Hc. unfold n3dc_obj_parse_obj_vec3.
  rewrite drop_app_length.
  rewrite vec3_loop_number by assumption. simpl.
  rewrite vec3_loop_number by assumption. simpl.
  rewrite vec3_loop_tail by assumption.
  f_equal. f_equal. f_equal; [f_equal; [f_equal|]|lia].
  - apply to_float_infix; reflexivity.
  - replace (pre ++ a ++ SP :: b ++ SP :: c ++ LF :: post)
      with ((pre ++ a) ++ (SP :: b) ++ SP :: c ++ LF :: post) by list_eq.
    apply to_float_infix; list_len.
  - replace (pre ++ a ++ SP :: b ++ SP :: c ++ LF :: post)
      with ((pre ++ a ++ SP :: b) ++ (SP :: c) ++ LF :: post) by list_eq.
    apply to_float_infix; list_len.
Qed.

Lemma parse_vec2_fields pre a b post :
  Forall vec_char a -> Forall number_char b ->
  n3dc_obj_parse_obj_vec2 (pre ++ a ++ SP :: b ++ LF :: post) (length pre)
  = ([], Some (field_float a, field_float (SP :: b),
               (length pre + length a + length b + 1)%nat)).
Proof.
  intros Ha Hb. unfold n3dc_obj_parse_obj_vec2.
  rewrite drop_app_length.
  rewrite vec2_loop_last_space by assumption.
  f_equal. f_equal. f_equal; [f_equal|lia].
  - apply to_float_infix; reflexivity.
  - replace (pre ++ a ++ SP :: b ++ LF :: post)
      with ((pre ++ a) ++ (SP :: b) ++ LF :: post) by list_eq.
    apply to_float_infix; list_len.
Qed.

Lemma parse_vec3_one_field pre a post :
  Forall number_char a ->
  n3dc_obj_parse_obj_vec3 (pre ++ a ++ LF :: post) (length pre)
  = ([Vec3_x_missing], None).
Proof. clear atoi.
  intros Ha. unfold n3dc_obj_parse_obj_vec3. rewrite drop_app_length.
  rewrite vec3_loop_number by assumption. reflexivity.
Qed.

Lemma parse_vec3_two_fields pre a b post :
  Forall number_char a -> Forall number_char b ->
  n3dc_obj_parse_obj_vec3 (pre ++ a ++ SP :: b ++ LF :: post) (length pre)
  = ([Vec3_y_missing], None).
Proof. clear atoi.
  intros Ha Hb. unfold n3dc_obj_parse_obj_vec3. rewrite drop_app_length.
  rewrite vec3_loop_number by assumption. simpl.
  rewrite vec3_loop_number by assumption. reflexivity.
Qed.

Lemma parse_vec2_one_field pre a post :
  Forall number_char a ->
  n3dc_obj_parse_obj_vec2 (pre ++ a ++ LF :: post) (length pre)
  = ([Vec2_x_missing], None).
Proof. clear atoi.
  intros Ha. unfold n3dc_obj_parse_obj_vec2. rewrite drop_app_length.
  rewrite vec2_loop_number by assumption. reflexivity.
Qed.

(** A body that is not made of vector characters splits at the first
    character that is not one. *)
Lemma first_invalid body :
  ~ Forall vec_char body ->
  exists good c rest,
    body = good ++ c :: rest /\ Forall vec_char good /\ ~ vec_char c.
Proof. clear atof atoi.
  induction body as [|c body IH]; intros Hbad; [destruct Hbad; constructor|].
  destruct (decide (vec_char c)) as [Hc|Hc].
  - destruct IH as (good & d & rest & -> & Hgood & Hd).
    { intros Hall. apply Hbad. constructor; assumption. }
    exists (c :: good), d, rest.
    split; [reflexivity|]. split; [constructor|]; assumption.
  - exists [], c, body. split; [reflexivity|]. split; [constructor|assumption].
Qed.

(** A body of vector characters with two spaces has the three fields the
    scanner sees. *)
Lemma vec3_body_fields body :
  Forall vec_char body -> (2 <= spaces body)%nat ->
  exists a b c,
    body = a ++ SP :: b ++ SP :: c /\
    Forall number_char a /\ Forall number_char b /\ Forall vec_char c.
Proof. clear atof atoi.
  intros Hok Hsp.
  destruct (first_space body Hok) as (a & r1 & -> & Ha & Hr1 & Hn1); [lia|].
  destruct (first_space r1 Hr1) as (b & c & -> & Hb & Hc & Hn2); [lia|].
  exists a, b, c. split; [reflexivity|]. split; [|split]; assumption.
Qed.

Lemma parse_vec3_too_few pre body post :
  Forall vec_char body -> (spaces body < 2)%nat ->
  exists d, n3dc_obj_parse_obj_vec3 (pre ++ body ++ LF :: post) (length pre)
            = ([d], None).
Proof. clear atoi.
  intros Hok Hsp. destruct (decide (spaces body = 0)%nat) as [H0|H0].
  - eexists. apply parse_vec3_one_field.
    apply vec_char_without_space; assumption.
  - destruct (first_space body Hok) as (a & r & -> & Ha & Hr & Hn); [lia|].
    eexists. rewrite <- app_assoc. simpl.
    apply parse_vec3_two_fields; [assumption|].
    apply vec_char_without_space; [assumption|lia].
Qed.

Lemma parse_vec2_too_few pre body post :
  Forall vec_char body -> (spaces body < 1)%nat ->
  n3dc_obj_parse_obj_vec2 (pre ++ body ++ LF :: post) (length pre)
  = ([Vec2_x_missing], None).
Proof. clear atoi.
  intros Hok Hsp. apply parse_vec2_one_field.
  apply vec_char_without_space; [assumption|lia].
Qed.

(** ** Fields of the index groups *)

(** Before the first ['/'] nothing ends a group, a space and a newline
    included. *)
Lemma index_group_loop_to_slash w rest : forall i f2 ve te,
  SLASH ∉ w ->
  index_group_loop (w ++ rest) i false f2 ve te
  = index_group_loop rest (i + length w) false f2 ve te.
Proof. clear atof atoi.
  induction w as [|c w IH]; intros i f2 ve te Hw; simpl.
  - f_equal. lia.
  - apply not_elem_of_cons in Hw as [Hc Hw].
    rewrite decide_False by congruence. rewrite andb_false_r.
    rewrite IH by assumption. f_equal. lia.
Qed.

Lemma index_group_without_slash file s :
  SLASH ∉ drop s file ->
  n3dc_obj_parse_obj_index_group file s = ([Group_end_of_file], untouched, None).
Proof. clear atof.
  intros Hw. unfold n3dc_obj_parse_obj_index_group.
  rewrite <- (app_nil_r (drop s file)).
  rewrite index_group_loop_to_slash by assumption. reflexivity.
Qed.

Lemma index_group_fields file pre w b c term post :
  file = pre ++ w ++ SLASH :: b ++ SLASH :: c ++ term :: post ->
  SLASH ∉ w -> Forall field_char b -> Forall field_char c ->
  term = SP \/ term = LF ->
  n3dc_obj_parse_obj_index_group file (length pre)
  = index_group_result (field_value w) (field_value b) (field_value c)
      (length pre + length w + length b + length c + 2)%nat.
Proof.
  intros -> Hw Hb Hc Hterm. unfold n3dc_obj_parse_obj_index_group.
  rewrite drop_app_length.
  rewrite index_group_loop_to_slash by assumption. simpl.
  rewrite index_group_loop_skip by assumption. simpl.
  rewrite index_group_loop_skip by assumption. simpl.
  assert (term <> SLASH) by (destruct Hterm; subst; discriminate).
  rewrite decide_False by assumption.
  assert (bool_decide (term = SP) || bool_decide (term = LF) = true) as ->.
  { destruct Hterm; subst; reflexivity. }
  simpl. rewrite convert_index_group_result.
  f_equal; [ | | | lia].
  - apply to_uint_infix; reflexivity.
  - replace (pre ++ w ++ SLASH :: b ++ SLASH :: c ++ term :: post)
      with ((pre ++ w ++ [SLASH]) ++ b ++ (SLASH :: c ++ term :: post))
      by list_eq.
    apply to_uint_infix; list_len.
  - replace (pre ++ w ++ SLASH :: b ++ SLASH :: c ++ term :: post)
      with ((pre ++ w ++ SLASH :: b ++ [SLASH]) ++ c ++ (term :: post))
      by list_eq.
    apply to_uint_infix; list_len.
Qed.

(** A group with a single ['/'] before its end. *)
Lemma index_group_two_fields file pre w b term post :
  file = pre ++ w ++ SLASH :: b ++ term :: post ->
  SLASH ∉ w -> Forall field_char b -> term = SP \/ term = LF ->
  n3dc_obj_parse_obj_index_group file (length pre)
  = ([Group_texture_missing], untouched, None).
Proof. clear atof.
  intros -> Hw Hb Hterm. unfold n3dc_obj_parse_obj_index_group.
  rewrite drop_app_length.
  rewrite index_group_loop_to_slash by assumption. simpl.
  rewrite index_group_loop_skip by assumption. simpl.
  assert (term <> SLASH) by (destruct Hterm; subst; discriminate).
  rewrite decide_False by assumption.
  assert (bool_decide (term = SP) || bool_decide (term = LF) = true) as ->.
  { destruct Hterm; subst; reflexivity. }
  reflexivity.
Qed.

Lemma field_value_nil : field_value [] = uint (atoi []).
Proof. clear atof. reflexivity. Qed.

(** A group that the file ends in. *)
Lemma index_group_unterminated file pre g :
  file = pre ++ render_group g -> shaped_group g ->
  n3dc_obj_parse_obj_index_group file (length pre)
  = ([Group_end_of_file], untouched, None).
Proof. clear atof.
  destruct g as [[a b] c]. intros -> (Ha & Hb & Hc).
  unfold n3dc_obj_parse_obj_index_group. rewrite drop_app_length.
  unfold render_group. simpl.
  rewrite index_group_loop_skip by assumption. simpl.
  rewrite index_group_loop_skip by assumption. simpl.
  rewrite <- (app_nil_r c).
  rewrite index_group_loop_skip by assumption. reflexivity.
Qed.

(** What a successful run of the group loop returns. *)
Lemma index_group_loop_post cells : forall i f1 f2 ve te p ve' te' ne,
  index_group_loop cells i f1 f2 ve te = (p, Some (ve', te', ne)) ->
  (i <= ne < i + length cells)%nat /\
  (cells !! (ne - i)%nat = Some SP \/ cells !! (ne - i)%nat = Some LF) /\
  (if f1 then ve' = ve
   else (i <= ve' < ne)%nat /\ cells !! (ve' - i)%nat = Some SLASH) /\
  (if f2 then te' = te
   else (i <= te' < ne)%nat /\ cells !! (te' - i)%nat = Some SLASH) /\
  (f1 = false -> f2 = false -> (ve' < te')%nat).
Proof. clear atof atoi.
  assert (forall (l : list ascii) c i n, (S i <= n)%nat ->
            (c :: l) !! (n - i)%nat = l !! (n - S i)%nat) as Hshift.
  { intros l c i n Hle. replace (n - i)%nat with (S (n - S i)) by lia.
    reflexivity. }
  induction cells as [|c cells IH]; intros i f1 f2 ve te p ve' te' ne; simpl;
    unfold raise, ret; [intros [=]|].
  destruct (decide (c = SLASH)) as [->|Hns].
  - destruct f1; simpl; [destruct f2; simpl|].
    + intros Hrun. apply IH in Hrun as (Hr & Hterm & Hv & Ht & _).
      rewrite !Hshift by lia. simpl in *.
      repeat split; try lia; try assumption; try (intros; discriminate).
    + intros Hrun. apply IH in Hrun as (Hr & Hterm & Hv & Ht & _).
      simpl in *. subst. rewrite !Hshift by lia.
      replace (i - i)%nat with 0%nat by lia.
      repeat split; try lia; try assumption; try reflexivity;
        try (intros; discriminate).
    + intros Hrun. apply IH in Hrun as (Hr & Hterm & Hv & Ht & _).
      simpl in *. subst. rewrite !Hshift by lia.
      replace (i - i)%nat with 0%nat by lia.
      destruct f2.
      * repeat split; try lia; try assumption; try reflexivity;
          try (intros; discriminate).
      * destruct Ht as [Ht1 Ht2]. rewrite Hshift by lia.
        repeat split; try lia; try assumption; try reflexivity.
  - destruct ((bool_decide (c = SP) || bool_decide (c = LF)) && f1) eqn:Hend.
    + apply andb_true_iff in Hend as [Hc ->].
      destruct f2; simpl; [|intros [=]]. intros [=]; subst.
      replace (ne - ne)%nat with 0%nat by lia. simpl.
      apply orb_true_iff in Hc as [Hc|Hc]; apply bool_decide_eq_true in Hc;
        subst; repeat split; try lia; auto; try (intros; discriminate).
    + intros Hrun. apply IH in Hrun as (Hr & Hterm & Hv & Ht & Hvt).
      rewrite !Hshift by lia.
      split; [lia|]. split; [assumption|].
      split; [destruct f1; [assumption|]
             |split; [destruct f2; [assumption|]|assumption]].
      * destruct Hv as [Hv1 Hv2]. rewrite Hshift by lia. split; [lia|assumption].
      * destruct Ht as [Ht1 Ht2]. rewrite Hshift by lia. split; [lia|assumption].
Qed.

Lemma index_group_post file s p cells e :
  n3dc_obj_parse_obj_index_group file s = (p, cells, Some e) ->
  p = [] /\ (s < e < length file)%nat /\
  (char_at file e = SP \/ char_at file e = LF) /\
  exists ve te,
    (s <= ve < te)%nat /\ (te < e)%nat /\
    char_at file ve = SLASH /\ char_at file te = SLASH /\
    let v := n3dc_obj_string_section_to_uint s ve file in
    let t := n3dc_obj_string_section_to_uint (ve + 1) te file in
    let n := n3dc_obj_string_section_to_uint (te + 1) e file in
    1 <= v < 2 ^ 32 /\ 1 <= t < 2 ^ 32 /\ 1 <= n < 2 ^ 32 /\
    cells = {| vertex_index := Some (v - 1); texture_index := Some (t - 1);
               normal_index := Some (n - 1) |}.
Proof.
  unfold n3dc_obj_parse_obj_index_group.
  destruct (index_group_loop _ _ _ _ _ _) as [q [[[ve te] ne]|]] eqn:Hloop;
    [|intros [=]].
  rewrite convert_index_group_result. intros H.
  apply index_group_result_Some in H as (-> & -> & (Hv & Ht & Hn) & ->).
  apply index_group_loop_post in Hloop
    as (Hr & Hterm & (Hve & Hsv) & (Hte & Hst) & Hvt).
  specialize (Hvt eq_refl eq_refl).
  rewrite length_drop in Hr.
  rewrite !lookup_drop in Hterm. rewrite lookup_drop in Hsv, Hst.
  replace (s + (ne - s))%nat with ne in Hterm by lia.
  replace (s + (ve - s))%nat with ve in Hsv by lia.
  replace (s + (te - s))%nat with te in Hst by lia.
  split; [reflexivity|]. split; [lia|].
  split; [unfold char_at; destruct Hterm as [-> | ->]; auto|].
  exists ve, te. unfold char_at. rewrite Hsv, Hst. simpl.
  unfold n3dc_obj_string_section_to_uint in *.
  pose proof (uint_range (atoi (c_str (string_section s ve file)))).
  pose proof (uint_range (atoi (c_str (string_section (ve + 1) te file)))).
  pose proof (uint_range (atoi (c_str (string_section (te + 1) ne file)))).
  repeat split; try lia.
Qed.

Lemma group_outcome_cells g e :
  wf_group g -> group_outcome g e = ([], group_cells g, Some e).
Proof. clear atof.
  destruct g as [[a b] c]. intros (_ & Hv & Ht & Hn).
  unfold group_outcome, index_group_result, group_cells, group_indices.
  rewrite !decide_False by assumption. reflexivity.
Qed.

(** The cells a well-formed face line fills. *)
Lemma face_wf_cells file pre g1 g2 g3 post :
  file = pre ++ render (Face g1 g2 g3) ++ post ->
  wf_group g1 -> wf_group g2 -> wf_group g3 ->
  n3dc_obj_parse_obj_face file (length pre + 1)
  = ([], (group_cells g1, group_cells g2, group_cells g3),
     Some (length pre + length (render (Face g1 g2 g3)) - 1)%nat).
Proof. clear atof.
  intros Hfile W1 W2 W3.
  pose proof (wf_group_shaped _ W1) as S1.
  pose proof (wf_group_shaped _ W2) as S2.
  pose proof (wf_group_shaped _ W3) as S3.
  destruct (face_layout file pre g1 g2 g3 LF post) as
    (L0 & L1 & L2 & G1 & G2 & G3 & C2 & C3); auto.
  { rewrite Hfile. simpl. list_eq. }
  unfold n3dc_obj_parse_obj_face.
  rewrite decide_True by assumption. rewrite G1, group_outcome_cells by assumption.
  rewrite decide_True by assumption. rewrite G2, group_outcome_cells by assumption.
  rewrite decide_True by assumption. rewrite G3, group_outcome_cells by assumption.
  rewrite C3. rewrite decide_False by (intros Hne; apply Hne; reflexivity).
  simpl. do 2 f_equal. list_len.
Qed.

(** A triangle face that the file ends in, with no newline after its third
    group: the scan of the third group reaches the end of the file, the
    face scanner does not test that and looks at the character the third
    group began at, a space. *)
Lemma face_unterminated file pre g1 g2 g3 :
  file = pre ++ "f"%char :: render_group g1 ++ render_group g2
             ++ render_group g3 ->
  wf_group g1 -> wf_group g2 -> shaped_group g3 ->
  n3dc_obj_parse_obj_face file (length pre + 1)
  = ([Group_end_of_file; Face_not_triangulated],
     (group_cells g1, group_cells g2, untouched), None).
Proof. clear atof.
  intros Hfile W1 W2 S3.
  pose proof (wf_group_shaped _ W1) as S1.
  pose proof (wf_group_shaped _ W2) as S2.
  destruct (render_group_cons g1) as (t1 & Ht1).
  destruct (render_group_cons g2) as (t2 & Ht2).
  destruct (render_group_cons g3) as (t3 & Ht3).
  set (e1 := (length pre + 1 + length (render_group g1))%nat).
  set (e2 := (e1 + length (render_group g2))%nat).
  assert (length file = (e2 + length (render_group g3))%nat) as Hlen.
  { subst file e2 e1. list_len. }
  assert (n3dc_obj_parse_obj_index_group file (length pre + 1)
          = group_outcome g1 e1) as G1.
  { replace (length pre + 1)%nat with (length (pre ++ ["f"%char])) by list_len.
    replace e1 with (length (pre ++ ["f"%char]) + length (render_group g1))%nat
      by (subst e1; list_len).
    apply index_group_at with (term := SP) (post := t2 ++ render_group g3); auto.
    rewrite Hfile, Ht2. list_eq. }
  assert (n3dc_obj_parse_obj_index_group file e1 = group_outcome g2 e2) as G2.
  { replace e1 with (length (pre ++ "f"%char :: render_group g1))
      by (subst e1; list_len).
    replace e2 with (length (pre ++ "f"%char :: render_group g1)
                     + length (render_group g2))%nat
      by (subst e2 e1; list_len).
    apply index_group_at with (term := SP) (post := t3); auto.
    rewrite Hfile, Ht3. list_eq. }
  assert (n3dc_obj_parse_obj_index_group file e2
          = ([Group_end_of_file], untouched, None)) as G3.
  { replace e2
      with (length (pre ++ "f"%char :: render_group g1 ++ render_group g2))
      by (subst e2 e1; list_len).
    apply index_group_unterminated with (g := g3); [|assumption].
    rewrite Hfile. list_eq. }
  assert (char_at file e2 = SP) as C2.
  { rewrite Hfile, Ht3.
    replace (pre ++ "f"%char :: render_group g1 ++ render_group g2 ++ SP :: t3)
      with ((pre ++ "f"%char :: render_group g1 ++ render_group g2)
              ++ SP :: t3) by list_eq.
    apply char_at_middle. subst e2 e1. list_len. }
  unfold n3dc_obj_parse_obj_face.
  rewrite decide_True by (rewrite Hlen; subst e2 e1; rewrite Ht1; list_len).
  rewrite G1, group_outcome_cells by assumption. fold e1.
  rewrite decide_True by (rewrite Hlen; subst e2; rewrite Ht2; list_len).
  rewrite G2, group_outcome_cells by assumption. fold e2.
  rewrite decide_True by (rewrite Hlen, Ht3; list_len).
  rewrite G3, C2. rewrite decide_True by discriminate. reflexivity.
Qed.

(** ** Arrays that are filled from the front *)

Lemma fetch_filled {A} n (l : list A) j x :
  0 <= j -> l !! Z.to_nat j = Some x -> fetch (filled n l) j = Ok x.
Proof. clear atof atoi.
  intros Hj Hx. unfold fetch, filled, array.
  rewrite lookup_app_l by (rewrite length_fmap; eapply lookup_lt_Some; eassumption).
  rewrite list_lookup_fmap, Hx. reflexivity.
Qed.

Lemma fetch_filled_uninitialised {A} n (l : list A) j :
  Z.of_nat (length l) <= j < n ->
  fetch (filled n l) j = Undef Uninitialised_read.
Proof. clear atof atoi.
  intros Hj. unfold fetch, filled, array.
  rewrite lookup_app_r by (rewrite length_fmap; lia).
  rewrite lookup_replicate_2 by (rewrite length_fmap; lia). reflexivity.
Qed.

Lemma fetch_filled_out_of_bounds {A} n (l : list A) j :
  Z.of_nat (length l) <= j -> n <= j ->
  fetch (filled n l) j = Undef Out_of_bounds_read.
Proof. clear atof atoi.
  intros Hl Hn. unfold fetch, filled, array.
  rewrite lookup_ge_None_2; [reflexivity|].
  rewrite length_app, length_fmap, length_replicate. lia.
Qed.

Lemma store_filled {A} n (l : list A) off x cells :
  off = Z.of_nat (length l) ->
  store (filled n l) off x = Some cells -> cells = filled n (l ++ [x]).
Proof. clear atof atoi.
  intros -> Hst. unfold store in Hst. case_decide as Hlt; [|discriminate].
  injection Hst as <-. unfold filled, array in *.
  rewrite length_app, length_fmap, length_replicate in Hlt.
  rewrite Nat2Z.id.
  rewrite insert_app_r_alt by (rewrite length_fmap; lia).
  rewrite length_fmap, Nat.sub_diag.
  destruct (Z.to_nat n - length l)%nat as [|k] eqn:Hk; [lia|].
  rewrite fmap_app, <- app_assoc, length_app. simpl.
  replace (Z.to_nat n - (length l + 1))%nat with k by lia. reflexivity.
Qed.

Lemma store3_filled {A} n (l : list A) o1 o2 o3 x y z cells :
  o1 = Z.of_nat (length l) -> o2 = o1 + 1 -> o3 = o1 + 2 ->
  store3 (filled n l) o1 (Some x) o2 (Some y) o3 (Some z) = Some cells ->
  cells = filled n (l ++ [x; y; z]).
Proof. clear atof atoi.
  intros H1 H2 H3. unfold store3. simpl.
  destruct (store (filled n l) o1 x) as [c1|] eqn:S1; [|intros [=]]. simpl.
  apply store_filled in S1; [|assumption]. subst c1.
  destruct (store _ o2 y) as [c2|] eqn:S2; [|intros [=]]. simpl.
  apply store_filled in S2; [|rewrite length_app; simpl; lia]. subst c2.
  intros S3.
  apply store_filled in S3; [|rewrite !length_app; simpl; lia]. subst cells.
  rewrite <- !app_assoc. reflexivity.
Qed.

Lemma store2_filled {A} n (l : list A) o1 o2 x y cells :
  o1 = Z.of_nat (length l) -> o2 = o1 + 1 ->
  store (filled n l) o1 x ≫= (fun cells => store cells o2 y) = Some cells ->
  cells = filled n (l ++ [x; y]).
Proof. clear atof atoi.
  intros H1 H2.
  destruct (store (filled n l) o1 x) as [c1|] eqn:S1; [|intros [=]]. simpl.
  apply store_filled in S1; [|assumption]. subst c1.
  intros S2.
  apply store_filled in S2; [|rewrite length_app; simpl; lia]. subst cells.
  rewrite <- !app_assoc. reflexivity.
Qed.

(** ** What the scanners print *)

Lemma vec3_loop_None cells : forall i xp yp xe ye p,
  vec3_loop cells i xp yp xe ye = (p, None) ->
  exists d, p = [d] /\ entry_diag d = false /\ group_diag d = false.
Proof. clear atof atoi.
  induction cells as [|c cells IH]; intros i xp yp xe ye p; simpl;
    unfold raise, ret.
  - intros [= <-]. eauto.
  - repeat case_decide; destruct xp, yp; simpl;
      try destruct (n3dc_obj_is_valid_vec_char c); simpl;
      try (intros [=]; fail);
      try (intros [= <-]; eauto; fail);
      apply IH.
Qed.

Lemma vec2_loop_None cells : forall i xp xe p,
  vec2_loop cells i xp xe = (p, None) ->
  exists d, p = [d] /\ entry_diag d = false /\ group_diag d = false.
Proof. clear atof atoi.
  induction cells as [|c cells IH]; intros i xp xe p; simpl; unfold raise, ret.
  - intros [= <-]. eauto.
  - repeat case_decide; destruct xp; simpl;
      try destruct (n3dc_obj_is_valid_vec_char c); simpl;
      try (intros [=]; fail);
      try (intros [= <-]; eauto; fail);
      apply IH.
Qed.

Lemma parse_vec3_None file s p :
  n3dc_obj_parse_obj_vec3 file s = (p, None) ->
  exists d, p = [d] /\ entry_diag d = false /\ group_diag d = false.
Proof. clear atoi.
  unfold n3dc_obj_parse_obj_vec3.
  destruct (vec3_loop _ _ _ _ _ _) as [q [[[xe ye] ze]|]] eqn:Hloop;
    intros [= <-].
  eapply vec3_loop_None. eassumption.
Qed.

Lemma parse_vec2_None file s p :
  n3dc_obj_parse_obj_vec2 file s = (p, None) ->
  exists d, p = [d] /\ entry_diag d = false /\ group_diag d = false.
Proof. clear atoi.
  unfold n3dc_obj_parse_obj_vec2.
  destruct (vec2_loop _ _ _ _) as [q [[xe ye]|]] eqn:Hloop; intros [= <-].
  eapply vec2_loop_None. eassumption.
Qed.

Lemma index_group_loop_None cells : forall i f1 f2 ve te p,
  index_group_loop cells i f1 f2 ve te = (p, None) ->
  exists d, p = [d] /\ group_diag d = true.
Proof. clear atof atoi.
  induction cells as [|c cells IH]; intros i f1 f2 ve te p; simpl;
    unfold raise, ret.
  - intros [= <-]. eauto.
  - destruct (decide (c = SLASH)); [|destruct (_ && _)];
      destruct f1, f2; simpl;
      try (intros [=]; fail);
      try (intros [= <-]; eauto; fail);
      apply IH.
Qed.

(** A failed group scan has printed exactly one diagnostic, of its own. *)
Lemma index_group_None file s p g :
  n3dc_obj_parse_obj_index_group file s = (p, g, None) ->
  exists d, p = [d] /\ group_diag d = true.
Proof. clear atof.
  unfold n3dc_obj_parse_obj_index_group.
  destruct (index_group_loop _ _ _ _ _ _) as [q [[[ve te] ne]|]] eqn:Hloop.
  - unfold convert_index_group. repeat case_decide; intros [=]; subst; eauto.
  - intros [= <- _]. eapply index_group_loop_None. eassumption.
Qed.

Lemma group_diag_not_entry d : group_diag d = true -> entry_diag d = false.
Proof. clear atof atoi. destruct d; simpl; congruence. Qed.

(** The face scanner entered inside the buffer: on success it has printed
    at most the diagnostic of a failed third group; on failure at least one
    diagnostic; and never its own end-of-file diagnostic. *)
Lemma face_printed file s p cs r :
  (s < length file)%nat ->
  n3dc_obj_parse_obj_face file s = (p, cs, r) ->
  Forall (fun d => entry_diag d = false) p /\
  match r with
  | Some _ => Forall (fun d => group_diag d = true) p
  | None => p <> []
  end.
Proof. clear atof.
  intros Hs. unfold n3dc_obj_parse_obj_face.
  rewrite decide_True by assumption.
  destruct (n3dc_obj_parse_obj_index_group file s) as [[p1 g1] [e1|]] eqn:G1.
  - destruct (index_group_post _ _ _ _ _ G1) as (-> & He1 & _).
    rewrite decide_True by lia.
    destruct (n3dc_obj_parse_obj_index_group file e1) as [[p2 g2] [e2|]] eqn:G2.
    + destruct (index_group_post _ _ _ _ _ G2) as (-> & He2 & _).
      rewrite decide_True by lia.
      destruct (n3dc_obj_parse_obj_index_group file e2) as [[p3 g3] r3] eqn:G3.
      assert (Forall (fun d => group_diag d = true) p3) as Hp3.
      { destruct r3 as [e3|].
        - destruct (index_group_post _ _ _ _ _ G3) as (-> & _). constructor.
        - destruct (index_group_None _ _ _ _ G3) as (d & -> & Hd).
          repeat constructor. assumption. }
      assert (Forall (fun d => entry_diag d = false) p3) as Hl3.
      { eapply Forall_impl; [exact Hp3|]. intros d. apply group_diag_not_entry. }
      case_decide; intros [= <- <- <-]; simpl.
      * split; [|intros Hnil; apply app_eq_nil in Hnil as [_ [=]]].
        apply Forall_app. split; [assumption|]. repeat constructor.
      * split; assumption.
    + destruct (index_group_None _ _ _ _ G2) as (d & -> & Hd).
      intros [= <- <- <-]. simpl. split; [|discriminate].
      repeat constructor. apply group_diag_not_entry. assumption.
  - destruct (index_group_None _ _ _ _ G1) as (d & -> & Hd).
    intros [= <- <- <-]. split; [|discriminate].
    repeat constructor. apply group_diag_not_entry. assumption.
Qed.

Lemma seek_loop_Undef cells : forall i p u,
  seek_loop cells i = (p, Undef u) -> p = [] /\ u = Out_of_bounds_read.
Proof. clear atof atoi.
  induction cells as [|c cells IH]; intros i p u; simpl.
  - intros [= <- <-]. split; reflexivity.
  - case_decide; [intros [=]|]. apply IH.
Qed.

(** The line skip entered inside the buffer prints nothing, never fails,
    and overruns the buffer only when no newline is left. *)
Lemma seek_inside file s p r :
  (s < length file)%nat ->
  n3dc_obj_seek_end_of_line file s = (p, r) ->
  p = [] /\
  match r with
  | Ok line_end => (s <= line_end)%nat
  | Err => False
  | Undef u => u = Out_of_bounds_read /\ LF ∉ drop s file
  end.
Proof. clear atof.
  intros Hs. unfold n3dc_obj_seek_end_of_line.
  rewrite decide_True by assumption. intros Hrun.
  destruct r as [le| |u].
  - apply seek_loop_Ok in Hrun. assumption.
  - exfalso. eapply seek_loop_not_Err. eassumption.
  - destruct (seek_loop_Undef _ _ _ _ Hrun) as [-> ->].
    split; [reflexivity|]. split; [reflexivity|]. intros Hin.
    destruct (seek_loop_finds (drop s (file ++ [NUL])) s) as (le & Hle & _).
    { rewrite drop_app_le by lia. apply elem_of_app. left. assumption. }
    rewrite Hle in Hrun. discriminate.
Qed.

Lemma last_in_drop {A} (l : list A) x n :
  last l = Some x -> (n < length l)%nat -> x ∈ drop n l.
Proof. clear atof atoi.
  intros Hlast Hn. rewrite last_lookup in Hlast.
  apply list_elem_of_lookup. exists (pred (length l) - n)%nat.
  rewrite lookup_drop. rewrite <- Hlast. f_equal. lia.
Qed.

(** ** The values of the records *)

(** The scan of a vector record inside a file returns the values of its
    body. *)
Lemma parse_vec3_values pre body post :
  Forall vec_char body -> (2 <= spaces body)%nat ->
  exists x y z,
    n3dc_obj_parse_obj_vec3 (pre ++ body ++ LF :: post) (length pre)
    = ([], Some (x, y, z, (length pre + length body)%nat)) /\
    vec3_values body = [x; y; z].
Proof.
  intros Hok Hsp.
  destruct (vec3_body_fields body Hok Hsp) as (a & b & c & -> & Ha & Hb & Hc).
  exists (field_float a), (field_float (SP :: b)), (field_float (SP :: c)).
  split.
  - replace ((a ++ SP :: b ++ SP :: c) ++ LF :: post)
      with (a ++ SP :: b ++ SP :: c ++ LF :: post) by list_eq.
    rewrite parse_vec3_fields by assumption. do 3 f_equal. list_len.
  - unfold vec3_values.
    pose proof (parse_vec3_fields [] a b c [] Ha Hb Hc) as Hp. simpl in Hp.
    replace ((a ++ SP :: b ++ SP :: c) ++ [LF])
      with (a ++ SP :: b ++ SP :: c ++ [LF]) by list_eq.
    rewrite Hp. reflexivity.
Qed.

Lemma parse_vec2_values pre body post :
  Forall vec_char body -> (1 <= spaces body)%nat ->
  exists x y,
    n3dc_obj_parse_obj_vec2 (pre ++ body ++ LF :: post) (length pre)
    = ([], Some (x, y, (length pre + length body)%nat)) /\
    vec2_values body = [x; y].
Proof.
  intros Hok Hsp.
  destruct (last_space body Hok Hsp) as (a & b & -> & Ha & Hb).
  exists (field_float a), (field_float (SP :: b)).
  split.
  - replace ((a ++ SP :: b) ++ LF :: post)
      with (a ++ SP :: b ++ LF :: post) by list_eq.
    rewrite parse_vec2_fields by assumption. do 3 f_equal. list_len.
  - unfold vec2_values.
    pose proof (parse_vec2_fields [] a b [] Ha Hb) as Hp. simpl in Hp.
    replace ((a ++ SP :: b) ++ [LF]) with (a ++ SP :: b ++ [LF]) by list_eq.
    rewrite Hp. reflexivity.
Qed.

Lemma count_app kind ls1 ls2 :
  count kind (ls1 ++ ls2) = count kind ls1 + count kind ls2.
Proof. clear atof atoi.
  unfold count. rewrite filter_app, length_app. lia.
Qed.

Lemma positions_of_app ls1 ls2 :
  positions_of (ls1 ++ ls2) = positions_of ls1 ++ positions_of ls2.
Proof. clear atoi.
  induction ls1 as [|[] ls1 IH]; simpl; rewrite ?IH, <- ?app_assoc; reflexivity.
Qed.

Lemma texture_coords_of_app ls1 ls2 :
  texture_coords_of (ls1 ++ ls2)
  = texture_coords_of ls1 ++ texture_coords_of ls2.
Proof. clear atoi.
  induction ls1 as [|[] ls1 IH]; simpl; rewrite ?IH, <- ?app_assoc; reflexivity.
Qed.

Lemma normals_of_app ls1 ls2 :
  normals_of (ls1 ++ ls2) = normals_of ls1 ++ normals_of ls2.
Proof. clear atoi.
  induction ls1 as [|[] ls1 IH]; simpl; rewrite ?IH, <- ?app_assoc; reflexivity.
Qed.

Lemma corners_of_app ls1 ls2 :
  corners_of (ls1 ++ ls2) = corners_of ls1 ++ corners_of ls2.
Proof. clear atof.
  induction ls1 as [|[] ls1 IH]; simpl; rewrite ?IH; reflexivity.
Qed.

Lemma vec3_values_length body :
  Forall vec_char body -> (2 <= spaces body)%nat ->
  length (vec3_values body) = 3%nat.
Proof. clear atoi.
  intros Hok Hsp.
  destruct (parse_vec3_values [] body [] Hok Hsp) as (x & y & z & _ & ->).
  reflexivity.
Qed.

Lemma vec2_values_length body :
  Forall vec_char body -> (1 <= spaces body)%nat ->
  length (vec2_values body) = 2%nat.
Proof. clear atoi.
  intros Hok Hsp.
  destruct (parse_vec2_values [] body [] Hok Hsp) as (x & y & _ & ->).
  reflexivity.
Qed.

(** The pools of well-formed lines hold three, two and three scalars for
    each record, and there are three corners for each face. *)
Lemma positions_of_length ls :
  Forall wf ls ->
  Z.of_nat (length (positions_of ls)) = 3 * count is_position ls.
Proof.
  induction 1 as [|l ls Hl _ IH]; [reflexivity|].
  rewrite (count_cons is_position l ls). unfold count in *.
  destruct l; simpl in *; try lia.
  destruct Hl as [Hok Hsp].
  rewrite length_app, vec3_values_length by assumption. lia.
Qed.

Lemma texture_coords_of_length ls :
  Forall wf ls ->
  Z.of_nat (length (texture_coords_of ls)) = 2 * count is_texture_coord ls.
Proof.
  induction 1 as [|l ls Hl _ IH]; [reflexivity|].
  rewrite (count_cons is_texture_coord l ls). unfold count in *.
  destruct l; simpl in *; try lia.
  destruct Hl as [Hok Hsp].
  rewrite length_app, vec2_values_length by assumption. lia.
Qed.

Lemma normals_of_length ls :
  Forall wf ls ->
  Z.of_nat (length (normals_of ls)) = 3 * count is_normal ls.
Proof.
  induction 1 as [|l ls Hl _ IH]; [reflexivity|].
  rewrite (count_cons is_normal l ls). unfold count in *.
  destruct l; simpl in *; try lia.
  destruct Hl as [Hok Hsp].
  rewrite length_app, vec3_values_length by assumption. lia.
Qed.

Lemma corners_of_length ls :
  Z.of_nat (length (corners_of ls)) = 3 * count is_face ls.
Proof. clear atof.
  induction ls as [|l ls IH]; [reflexivity|].
  rewrite (count_cons is_face l ls). unfold count in *.
  destruct l; simpl in *; lia.
Qed.

(** ** The resolver on pools that hold the records of the lines *)

Lemma fetch_record3 n (pool : list spec_float) v :
  0 <= v -> 3 * v + 3 <= Z.of_nat (length pool) -> 3 * v + 3 <= 2 ^ 32 ->
  exists a b c,
    record_scalars 3 pool v = [a; b; c] /\
    fetch (filled n pool) (uint (v * 3)) = Ok a /\
    fetch (filled n pool) (uint (uint (v * 3) + 1)) = Ok b /\
    fetch (filled n pool) (uint (uint (v * 3) + 2)) = Ok c.
Proof. clear atof atoi.
  intros Hv Hlen Hrep.
  destruct (lookup_lt_is_Some_2 pool (3 * Z.to_nat v)) as [a Ha]; [lia|].
  destruct (lookup_lt_is_Some_2 pool (S (3 * Z.to_nat v))) as [b Hb]; [lia|].
  destruct (lookup_lt_is_Some_2 pool (S (S (3 * Z.to_nat v)))) as [c Hc]; [lia|].
  exists a, b, c. rewrite !(uint_small (v * 3)) by lia.
  rewrite !uint_small by lia. split; [|split; [|split]].
  - unfold record_scalars. remember (3 * Z.to_nat v)%nat as k.
    rewrite (drop_S _ a _ Ha). simpl.
    rewrite (drop_S _ b _ Hb). simpl.
    rewrite (drop_S _ c _ Hc). simpl. rewrite take_0. reflexivity.
  - apply fetch_filled; [lia|].
    replace (Z.to_nat (v * 3)) with (3 * Z.to_nat v)%nat by lia. assumption.
  - apply fetch_filled; [lia|].
    replace (Z.to_nat (v * 3 + 1)) with (S (3 * Z.to_nat v)) by lia. assumption.
  - apply fetch_filled; [lia|].
    replace (Z.to_nat (v * 3 + 2)) with (S (S (3 * Z.to_nat v))) by lia.
    assumption.
Qed.

Lemma fetch_record2 n (pool : list spec_float) v :
  0 <= v -> 2 * v + 2 <= Z.of_nat (length pool) -> 2 * v + 2 <= 2 ^ 32 ->
  exists a b,
    record_scalars 2 pool v = [a; b] /\
    fetch (filled n pool) (uint (v * 2)) = Ok a /\
    fetch (filled n pool) (uint (uint (v * 2) + 1)) = Ok b.
Proof. clear atof atoi.
  intros Hv Hlen Hrep.
  destruct (lookup_lt_is_Some_2 pool (2 * Z.to_nat v)) as [a Ha]; [lia|].
  destruct (lookup_lt_is_Some_2 pool (S (2 * Z.to_nat v))) as [b Hb]; [lia|].
  exists a, b. rewrite !(uint_small (v * 2)) by lia.
  rewrite !uint_small by lia. split; [|split].
  - unfold record_scalars. remember (2 * Z.to_nat v)%nat as k.
    rewrite (drop_S _ a _ Ha). simpl.
    rewrite (drop_S _ b _ Hb). simpl. rewrite take_0. reflexivity.
  - apply fetch_filled; [lia|].
    replace (Z.to_nat (v * 2)) with (2 * Z.to_nat v)%nat by lia. assumption.
  - apply fetch_filled; [lia|].
    replace (Z.to_nat (v * 2 + 1)) with (S (2 * Z.to_nat v)) by lia. assumption.
Qed.

(** The indices of well-formed faces are not negative. *)
Lemma group_indices_range g v t n :
  wf_group g -> group_indices g = (v, t, n) -> 0 <= v /\ 0 <= t /\ 0 <= n.
Proof. clear atof.
  destruct g as [[a b] c]. intros (_ & Hv & Ht & Hn) [= <- <- <-].
  unfold field_value, n3dc_obj_string_section_to_uint in *.
  pose proof (uint_range (atoi (c_str (string_section 0 (length (SP :: a)) (SP :: a))))).
  pose proof (uint_range (atoi (c_str (string_section 0 (length b) b)))).
  pose proof (uint_range (atoi (c_str (string_section 0 (length c) c)))).
  lia.
Qed.

Lemma corners_of_range ls :
  Forall wf ls ->
  Forall (fun '(v, t, n) => 0 <= v /\ 0 <= t /\ 0 <= n) (corners_of ls).
Proof. clear atof.
  induction 1 as [|l ls Hl _ IH]; [constructor|].
  destruct l as [body|body|body|g1 g2 g3|text]; simpl; try assumption.
  destruct Hl as (W1 & W2 & W3).
  destruct (group_indices g1) as [[v1 t1] n1] eqn:E1.
  destruct (group_indices g2) as [[v2 t2] n2] eqn:E2.
  destruct (group_indices g3) as [[v3 t3] n3] eqn:E3.
  constructor; [eapply (group_indices_range g1); eassumption|].
  constructor; [eapply (group_indices_range g2); eassumption|].
  constructor; [eapply (group_indices_range g3); eassumption|].
  assumption.
Qed.

(** * Properties of the driver loop *)

Section Driver_facts.

Variable file_chars : list ascii.
Variables max_vertices max_normals max_indices : Z.

(** The capacities are [unsigned int] arguments. *)
Hypothesis max_vertices_range : 0 <= max_vertices < 2 ^ 32.
Hypothesis max_normals_range : 0 <= max_normals < 2 ^ 32.
Hypothesis max_indices_range : 0 <= max_indices < 2 ^ 32.

Local Abbreviation initial_state :=
  (initial_state max_vertices max_normals max_indices).
Local Abbreviation vertex_branch := (vertex_branch file_chars max_vertices).
Local Abbreviation texture_coord_branch :=
  (texture_coord_branch file_chars max_indices).
Local Abbreviation normal_branch := (normal_branch file_chars max_normals).
Local Abbreviation face_branch := (face_branch file_chars max_indices).
Local Abbreviation skip_branch := (skip_branch file_chars).
Local Abbreviation loop_body :=
  (loop_body file_chars max_vertices max_normals max_indices).
Local Abbreviation scan_loop :=
  (scan_loop file_chars max_vertices max_normals max_indices).
Local Abbreviation n3dc_obj_load :=
  (n3dc_obj_load file_chars max_vertices max_normals max_indices).
Local Abbreviation run_from :=
  (run_from file_chars max_vertices max_normals max_indices).
Local Abbreviation Inv := (Inv max_vertices max_normals max_indices).
Local Abbreviation room := (room max_vertices max_normals max_indices).

(** ** The branches of the loop body *)

(** What a completed iteration on a position record leaves behind. *)
Lemma vertex_branch_Next st st' :
  Inv st -> vertex_branch st = Next st' ->
  exists p x y z line_end,
    n3dc_obj_parse_obj_vec3 file_chars (current_char_offset st + 1)
    = (p, Some (x, y, z, line_end)) /\
    current_char_offset st' = (line_end + 2)%nat /\
    Inv st' /\
    parsed_vertices st' = uint (parsed_vertices st + 1) /\
    parsed_texture_coords st' = parsed_texture_coords st /\
    parsed_normals st' = parsed_normals st /\
    parsed_indices st' = parsed_indices st /\
    printed st' = printed st ++ p.
Proof.
  intros (Hc & (Lv & Ov & Pv) & HT & HN & HI). unfold vertex_branch.
  case_decide as Hcap; [intros [=]|].
  destruct (n3dc_obj_parse_obj_vec3 _ _) as [p [[[[x y] z] le]|]];
    [|intros [=]].
  destruct (store3 _ _ _ _ _ _ _) as [cells|] eqn:Hst; [|intros [=]].
  intros [= <-]. exists p, x, y, z, le.
  unfold Inv, after_vertex, after_normal. simpl.
  apply store3_length in Hst.
  pose proof (uint_range (parsed_vertices st + 1)).
  repeat split; try assumption; try tauto; try lia.
  rewrite Ov. apply triple_next.
Qed.

Lemma vertex_branch_ok st p x y z line_end :
  Inv st -> uint (parsed_vertices st + 1) <= max_vertices ->
  n3dc_obj_parse_obj_vec3 file_chars (current_char_offset st + 1)
  = (p, Some (x, y, z, line_end)) ->
  exists st', vertex_branch st = Next st'.
Proof.
  intros (Hc & (Lv & Ov & Pv) & HT & HN & HI) Hcap Hscan. unfold vertex_branch.
  rewrite decide_False by lia. rewrite Hscan.
  destruct (triple_in_bounds max_vertices (parsed_vertices st) (vertex_offset st))
    as (B1 & B2 & B3); try assumption; try lia.
  destruct (store3_in_bounds (pool_vertices st)
              (vertex_offset st) x (uint (vertex_offset st + 1)) y
              (uint (uint (vertex_offset st + 1) + 1)) z)
    as (cells & -> & _); try lia.
  eexists. reflexivity.
Qed.

Lemma normal_branch_Next st st' :
  Inv st -> normal_branch st = Next st' ->
  exists p x y z line_end,
    n3dc_obj_parse_obj_vec3 file_chars (current_char_offset st + 2)
    = (p, Some (x, y, z, line_end)) /\
    current_char_offset st' = (line_end + 2)%nat /\
    Inv st' /\
    parsed_vertices st' = parsed_vertices st /\
    parsed_texture_coords st' = parsed_texture_coords st /\
    parsed_normals st' = uint (parsed_normals st + 1) /\
    parsed_indices st' = parsed_indices st /\
    printed st' = printed st ++ p.
Proof.
  intros (Hc & HV & HT & (Ln & On & Pn) & HI). unfold normal_branch.
  case_decide as Hcap; [intros [=]|].
  destruct (n3dc_obj_parse_obj_vec3 _ _) as [p [[[[x y] z] le]|]];
    [|intros [=]].
  destruct (store3 _ _ _ _ _ _ _) as [cells|] eqn:Hst; [|intros [=]].
  intros [= <-]. exists p, x, y, z, le.
  unfold Inv, after_vertex, after_normal. simpl.
  apply store3_length in Hst.
  pose proof (uint_range (parsed_normals st + 1)).
  repeat split; try assumption; try tauto; try lia.
  rewrite On. apply triple_next.
Qed.

Lemma normal_branch_ok st p x y z line_end :
  Inv st -> uint (parsed_normals st + 1) <= max_normals ->
  n3dc_obj_parse_obj_vec3 file_chars (current_char_offset st + 2)
  = (p, Some (x, y, z, line_end)) ->
  exists st', normal_branch st = Next st'.
Proof.
  intros (Hc & HV & HT & (Ln & On & Pn) & HI) Hcap Hscan. unfold normal_branch.
  rewrite decide_False by lia. rewrite Hscan.
  destruct (triple_in_bounds max_normals (parsed_normals st) (normal_offset st))
    as (B1 & B2 & B3); try assumption; try lia.
  destruct (store3_in_bounds (pool_normals st)
              (normal_offset st) x (uint (normal_offset st + 1)) y
              (uint (uint (normal_offset st + 1) + 1)) z)
    as (cells & -> & _); try lia.
  eexists. reflexivity.
Qed.

Lemma texture_coord_branch_Next st st' :
  Inv st -> texture_coord_branch st = Next st' ->
  exists p x y line_end,
    n3dc_obj_parse_obj_vec2 file_chars (current_char_offset st + 2)
    = (p, Some (x, y, line_end)) /\
    current_char_offset st' = (line_end + 2)%nat /\
    Inv st' /\
    parsed_vertices st' = parsed_vertices st /\
    parsed_texture_coords st' = uint (parsed_texture_coords st + 1) /\
    parsed_normals st' = parsed_normals st /\
    parsed_indices st' = parsed_indices st /\
    printed st' = printed st ++ p.
Proof.
  intros (Hc & HV & (Lt & Ot & Pt) & HN & HI). unfold texture_coord_branch.
  case_decide as Hcap; [intros [=]|].
  destruct (n3dc_obj_parse_obj_vec2 _ _) as [p [[[x y] le]|]]; [|intros [=]].
  destruct (store (pool_texture_coords st) _ x) as [c1|] eqn:Hs1;
    simpl; [|intros [=]].
  destruct (store c1 _ y) as [cells|] eqn:Hs2; [|intros [=]].
  intros [= <-]. exists p, x, y, le. unfold Inv, after_texture_coord. simpl.
  apply store_Some in Hs1 as [_ Hs1]. apply store_Some in Hs2 as [_ Hs2].
  pose proof (uint_range (parsed_texture_coords st + 1)).
  repeat split; try assumption; try tauto; try lia.
  rewrite Ot. apply pair_next.
Qed.

Lemma texture_coord_branch_ok st p x y line_end :
  Inv st -> uint (parsed_texture_coords st + 1) <= max_indices ->
  n3dc_obj_parse_obj_vec2 file_chars (current_char_offset st + 2)
  = (p, Some (x, y, line_end)) ->
  exists st', texture_coord_branch st = Next st'.
Proof.
  intros (Hc & HV & (Lt & Ot & Pt) & HN & HI) Hcap Hscan.
  unfold texture_coord_branch.
  rewrite decide_False by lia. rewrite Hscan.
  destruct (pair_in_bounds max_indices (parsed_texture_coords st)
              (texture_coord_offset st)) as (B1 & B2);
    try assumption; try lia.
  destruct (store_in_bounds (pool_texture_coords st)
              (texture_coord_offset st) x) as (c1 & -> & L1); [lia|].
  simpl.
  destruct (store_in_bounds c1 (uint (texture_coord_offset st + 1)) y)
    as (c2 & -> & L2); [lia|].
  eexists. reflexivity.
Qed.

(** What a completed iteration on a face record leaves behind: the counter
    has grown by three without wrapping. *)
Lemma face_branch_Next st st' :
  Inv st -> face_branch st = Next st' ->
  exists p c1 c2 c3 line_end,
    n3dc_obj_parse_obj_face file_chars (current_char_offset st)
    = (p, (c1, c2, c3), Some line_end) /\
    current_char_offset st' = (line_end + 2)%nat /\
    Inv st' /\
    parsed_vertices st' = parsed_vertices st /\
    parsed_texture_coords st' = parsed_texture_coords st /\
    parsed_normals st' = parsed_normals st /\
    parsed_indices st' = parsed_indices st + 3 /\
    printed st' = printed st ++ p.
Proof. clear atof.
  intros (Hc & HV & HT & HN & (Lv & Lt & Ln & Oi & Pi & k & Hk)).
  unfold face_branch.
  case_decide as Hcap; [intros [=]|].
  destruct (n3dc_obj_parse_obj_face _ _) as [[p [[c1 c2] c3]] r] eqn:Hface.
  destruct (store3 (vertex_indices st) _ _ _ _ _ _) as [vi|] eqn:Hvi;
    [|intros [=]].
  destruct (store3 (texture_indices st) _ _ _ _ _ _) as [ti|] eqn:Hti;
    [|intros [=]].
  destruct (store3 (normal_indices st) _ _ _ _ _ _) as [ni|] eqn:Hni;
    [|intros [=]].
  destruct r as [le|]; [|intros [=]].
  intros [= <-]. exists p, c1, c2, c3, le.
  destruct (face_Some _ _ _ _ _ _ _ Hface) as [_ [v Hv]].
  pose proof Hvi as Hfirst. rewrite Hv in Hfirst. apply store3_first in Hfirst.
  apply store3_length in Hvi, Hti, Hni.
  assert (uint (parsed_indices st + 3) = parsed_indices st + 3) as Hp
    by (apply uint_small; lia).
  unfold Inv, after_face. simpl. rewrite uint_add3, Oi, Hp.
  repeat split; try assumption; try tauto; try lia.
  exists (k + 1). lia.
Qed.

(** With room for three more corners every store of the face branch is in
    bounds, and the branch follows the outcome of the face scan. *)
Lemma face_branch_in_bounds st p cs r :
  Inv st -> parsed_indices st + 3 <= max_indices ->
  n3dc_obj_parse_obj_face file_chars (current_char_offset st) = (p, cs, r) ->
  match r with
  | Some _ => exists st', face_branch st = Next st'
  | None => face_branch st = Break (printed st ++ p)
  end.
Proof.
  intros (Hc & HV & HT & HN & (Lv & Lt & Ln & Oi & Pi & k & Hk)) Hroom Hface.
  unfold face_branch.
  rewrite decide_False by (rewrite uint_small; lia).
  rewrite Hface. destruct cs as [[c1 c2] c3].
  assert (index_offset st < max_indices /\
          uint (index_offset st + 1) < max_indices /\
          uint (uint (index_offset st + 1) + 1) < max_indices) as (B1 & B2 & B3).
  { rewrite uint_add2, Oi. rewrite !uint_small by lia. lia. }
  destruct (store3_opt_in_bounds (vertex_indices st)
              (index_offset st) (vertex_index c1)
              (uint (index_offset st + 1)) (vertex_index c2)
              (uint (uint (index_offset st + 1) + 1)) (vertex_index c3))
    as (vi & ->); try lia.
  destruct (store3_opt_in_bounds (texture_indices st)
              (index_offset st) (texture_index c1)
              (uint (index_offset st + 1)) (texture_index c2)
              (uint (uint (index_offset st + 1) + 1)) (texture_index c3))
    as (ti & ->); try lia.
  destruct (store3_opt_in_bounds (normal_indices st)
              (index_offset st) (normal_index c1)
              (uint (index_offset st + 1)) (normal_index c2)
              (uint (uint (index_offset st + 1) + 1)) (normal_index c3))
    as (ni & ->); try lia.
  destruct r; eauto.
Qed.

Lemma skip_branch_Next st st' :
  Inv st -> skip_branch st = Next st' ->
  exists line_end,
    n3dc_obj_seek_end_of_line file_chars (current_char_offset st)
    = ([], Ok line_end) /\
    current_char_offset st' = (line_end + 2)%nat /\
    Inv st' /\
    parsed_vertices st' = parsed_vertices st /\
    parsed_texture_coords st' = parsed_texture_coords st /\
    parsed_normals st' = parsed_normals st /\
    parsed_indices st' = parsed_indices st /\
    printed st' = printed st.
Proof. clear atof.
  intros HInv. unfold skip_branch.
  destruct (n3dc_obj_seek_end_of_line _ _) as [p [le| |u]] eqn:Hseek;
    intros [= <-].
  destruct (seek_Ok _ _ _ _ Hseek) as [-> _]. exists le.
  unfold Inv, after_skip, after_face in *. simpl.
  rewrite app_nil_r. repeat split; try tauto; lia.
Qed.

(** Every completed iteration moves the cursor forward. *)
Lemma loop_body_progress st st' :
  loop_body st = Next st' ->
  (current_char_offset st < current_char_offset st')%nat.
Proof.
  unfold loop_body. repeat case_decide.
  - unfold vertex_branch. case_decide; [intros [=]|].
    destruct (n3dc_obj_parse_obj_vec3 _ _) as [p [[[[x y] z] le]|]] eqn:Hs;
      [|intros [=]].
    destruct (store3 _ _ _ _ _ _ _); intros [= <-]. simpl.
    apply parse_vec3_Some in Hs. lia.
  - unfold texture_coord_branch. case_decide; [intros [=]|].
    destruct (n3dc_obj_parse_obj_vec2 _ _) as [p [[[x y] le]|]] eqn:Hs;
      [|intros [=]].
    destruct (_ ≫= _); intros [= <-]. simpl.
    apply parse_vec2_Some in Hs. lia.
  - unfold normal_branch. case_decide; [intros [=]|].
    destruct (n3dc_obj_parse_obj_vec3 _ _) as [p [[[[x y] z] le]|]] eqn:Hs;
      [|intros [=]].
    destruct (store3 _ _ _ _ _ _ _); intros [= <-]. simpl.
    apply parse_vec3_Some in Hs. lia.
  - unfold face_branch. case_decide; [intros [=]|].
    destruct (n3dc_obj_parse_obj_face _ _) as [[p [[c1 c2] c3]] r] eqn:Hs.
    destruct (store3 (vertex_indices st) _ _ _ _ _ _); [|intros [=]].
    destruct (store3 (texture_indices st) _ _ _ _ _ _); [|intros [=]].
    destruct (store3 (normal_indices st) _ _ _ _ _ _); [|intros [=]].
    destruct r as [le|]; intros [= <-]. simpl.
    apply face_Some in Hs. lia.
  - unfold skip_branch.
    destruct (n3dc_obj_seek_end_of_line _ _) as [p [le| |u]] eqn:Hs;
      intros [= <-]. simpl.
    apply seek_Ok in Hs. lia.
Qed.

(** ** Fuel *)

Lemma scan_loop_fuel n : forall st fuel1 fuel2,
  (length file_chars - current_char_offset st <= n)%nat ->
  (n <= fuel1)%nat -> (n <= fuel2)%nat ->
  scan_loop fuel1 st = scan_loop fuel2 st /\ scan_loop fuel1 st <> None.
Proof.
  induction n as [|n IH]; intros st fuel1 fuel2 Hn H1 H2.
  - destruct fuel1, fuel2; simpl; rewrite ?decide_False by lia; done.
  - destruct fuel1 as [|f1]; [lia|]. destruct fuel2 as [|f2]; [lia|].
    simpl. case_decide as Hlt; [|done].
    destruct (loop_body st) as [st'| |] eqn:Hbody; [|done|done].
    apply loop_body_progress in Hbody. apply IH; lia.
Qed.

Lemma scan_loop_run_from fuel st :
  (length file_chars - current_char_offset st <= fuel)%nat ->
  scan_loop fuel st = run_from st.
Proof.
  intros Hfuel. unfold run_from.
  apply (scan_loop_fuel (length file_chars - current_char_offset st)); lia.
Qed.

Lemma run_from_total st : run_from st <> None.
Proof.
  unfold run_from.
  eapply (scan_loop_fuel (length file_chars - current_char_offset st) st);
    reflexivity.
Qed.

Lemma run_from_Next st st' :
  (current_char_offset st < length file_chars)%nat ->
  loop_body st = Next st' -> run_from st = run_from st'.
Proof.
  intros Hlt Hbody. unfold run_from at 1.
  destruct (length file_chars - current_char_offset st)%nat as [|f] eqn:Hf;
    [lia|].
  simpl. rewrite decide_True by assumption. rewrite Hbody.
  apply scan_loop_run_from.
  apply loop_body_progress in Hbody. lia.
Qed.

Lemma run_from_Break st p :
  (current_char_offset st < length file_chars)%nat ->
  loop_body st = Break p -> run_from st = Some (p, Err).
Proof.
  intros Hlt Hbody. unfold run_from.
  destruct (length file_chars - current_char_offset st)%nat as [|f] eqn:Hf;
    [lia|].
  simpl. rewrite decide_True by assumption. rewrite Hbody. reflexivity.
Qed.

Lemma run_from_Crash st p u :
  (current_char_offset st < length file_chars)%nat ->
  loop_body st = Crash p u -> run_from st = Some (p, Undef u).
Proof.
  intros Hlt Hbody. unfold run_from.
  destruct (length file_chars - current_char_offset st)%nat as [|f] eqn:Hf;
    [lia|].
  simpl. rewrite decide_True by assumption. rewrite Hbody. reflexivity.
Qed.

Lemma run_from_end st :
  (length file_chars <= current_char_offset st)%nat ->
  run_from st = Some (printed st, Ok st).
Proof.
  intros Hge. unfold run_from.
  destruct (length file_chars - current_char_offset st)%nat;
    simpl; rewrite decide_False by lia; reflexivity.
Qed.

(** ** The lookahead of the driver *)

Lemma lookahead pre c1 c2 rest st :
  file_chars = pre ++ c1 :: c2 :: rest ->
  current_char_offset st = (length pre + 1)%nat ->
  char_at file_chars (current_char_offset st - 1) = c1 /\
  char_at file_chars (current_char_offset st) = c2 /\
  (current_char_offset st < length file_chars)%nat.
Proof.
  intros Hfile Hc. rewrite Hc, Hfile. split; [|split].
  - apply char_at_middle. lia.
  - replace (pre ++ c1 :: c2 :: rest) with ((pre ++ [c1]) ++ c2 :: rest)
      by list_eq.
    apply char_at_middle. list_len.
  - list_len.
Qed.

Lemma dispatch_vertex st :
  char_at file_chars (current_char_offset st - 1) = "v"%char ->
  char_at file_chars (current_char_offset st) = SP ->
  loop_body st = vertex_branch st.
Proof.
  intros H1 H2. unfold loop_body. rewrite H1, H2.
  rewrite decide_True by done. reflexivity.
Qed.

Lemma dispatch_texture_coord st :
  char_at file_chars (current_char_offset st - 1) = "v"%char ->
  char_at file_chars (current_char_offset st) = "t"%char ->
  loop_body st = texture_coord_branch st.
Proof.
  intros H1 H2. unfold loop_body. rewrite H1, H2.
  rewrite decide_False by (intros [_ [=]]).
  rewrite decide_True by done. reflexivity.
Qed.

Lemma dispatch_normal st :
  char_at file_chars (current_char_offset st - 1) = "v"%char ->
  char_at file_chars (current_char_offset st) = "n"%char ->
  loop_body st = normal_branch st.
Proof.
  intros H1 H2. unfold loop_body. rewrite H1, H2.
  rewrite decide_False by (intros [_ [=]]).
  rewrite decide_False by (intros [_ [=]]).
  rewrite decide_True by done. reflexivity.
Qed.

Lemma dispatch_face st :
  char_at file_chars (current_char_offset st - 1) = "f"%char ->
  char_at file_chars (current_char_offset st) = SP ->
  loop_body st = face_branch st.
Proof.
  intros H1 H2. unfold loop_body. rewrite H1, H2.
  rewrite decide_False by (intros [[=] _]).
  rewrite decide_False by (intros [[=] _]).
  rewrite decide_False by (intros [[=] _]).
  rewrite decide_True by done. reflexivity.
Qed.

Lemma dispatch_skip st :
  is_record_tag (char_at file_chars (current_char_offset st - 1))
                (char_at file_chars (current_char_offset st)) = false ->
  loop_body st = skip_branch st.
Proof.
  unfold is_record_tag, loop_body. intros Htag.
  apply orb_false_elim in Htag as [Htag H4].
  apply orb_false_elim in Htag as [Htag H3].
  apply orb_false_elim in Htag as [H1 H2].
  apply bool_decide_eq_false_1 in H1, H2, H3, H4.
  rewrite !decide_False by assumption. reflexivity.
Qed.

(** ** One line of the file through the loop body *)

(** The lookahead on a line that is not a record. *)
Lemma other_lookahead text pre post st :
  file_chars = pre ++ render (Other text) ++ post ->
  shaped (Other text) ->
  current_char_offset st = (length pre + 1)%nat ->
  exists t,
    text = char_at text 0 :: t /\
    (current_char_offset st < length file_chars)%nat /\
    loop_body st = skip_branch st /\
    n3dc_obj_seek_end_of_line file_chars (current_char_offset st)
    = ([], Ok (length pre + length text)%nat).
Proof.
  intros Hfile (Hne & Hnl & Htag) Hcur.
  destruct text as [|c1 t]; [contradiction|]. exists t.
  apply not_elem_of_cons in Hnl as [Hc1 Hnl].
  split; [reflexivity|].
  destruct (t ++ [LF]) as [|c2 r] eqn:Ht; [destruct t; discriminate|].
  destruct (lookahead pre c1 c2 (r ++ post) st) as (H1 & H2 & Hlt).
  { rewrite Hfile. simpl. rewrite Ht. list_eq. }
  { assumption. }
  split; [assumption|]. split.
  - apply dispatch_skip. rewrite H1, H2.
    simpl in Htag. rewrite Ht in Htag. exact Htag.
  - rewrite Hcur.
    replace (length pre + 1)%nat with (length (pre ++ [c1])) by list_len.
    rewrite (seek_line file_chars (pre ++ [c1]) t post).
    + do 2 f_equal. list_len.
    + rewrite Hfile. list_eq.
    + assumption.
Qed.

(** A completed iteration on a line of the file ends on the next line, and
    only the counter of the line's kind has moved. *)
Lemma line_step l pre post st st' :
  file_chars = pre ++ render l ++ post -> shaped l ->
  Inv st -> current_char_offset st = (length pre + 1)%nat ->
  loop_body st = Next st' ->
  current_char_offset st' = (length pre + length (render l) + 1)%nat /\
  Inv st' /\
  parsed_vertices st' = uint (parsed_vertices st + count is_position [l]) /\
  parsed_texture_coords st'
  = uint (parsed_texture_coords st + count is_texture_coord [l]) /\
  parsed_normals st' = uint (parsed_normals st + count is_normal [l]) /\
  parsed_indices st' = parsed_indices st + 3 * count is_face [l] /\
  printed st' = printed st.
Proof.
  intros Hfile Hshape HInv Hcur Hbody.
  pose proof HInv as (_ & (_ & _ & Pv) & (_ & _ & Pt) & (_ & _ & Pn) & _).
  destruct l as [body|body|body|g1 g2 g3|text].
  - destruct (lookahead pre "v"%char SP (body ++ LF :: post) st)
      as (H1 & H2 & Hlt); [rewrite Hfile; list_eq|assumption|].
    rewrite dispatch_vertex in Hbody by assumption.
    apply vertex_branch_Next in Hbody
      as (p & x & y & z & le & Hscan & Hc' & HInv' & Hpv & Hpt & Hpn & Hpi & Hpr);
      [|assumption].
    rewrite Hcur in Hscan.
    replace (length pre + 1 + 1)%nat
      with (length (pre ++ ["v"%char; SP])) in Hscan by list_len.
    apply (parse_vec3_line _ _ body post) in Hscan as [-> ->];
      [|rewrite Hfile; list_eq|assumption].
    rewrite app_nil_r in Hpr. counters. rewrite Hc'. list_len.
  - destruct (lookahead pre "v"%char "t"%char (SP :: body ++ LF :: post) st)
      as (H1 & H2 & Hlt); [rewrite Hfile; list_eq|assumption|].
    rewrite dispatch_texture_coord in Hbody by assumption.
    apply texture_coord_branch_Next in Hbody
      as (p & x & y & le & Hscan & Hc' & HInv' & Hpv & Hpt & Hpn & Hpi & Hpr);
      [|assumption].
    rewrite Hcur in Hscan.
    replace (length pre + 1 + 2)%nat
      with (length (pre ++ ["v"%char; "t"%char; SP])) in Hscan by list_len.
    apply (parse_vec2_line _ _ body post) in Hscan as [-> ->];
      [|rewrite Hfile; list_eq|assumption].
    rewrite app_nil_r in Hpr. counters. rewrite Hc'. list_len.
  - destruct (lookahead pre "v"%char "n"%char (SP :: body ++ LF :: post) st)
      as (H1 & H2 & Hlt); [rewrite Hfile; list_eq|assumption|].
    rewrite dispatch_normal in Hbody by assumption.
    apply normal_branch_Next in Hbody
      as (p & x & y & z & le & Hscan & Hc' & HInv' & Hpv & Hpt & Hpn & Hpi & Hpr);
      [|assumption].
    rewrite Hcur in Hscan.
    replace (length pre + 1 + 2)%nat
      with (length (pre ++ ["v"%char; "n"%char; SP])) in Hscan by list_len.
    apply (parse_vec3_line _ _ body post) in Hscan as [-> ->];
      [|rewrite Hfile; list_eq|assumption].
    rewrite app_nil_r in Hpr. counters. rewrite Hc'. list_len.
  - destruct (render_group_cons g1) as [t1 Ht1].
    destruct (lookahead pre "f"%char SP
                (t1 ++ render_group g2 ++ render_group g3 ++ LF :: post) st)
      as (H1 & H2 & Hlt); [rewrite Hfile; simpl; rewrite Ht1; list_eq|assumption|].
    rewrite dispatch_face in Hbody by assumption.
    apply face_branch_Next in Hbody
      as (p & c1 & c2 & c3 & le & Hscan & Hc' & HInv' & Hpv & Hpt & Hpn & Hpi & Hpr);
      [|assumption].
    rewrite Hcur in Hscan.
    apply (face_shaped_Some _ _ g1 g2 g3 post) in Hscan as [-> ->];
      [|assumption|assumption].
    rewrite app_nil_r in Hpr. counters.
    rewrite Hc'. simpl. lia.
  - destruct (other_lookahead text pre post st)
      as (t & Ht & Hlt & Hdisp & Hseek); try assumption.
    rewrite Hdisp in Hbody.
    apply skip_branch_Next in Hbody
      as (le & Hscan & Hc' & HInv' & Hpv & Hpt & Hpn & Hpi & Hpr);
      [|assumption].
    rewrite Hseek in Hscan. injection Hscan as <-.
    counters. rewrite Hc'. list_len.
Qed.

(** With room in the pools a well-formed line is accepted. *)
Lemma line_ok l pre post st :
  file_chars = pre ++ render l ++ post -> wf l ->
  Inv st -> current_char_offset st = (length pre + 1)%nat ->
  room [l] st ->
  exists st', loop_body st = Next st'.
Proof.
  intros Hfile Hwf HInv Hcur (Rv & Rt & Rn & Ri).
  pose proof HInv as (_ & (_ & _ & Pv) & (_ & _ & Pt) & (_ & _ & Pn) & _).
  unfold count in Rv, Rt, Rn, Ri.
  destruct l as [body|body|body|g1 g2 g3|text]; simpl in Rv, Rt, Rn, Ri.
  - destruct Hwf as [Hok Hsp].
    destruct (lookahead pre "v"%char SP (body ++ LF :: post) st)
      as (H1 & H2 & Hlt); [rewrite Hfile; list_eq|assumption|].
    rewrite dispatch_vertex by assumption.
    destruct (parse_vec3_line_ok file_chars (pre ++ ["v"%char; SP]) body post)
      as (x & y & z & Hscan); [rewrite Hfile; list_eq|assumption|assumption|].
    eapply vertex_branch_ok; [assumption|rewrite uint_small; lia|].
    rewrite Hcur.
    replace (length pre + 1 + 1)%nat
      with (length (pre ++ ["v"%char; SP])) by list_len.
    exact Hscan.
  - destruct Hwf as [Hok Hsp].
    destruct (lookahead pre "v"%char "t"%char (SP :: body ++ LF :: post) st)
      as (H1 & H2 & Hlt); [rewrite Hfile; list_eq|assumption|].
    rewrite dispatch_texture_coord by assumption.
    destruct (parse_vec2_line_ok file_chars
                (pre ++ ["v"%char; "t"%char; SP]) body post)
      as (x & y & Hscan); [rewrite Hfile; list_eq|assumption|assumption|].
    eapply texture_coord_branch_ok; [assumption|rewrite uint_small; lia|].
    rewrite Hcur.
    replace (length pre + 1 + 2)%nat
      with (length (pre ++ ["v"%char; "t"%char; SP])) by list_len.
    exact Hscan.
  - destruct Hwf as [Hok Hsp].
    destruct (lookahead pre "v"%char "n"%char (SP :: body ++ LF :: post) st)
      as (H1 & H2 & Hlt); [rewrite Hfile; list_eq|assumption|].
    rewrite dispatch_normal by assumption.
    destruct (parse_vec3_line_ok file_chars
                (pre ++ ["v"%char; "n"%char; SP]) body post)
      as (x & y & z & Hscan); [rewrite Hfile; list_eq|assumption|assumption|].
    eapply normal_branch_ok; [assumption|rewrite uint_small; lia|].
    rewrite Hcur.
    replace (length pre + 1 + 2)%nat
      with (length (pre ++ ["v"%char; "n"%char; SP])) by list_len.
    exact Hscan.
  - destruct Hwf as (W1 & W2 & W3).
    destruct (render_group_cons g1) as [t1 Ht1].
    destruct (lookahead pre "f"%char SP
                (t1 ++ render_group g2 ++ render_group g3 ++ LF :: post) st)
      as (H1 & H2 & Hlt); [rewrite Hfile; simpl; rewrite Ht1; list_eq|assumption|].
    rewrite dispatch_face by assumption.
    destruct (face_wf file_chars pre g1 g2 g3 post Hfile W1 W2 W3)
      as (c1 & c2 & c3 & Hscan & _).
    rewrite <- Hcur in Hscan.
    apply (face_branch_in_bounds st _ _ _ HInv) in Hscan; [assumption|lia].
  - destruct (other_lookahead text pre post st)
      as (t & Ht & Hlt & Hdisp & Hseek); try assumption.
    rewrite Hdisp. unfold skip_branch. rewrite Hseek. eauto.
Qed.

(** ** A list of lines through the driver loop *)

Lemma Inv_initial : Inv initial_state.
Proof.
  unfold Inv, initial_state, malloc. simpl.
  rewrite !length_replicate, !Z2Nat.id by lia.
  repeat split; try lia; try reflexivity.
  exists 0. reflexivity.
Qed.

(** Well-formed lines that fit in the pools are all accepted: the loop
    reaches the end of the last of them with nothing printed. *)
Lemma lines_run ls : forall pre post st,
  Forall wf ls ->
  file_chars = pre ++ render_all ls ++ post ->
  Inv st -> current_char_offset st = (length pre + 1)%nat ->
  room ls st ->
  exists st',
    run_from st = run_from st' /\
    current_char_offset st' = (length pre + length (render_all ls) + 1)%nat /\
    Inv st' /\ counted ls st st' /\ printed st' = printed st.
Proof.
  induction ls as [|l ls IH]; intros pre post st Hwf Hfile HInv Hcur Hroom.
  - exists st. split; [reflexivity|]. split; [rewrite Hcur; list_len|].
    split; [assumption|]. unfold counted, count. simpl.
    repeat split; lia.
  - apply Forall_cons in Hwf as [Hl Hls].
    rewrite render_all_cons, <- app_assoc in Hfile.
    destruct Hroom as (Rv & Rt & Rn & Ri).
    rewrite (count_cons is_position l ls) in Rv.
    rewrite (count_cons is_texture_coord l ls) in Rt.
    rewrite (count_cons is_normal l ls) in Rn.
    rewrite (count_cons is_face l ls) in Ri.
    pose proof (count_range is_position ls).
    pose proof (count_range is_texture_coord ls).
    pose proof (count_range is_normal ls).
    pose proof (count_range is_face ls).
    pose proof (count_range is_position [l]).
    pose proof (count_range is_texture_coord [l]).
    pose proof (count_range is_normal [l]).
    pose proof (count_range is_face [l]).
    pose proof HInv as (_ & (_ & _ & Pv) & (_ & _ & Pt) & (_ & _ & Pn) & _).
    destruct (line_ok l pre (render_all ls ++ post) st) as [st1 Hbody];
      try assumption.
    { unfold room. lia. }
    pose proof (render_length l (wf_shaped l Hl)) as Hlen.
    assert (current_char_offset st < length file_chars)%nat as Hlt.
    { rewrite Hfile, Hcur. list_len. }
    destruct (line_step l pre (render_all ls ++ post) st st1)
      as (Hc1 & HInv1 & Hpv & Hpt & Hpn & Hpi & Hpr);
      try assumption; [apply wf_shaped; assumption|].
    rewrite uint_small in Hpv, Hpt, Hpn by lia.
    destruct (IH (pre ++ render l) post st1) as
      (st' & Hrun & Hc' & HInv' & (Cv & Ct & Cn & Ci) & Hpr'); try assumption.
    { rewrite Hfile. list_eq. }
    { rewrite Hc1. list_len. }
    { unfold room. lia. }
    exists st'. split; [|split; [|split; [assumption|split]]].
    + rewrite (run_from_Next st st1) by assumption. assumption.
    + rewrite Hc', render_all_cons. list_len.
    + unfold counted.
      rewrite (count_cons is_position l ls), (count_cons is_texture_coord l ls),
        (count_cons is_normal l ls), (count_cons is_face l ls).
      lia.
    + congruence.
Qed.

(** If the loop runs to its end over shaped lines, every face line has
    added exactly three corners. *)
Lemma lines_Ok ls : forall pre st p st_f,
  Forall shaped ls ->
  file_chars = pre ++ render_all ls ->
  Inv st -> current_char_offset st = (length pre + 1)%nat ->
  run_from st = Some (p, Ok st_f) ->
  parsed_indices st_f = parsed_indices st + 3 * count is_face ls.
Proof.
  induction ls as [|l ls IH]; intros pre st p st_f Hsh Hfile HInv Hcur Hrun.
  - rewrite run_from_end in Hrun by (rewrite Hfile, Hcur; list_len).
    injection Hrun as _ <-. unfold count. simpl. lia.
  - apply Forall_cons in Hsh as [Hl Hls].
    rewrite render_all_cons in Hfile.
    pose proof (render_length l Hl) as Hlen.
    assert (current_char_offset st < length file_chars)%nat as Hlt.
    { rewrite Hfile, Hcur. list_len. }
    destruct (loop_body st) as [st1|q|q u] eqn:Hbody.
    + rewrite (run_from_Next st st1) in Hrun by assumption.
      destruct (line_step l pre (render_all ls) st st1)
        as (Hc1 & HInv1 & _ & _ & _ & Hpi & _); try assumption.
      rewrite (IH (pre ++ render l) st1 p st_f); try assumption.
      * rewrite Hpi, (count_cons _ l ls). lia.
      * rewrite Hfile. list_eq.
      * rewrite Hc1. list_len.
    + rewrite (run_from_Break st q) in Hrun by assumption. discriminate.
    + rewrite (run_from_Crash st q u) in Hrun by assumption. discriminate.
Qed.

(** The load in terms of the loop run from the initial state. *)
Lemma load_run_from :
  n3dc_obj_load
  = match run_from initial_state with
    | None => None
    | Some (p, Ok st) =>
      match resolve st with
      | Ok obj => Some (p, Ok obj)
      | Err => Some (p, Err)
      | Undef u => Some (p, Undef u)
      end
    | Some (p, Err) => Some (p, Err)
    | Some (p, Undef u) => Some (p, Undef u)
    end.
Proof.
  unfold n3dc_obj_load. rewrite scan_loop_run_from by (simpl; lia).
  reflexivity.
Qed.

(** The model of the load always returns. *)
Lemma n3dc_obj_load_total : n3dc_obj_load <> None.
Proof.
  rewrite load_run_from. pose proof (run_from_total initial_state) as Ht.
  destruct (run_from initial_state) as [[p [st| |u]]|]; try done.
  destruct (resolve st); done.
Qed.

(** Over a file without records that ends with a newline the loop only
    skips lines, and ends with the counters it started from. *)
Lemma skip_run n : forall st,
  no_records file_chars = true -> last file_chars = Some LF ->
  (length file_chars - current_char_offset st <= n)%nat ->
  (1 <= current_char_offset st)%nat ->
  current_char_offset st = 1%nat
  \/ file_chars !! (current_char_offset st - 2)%nat = Some LF ->
  exists st',
    run_from st = Some (printed st, Ok st') /\
    parsed_indices st' = parsed_indices st.
Proof.
  induction n as [|n IH]; intros st Hno Hlast Hn Hc Hstart.
  - exists st. split; [apply run_from_end; lia|reflexivity].
  - destruct (decide (current_char_offset st < length file_chars)%nat)
      as [Hlt|Hge]; [|exists st; split; [apply run_from_end; lia|reflexivity]].
    assert (loop_body st = skip_branch st) as Hdisp.
    { apply dispatch_skip.
      pose proof (no_record_from_at file_chars true
                    (current_char_offset st - 1) Hno) as Htag.
      replace (current_char_offset st - 1 + 1)%nat
        with (current_char_offset st) in Htag by lia.
      apply Htag; [lia|].
      destruct Hstart as [->|Hprev]; [left; done|].
      destruct (decide (current_char_offset st = 1%nat)) as [->|Hne];
        [left; done|].
      right. split; [lia|].
      replace (current_char_offset st - 1 - 1)%nat
        with (current_char_offset st - 2)%nat by lia.
      assumption. }
    destruct (seek_terminated file_chars (current_char_offset st) Hlast Hlt)
      as (le & Hseek & Hle & Hat).
    assert (loop_body st = Next (after_skip st [] le)) as Hbody.
    { rewrite Hdisp. unfold skip_branch. rewrite Hseek. reflexivity. }
    destruct (IH (after_skip st [] le) Hno Hlast) as (st' & Hrun & Hpi).
    { unfold after_skip, after_face. simpl. lia. }
    { unfold after_skip, after_face. simpl. lia. }
    { right. unfold after_skip, after_face. simpl.
      replace (le + 2 - 2)%nat with le by lia. assumption. }
    exists st'. rewrite (run_from_Next st _ Hlt Hbody). split.
    + rewrite Hrun. unfold after_skip, after_face. simpl.
      rewrite app_nil_r. reflexivity.
    + rewrite Hpi. reflexivity.
Qed.

(** ** The load on a file that begins with well-formed lines *)

Lemma prefix_run ls post :
  Forall wf ls ->
  file_chars = render_all ls ++ post ->
  count is_position ls <= max_vertices ->
  count is_texture_coord ls <= max_indices ->
  count is_normal ls <= max_normals ->
  3 * count is_face ls <= max_indices ->
  exists st,
    run_from initial_state = run_from st /\
    current_char_offset st = (length (render_all ls) + 1)%nat /\
    Inv st /\
    parsed_vertices st = count is_position ls /\
    parsed_texture_coords st = count is_texture_coord ls /\
    parsed_normals st = count is_normal ls /\
    parsed_indices st = 3 * count is_face ls /\
    printed st = [].
Proof.
  intros Hwf Hfile Rv Rt Rn Ri.
  destruct (lines_run ls [] post initial_state)
    as (st & Hrun & Hc & HInv & (Cv & Ct & Cn & Ci) & Hpr);
    try assumption; try reflexivity.
  { apply Inv_initial. }
  { unfold room. simpl. lia. }
  exists st. simpl in *.
  split; [assumption|]. split; [assumption|]. split; [assumption|].
  repeat split; try assumption; lia.
Qed.

Lemma load_Break st p :
  run_from initial_state = run_from st ->
  (current_char_offset st < length file_chars)%nat ->
  loop_body st = Break p ->
  n3dc_obj_load = Some (p, Err).
Proof.
  intros Hrun Hlt Hbody. rewrite load_run_from, Hrun.
  rewrite (run_from_Break st p) by assumption. reflexivity.
Qed.

Lemma vertex_branch_full st :
  uint (parsed_vertices st + 1) > max_vertices ->
  vertex_branch st = Break (printed st ++ [Max_vertices_exceeded]).
Proof. intros H. unfold vertex_branch. rewrite decide_True by assumption. done. Qed.

Lemma texture_coord_branch_full st :
  uint (parsed_texture_coords st + 1) > max_indices ->
  texture_coord_branch st = Break (printed st ++ [Max_texture_coords_exceeded]).
Proof.
  intros H. unfold texture_coord_branch. rewrite decide_True by assumption. done.
Qed.

Lemma vertex_branch_refused st p :
  uint (parsed_vertices st + 1) <= max_vertices ->
  n3dc_obj_parse_obj_vec3 file_chars (current_char_offset st + 1) = (p, None) ->
  vertex_branch st = Break (printed st ++ p).
Proof.
  intros Hcap Hscan. unfold vertex_branch.
  rewrite decide_False by lia. rewrite Hscan. reflexivity.
Qed.

Lemma normal_branch_refused st p :
  uint (parsed_normals st + 1) <= max_normals ->
  n3dc_obj_parse_obj_vec3 file_chars (current_char_offset st + 2) = (p, None) ->
  normal_branch st = Break (printed st ++ p).
Proof.
  intros Hcap Hscan. unfold normal_branch.
  rewrite decide_False by lia. rewrite Hscan. reflexivity.
Qed.

Lemma texture_coord_branch_refused st p :
  uint (parsed_texture_coords st + 1) <= max_indices ->
  n3dc_obj_parse_obj_vec2 file_chars (current_char_offset st + 2) = (p, None) ->
  texture_coord_branch st = Break (printed st ++ p).
Proof.
  intros Hcap Hscan. unfold texture_coord_branch.
  rewrite decide_False by lia. rewrite Hscan. reflexivity.
Qed.

(** ** What every run of the loop keeps *)

Lemma normal_branch_full st :
  uint (parsed_normals st + 1) > max_normals ->
  normal_branch st = Break (printed st ++ [Max_normals_exceeded]).
Proof. intros H. unfold normal_branch. rewrite decide_True by assumption. done. Qed.

Lemma face_branch_full st :
  uint (parsed_indices st + 3) > max_indices ->
  face_branch st = Break (printed st ++ [Max_indices_exceeded]).
Proof. intros H. unfold face_branch. rewrite decide_True by assumption. done. Qed.

Lemma vertex_branch_not_Crash st p u : Inv st -> vertex_branch st <> Crash p u.
Proof.
  intros HInv H.
  destruct (decide (uint (parsed_vertices st + 1) > max_vertices)) as [Hfull|Hroom].
  - rewrite vertex_branch_full in H by assumption. discriminate.
  - destruct (n3dc_obj_parse_obj_vec3 file_chars (current_char_offset st + 1))
      as [q [[[[x y] z] le]|]] eqn:Hs.
    + destruct (vertex_branch_ok st q x y z le HInv) as [st' Hn];
        [lia|assumption|].
      rewrite Hn in H. discriminate.
    + rewrite (vertex_branch_refused st q) in H; [discriminate|lia|assumption].
Qed.

Lemma normal_branch_not_Crash st p u : Inv st -> normal_branch st <> Crash p u.
Proof.
  intros HInv H.
  destruct (decide (uint (parsed_normals st + 1) > max_normals)) as [Hfull|Hroom].
  - rewrite normal_branch_full in H by assumption. discriminate.
  - destruct (n3dc_obj_parse_obj_vec3 file_chars (current_char_offset st + 2))
      as [q [[[[x y] z] le]|]] eqn:Hs.
    + destruct (normal_branch_ok st q x y z le HInv) as [st' Hn];
        [lia|assumption|].
      rewrite Hn in H. discriminate.
    + rewrite (normal_branch_refused st q) in H; [discriminate|lia|assumption].
Qed.

Lemma texture_coord_branch_not_Crash st p u :
  Inv st -> texture_coord_branch st <> Crash p u.
Proof.
  intros HInv H.
  destruct (decide (uint (parsed_texture_coords st + 1) > max_indices))
    as [Hfull|Hroom].
  - rewrite texture_coord_branch_full in H by assumption. discriminate.
  - destruct (n3dc_obj_parse_obj_vec2 file_chars (current_char_offset st + 2))
      as [q [[[x y] le]|]] eqn:Hs.
    + destruct (texture_coord_branch_ok st q x y le HInv) as [st' Hn];
        [lia|assumption|].
      rewrite Hn in H. discriminate.
    + rewrite (texture_coord_branch_refused st q) in H;
        [discriminate|lia|assumption].
Qed.

(** Below [UINT_MAX] corners the test of the face branch does not wrap. *)
Lemma face_room st :
  Inv st -> max_indices < 2 ^ 32 - 1 ->
  ~ uint (parsed_indices st + 3) > max_indices ->
  parsed_indices st + 3 <= max_indices.
Proof. clear atof atoi.
  intros (_ & _ & _ & _ & (_ & _ & _ & _ & Pi & k & Hk)) Hmax Hroom.
  destruct (decide (parsed_indices st + 3 < 2 ^ 32)) as [Hlt|Hge].
  - rewrite uint_small in Hroom by lia. lia.
  - exfalso. lia.
Qed.

Lemma face_branch_not_Crash st p u :
  Inv st -> max_indices < 2 ^ 32 - 1 -> face_branch st <> Crash p u.
Proof.
  intros HInv Hmax H.
  destruct (decide (uint (parsed_indices st + 3) > max_indices)) as [Hfull|Hroom].
  - rewrite face_branch_full in H by assumption. discriminate.
  - destruct (n3dc_obj_parse_obj_face file_chars (current_char_offset st))
      as [[q cs] r] eqn:Hs.
    pose proof (face_branch_in_bounds st q cs r HInv
                  (face_room st HInv Hmax Hroom) Hs) as Hb.
    destruct r as [le|]; [destruct Hb as [st' Hb]|]; rewrite Hb in H;
      discriminate.
Qed.

Lemma loop_body_Inv st st' : Inv st -> loop_body st = Next st' -> Inv st'.
Proof.
  intros HInv. unfold loop_body. repeat case_decide; intros Hrun.
  - apply vertex_branch_Next in Hrun as (? & ? & ? & ? & ? & _ & _ & HI & _);
      assumption.
  - apply texture_coord_branch_Next in Hrun as (? & ? & ? & ? & _ & _ & HI & _);
      assumption.
  - apply normal_branch_Next in Hrun as (? & ? & ? & ? & ? & _ & _ & HI & _);
      assumption.
  - apply face_branch_Next in Hrun as (? & ? & ? & ? & ? & _ & _ & HI & _);
      assumption.
  - apply skip_branch_Next in Hrun as (? & _ & _ & HI & _); assumption.
Qed.

(** The loop body can only go wrong in the line skip, when no newline is
    left. *)
Lemma loop_body_Crash st p u :
  Inv st -> max_indices < 2 ^ 32 - 1 ->
  (current_char_offset st < length file_chars)%nat ->
  loop_body st = Crash p u ->
  u = Out_of_bounds_read /\ LF ∉ drop (current_char_offset st) file_chars.
Proof.
  intros HInv Hmax Hlt. unfold loop_body. repeat case_decide; intros Hrun.
  - exfalso. eapply vertex_branch_not_Crash; eassumption.
  - exfalso. eapply texture_coord_branch_not_Crash; eassumption.
  - exfalso. eapply normal_branch_not_Crash; eassumption.
  - exfalso. eapply face_branch_not_Crash; eassumption.
  - unfold skip_branch in Hrun.
    destruct (n3dc_obj_seek_end_of_line file_chars (current_char_offset st))
      as [q r] eqn:Hs.
    apply seek_inside in Hs as [-> Hr]; [|assumption].
    destruct r as [le| |u']; [discriminate|contradiction|].
    injection Hrun as _ <-. assumption.
Qed.

(** Every iteration that continues moves the cursor at least two
    characters forward. *)
Lemma loop_body_advance st st' :
  loop_body st = Next st' ->
  (current_char_offset st + 2 <= current_char_offset st')%nat.
Proof.
  unfold loop_body. repeat case_decide.
  - unfold vertex_branch. case_decide; [intros [=]|].
    destruct (n3dc_obj_parse_obj_vec3 _ _) as [p [[[[x y] z] le]|]] eqn:Hs;
      [|intros [=]].
    destruct (store3 _ _ _ _ _ _ _); intros [= <-]. simpl.
    apply parse_vec3_Some in Hs. lia.
  - unfold texture_coord_branch. case_decide; [intros [=]|].
    destruct (n3dc_obj_parse_obj_vec2 _ _) as [p [[[x y] le]|]] eqn:Hs;
      [|intros [=]].
    destruct (_ ≫= _); intros [= <-]. simpl.
    apply parse_vec2_Some in Hs. lia.
  - unfold normal_branch. case_decide; [intros [=]|].
    destruct (n3dc_obj_parse_obj_vec3 _ _) as [p [[[[x y] z] le]|]] eqn:Hs;
      [|intros [=]].
    destruct (store3 _ _ _ _ _ _ _); intros [= <-]. simpl.
    apply parse_vec3_Some in Hs. lia.
  - unfold face_branch. case_decide; [intros [=]|].
    destruct (n3dc_obj_parse_obj_face _ _) as [[p [[c1 c2] c3]] r] eqn:Hs.
    destruct (store3 (vertex_indices st) _ _ _ _ _ _); [|intros [=]].
    destruct (store3 (texture_indices st) _ _ _ _ _ _); [|intros [=]].
    destruct (store3 (normal_indices st) _ _ _ _ _ _); [|intros [=]].
    destruct r as [le|]; intros [= <-]. simpl.
    apply face_Some in Hs. lia.
  - unfold skip_branch.
    destruct (n3dc_obj_seek_end_of_line _ _) as [p [le| |u]] eqn:Hs;
      intros [= <-]. simpl.
    apply seek_Ok in Hs. lia.
Qed.

Lemma scan_loop_half n : forall st fuel,
  (length file_chars - current_char_offset st <= 2 * n)%nat ->
  (n <= fuel)%nat ->
  scan_loop fuel st <> None.
Proof.
  induction n as [|n IH]; intros st fuel Hn Hf.
  - destruct fuel; simpl; rewrite ?decide_False by lia; done.
  - destruct fuel as [|f]; [lia|].
    simpl. case_decide as Hlt; [|done].
    destruct (loop_body st) as [st'| |] eqn:Hbody; [|done|done].
    apply loop_body_advance in Hbody. apply IH; lia.
Qed.

(** What one execution of the loop body adds to the diagnostics. *)
Lemma loop_body_printed st :
  (current_char_offset st < length file_chars)%nat ->
  exists q, Forall (fun d => entry_diag d = false) q /\
    match loop_body st with
    | Next st' =>
      printed st' = printed st ++ q /\ Forall (fun d => group_diag d = true) q
    | Break p => p = printed st ++ q /\ q <> []
    | Crash p u => p = printed st ++ q
    end.
Proof.
  intros Hlt. unfold loop_body. repeat case_decide.
  - unfold vertex_branch. case_decide.
    { exists [Max_vertices_exceeded]. repeat constructor. discriminate. }
    destruct (n3dc_obj_parse_obj_vec3 _ _) as [p [[[[x y] z] le]|]] eqn:Hs.
    + apply parse_vec3_Some in Hs as [-> _]. exists [].
      split; [constructor|].
      destruct (store3 _ _ _ _ _ _ _); simpl; [split; [|constructor]|]; done.
    + apply parse_vec3_None in Hs as (d & -> & Hd & _). exists [d].
      repeat constructor; [assumption|discriminate].
  - unfold texture_coord_branch. case_decide.
    { exists [Max_texture_coords_exceeded]. repeat constructor. discriminate. }
    destruct (n3dc_obj_parse_obj_vec2 _ _) as [p [[[x y] le]|]] eqn:Hs.
    + apply parse_vec2_Some in Hs as [-> _]. exists [].
      split; [constructor|].
      destruct (_ ≫= _); simpl; [split; [|constructor]|]; done.
    + apply parse_vec2_None in Hs as (d & -> & Hd & _). exists [d].
      repeat constructor; [assumption|discriminate].
  - unfold normal_branch. case_decide.
    { exists [Max_normals_exceeded]. repeat constructor. discriminate. }
    destruct (n3dc_obj_parse_obj_vec3 _ _) as [p [[[[x y] z] le]|]] eqn:Hs.
    + apply parse_vec3_Some in Hs as [-> _]. exists [].
      split; [constructor|].
      destruct (store3 _ _ _ _ _ _ _); simpl; [split; [|constructor]|]; done.
    + apply parse_vec3_None in Hs as (d & -> & Hd & _). exists [d].
      repeat constructor; [assumption|discriminate].
  - unfold face_branch. case_decide.
    { exists [Max_indices_exceeded]. repeat constructor. discriminate. }
    destruct (n3dc_obj_parse_obj_face _ _) as [[p [[c1 c2] c3]] r] eqn:Hs.
    apply face_printed in Hs as [Hlive Hr]; [|assumption].
    exists p. split; [assumption|].
    destruct (store3 (vertex_indices st) _ _ _ _ _ _); [|done].
    destruct (store3 (texture_indices st) _ _ _ _ _ _); [|done].
    destruct (store3 (normal_indices st) _ _ _ _ _ _); [|done].
    destruct r as [le|]; simpl; split; done.
  - unfold skip_branch.
    destruct (n3dc_obj_seek_end_of_line _ _) as [p r] eqn:Hs.
    apply seek_inside in Hs as [-> Hr]; [|assumption].
    exists []. split; [constructor|].
    destruct r as [le| |u]; simpl; [split; [|constructor]|contradiction|]; done.
Qed.

(** What a run of the loop has printed when it ends. *)
Lemma scan_loop_printed fuel : forall st p r,
  scan_loop fuel st = Some (p, r) ->
  exists q, p = printed st ++ q /\
    Forall (fun d => entry_diag d = false) q /\
    match r with
    | Ok _ => Forall (fun d => group_diag d = true) q
    | Err => q <> []
    | Undef _ => True
    end.
Proof.
  induction fuel as [|fuel IH]; intros st p r; simpl.
  - case_decide; [intros [=]|]. intros [= <- <-].
    exists []. rewrite app_nil_r. repeat constructor.
  - case_decide as Hlt.
    + destruct (loop_body_printed st Hlt) as (q & Hq & Hbody).
      destruct (loop_body st) as [st'|p'|p' u].
      * destruct Hbody as [Hpr Hg]. intros Hrun.
        apply IH in Hrun as (q' & -> & Hq' & Hr).
        exists (q ++ q'). rewrite Hpr, <- app_assoc.
        split; [reflexivity|]. split; [apply Forall_app; split; assumption|].
        destruct r; [apply Forall_app; split; assumption| |exact I].
        intros Hnil. apply app_eq_nil in Hnil as [_ Hnil]. contradiction.
      * destruct Hbody as [-> Hne]. intros [= <- <-]. exists q. done.
      * subst p'. intros [= <- <-]. exists q. done.
    + intros [= <- <-]. exists []. rewrite app_nil_r. repeat constructor.
Qed.

(** Where a run of the loop from a state of the invariant ends. *)
Lemma scan_loop_Inv fuel : forall st p r,
  Inv st -> scan_loop fuel st = Some (p, r) ->
  match r with
  | Ok st_f => Inv st_f /\ (length file_chars <= current_char_offset st_f)%nat
  | Err => True
  | Undef u =>
    max_indices < 2 ^ 32 - 1 ->
    u = Out_of_bounds_read /\
    exists c, (c < length file_chars)%nat /\ LF ∉ drop c file_chars
  end.
Proof.
  induction fuel as [|fuel IH]; intros st p r HInv; simpl.
  - case_decide; [intros [=]|]. intros [= <- <-]. split; [assumption|lia].
  - case_decide as Hlt.
    + destruct (loop_body st) as [st'|p'|p' u] eqn:Hbody.
      * apply IH. eapply loop_body_Inv; eassumption.
      * intros [= <- <-]. exact I.
      * intros [= <- <-] Hmax.
        destruct (loop_body_Crash st p' u HInv Hmax Hlt Hbody) as [-> Hnl].
        split; [reflexivity|]. eauto.
    + intros [= <- <-]. split; [assumption|lia].
Qed.

Lemma resolve_corner_not_Err st i : resolve_corner st i <> Err.
Proof. clear atof atoi.
  unfold resolve_corner, fetch.
  repeat (match goal with
          | |- context [?l !! ?k] => destruct (l !! k) as [[?|]|]
          end; simpl; try done);
    case_decide; simpl; try done;
  repeat (match goal with
          | |- context [?l !! ?k] => destruct (l !! k) as [[?|]|]
          end; simpl; try done).
Qed.

Lemma resolve_loop_not_Err st count : forall i, resolve_loop st count i <> Err.
Proof. clear atof atoi.
  induction count as [|count IH]; intros i; simpl; [done|].
  pose proof (resolve_corner_not_Err st i) as Hc.
  destruct (resolve_corner st i) as [[[v t] n]| |]; simpl; try done.
  specialize (IH (i + 1)).
  destruct (resolve_loop st count (i + 1)) as [[[vs ts] ns]| |]; simpl; done.
Qed.

Lemma resolve_not_Err st : resolve st <> Err.
Proof. clear atof atoi.
  unfold resolve.
  pose proof (resolve_loop_not_Err st (Z.to_nat (parsed_indices st)) 0) as Hl.
  destruct (resolve_loop _ _ _) as [[[vs ts] ns]| |]; simpl; done.
Qed.

(** The diagnostics and the result of the load, from those of the loop. *)
Lemma load_cases p r :
  n3dc_obj_load = Some (p, r) ->
  (exists st obj, scan_loop (length file_chars) initial_state = Some (p, Ok st)
                  /\ resolve st = Ok obj /\ r = Ok obj) \/
  (scan_loop (length file_chars) initial_state = Some (p, Err) /\ r = Err) \/
  (exists u, r = Undef u /\
     (scan_loop (length file_chars) initial_state = Some (p, Undef u) \/
      exists st, scan_loop (length file_chars) initial_state = Some (p, Ok st)
                 /\ resolve st = Undef u)).
Proof.
  unfold n3dc_obj_load.
  destruct (scan_loop _ _) as [[q [st| |u]]|]; [| | |intros [=]].
  - pose proof (resolve_not_Err st) as Hne.
    destruct (resolve st) as [obj| |u] eqn:Hres; [| contradiction |];
      intros [= <- <-]; eauto 10.
  - intros [= <- <-]. eauto.
  - intros [= <- <-]. eauto 10.
Qed.

(** ** What the pools hold after well-formed lines *)

Local Abbreviation holds := (holds max_vertices max_normals max_indices).

Lemma holds_initial : holds [] initial_state.
Proof.
  unfold holds, initial_state, filled, malloc, count. simpl.
  rewrite !Nat.sub_0_r. repeat split; reflexivity.
Qed.

(** One well-formed line through the loop body: its record, or its three
    corners, are appended to what the pools and the index arrays hold. *)
Lemma line_holds l done pre post st st' :
  file_chars = pre ++ render l ++ post -> wf l -> Forall wf done ->
  Inv st -> current_char_offset st = (length pre + 1)%nat ->
  holds done st -> representable (done ++ [l]) ->
  loop_body st = Next st' ->
  holds (done ++ [l]) st'.
Proof.
  intros Hfile Hwf Hdone HInv Hcur Hholds Hrep Hbody.
  destruct Hholds as ((Cv & Hv) & (Ct & Ht) & (Cn & Hn) & (Ci & Hvi & Hti & Hni)).
  destruct HInv as (_ & (_ & Ov & _) & (_ & Ot & _) & (_ & On & _)
                    & (_ & _ & _ & Oi & _)).
  destruct Hrep as (Rv & Rt & Rn & Ri).
  rewrite count_app in Rv, Rt, Rn, Ri.
  pose proof (count_range is_position done) as Q1.
  pose proof (count_range is_texture_coord done) as Q2.
  pose proof (count_range is_normal done) as Q3.
  pose proof (count_range is_face done) as Q4.
  pose proof (positions_of_length done Hdone) as Lv.
  pose proof (texture_coords_of_length done Hdone) as Lt.
  pose proof (normals_of_length done Hdone) as Ln.
  pose proof (corners_of_length done) as Li.
  unfold holds.
  rewrite !count_app, positions_of_app, texture_coords_of_app, normals_of_app,
    corners_of_app.
  unfold count in *.
  destruct l as [body|body|body|g1 g2 g3|text]; simpl in Rv, Rt, Rn, Ri |- *;
    rewrite ?app_nil_r, ?Z.add_0_r.
  - destruct Hwf as [Hok Hsp].
    destruct (lookahead pre "v"%char SP (body ++ LF :: post) st)
      as (H1 & H2 & Hlt); [rewrite Hfile; list_eq|assumption|].
    rewrite dispatch_vertex in Hbody by assumption.
    destruct (parse_vec3_values (pre ++ ["v"%char; SP]) body post Hok Hsp)
      as (x & y & z & Hscan & ->).
    unfold vertex_branch in Hbody. case_decide as Hcap; [discriminate|].
    rewrite Hcur in Hbody.
    replace (length pre + 1 + 1)%nat
      with (length (pre ++ ["v"%char; SP])) in Hbody by list_len.
    replace file_chars with ((pre ++ ["v"%char; SP]) ++ body ++ LF :: post)
      in Hbody by (rewrite Hfile; list_eq).
    rewrite Hscan in Hbody.
    destruct (store3 _ _ _ _ _ _ _) as [cells|] eqn:Hst; [|discriminate].
    injection Hbody as <-. simpl.
    rewrite Hv in Hst. rewrite Ov, Cv in Hst. unfold count in Hst.
    rewrite (uint_small (3 * _)) in Hst by lia.
    apply store3_filled in Hst;
      [|lia|rewrite uint_small; lia|rewrite uint_add2, uint_small; lia].
    rewrite Cv. unfold count. rewrite uint_small by lia.
    repeat split; try assumption; try lia.
  - destruct Hwf as [Hok Hsp].
    destruct (lookahead pre "v"%char "t"%char (SP :: body ++ LF :: post) st)
      as (H1 & H2 & Hlt); [rewrite Hfile; list_eq|assumption|].
    rewrite dispatch_texture_coord in Hbody by assumption.
    destruct (parse_vec2_values (pre ++ ["v"%char; "t"%char; SP]) body post
                Hok Hsp) as (x & y & Hscan & ->).
    unfold texture_coord_branch in Hbody. case_decide as Hcap; [discriminate|].
    rewrite Hcur in Hbody.
    replace (length pre + 1 + 2)%nat
      with (length (pre ++ ["v"%char; "t"%char; SP])) in Hbody by list_len.
    replace file_chars
      with ((pre ++ ["v"%char; "t"%char; SP]) ++ body ++ LF :: post)
      in Hbody by (rewrite Hfile; list_eq).
    rewrite Hscan in Hbody.
    destruct (_ ≫= _) as [cells|] eqn:Hst; [|discriminate].
    injection Hbody as <-. simpl.
    rewrite Ht in Hst. rewrite Ot, Ct in Hst. unfold count in Hst.
    rewrite (uint_small (2 * _)) in Hst by lia.
    apply store2_filled in Hst; [|lia|rewrite uint_small; lia].
    rewrite Ct. unfold count. rewrite uint_small by lia.
    repeat split; try assumption; try lia.
  - destruct Hwf as [Hok Hsp].
    destruct (lookahead pre "v"%char "n"%char (SP :: body ++ LF :: post) st)
      as (H1 & H2 & Hlt); [rewrite Hfile; list_eq|assumption|].
    rewrite dispatch_normal in Hbody by assumption.
    destruct (parse_vec3_values (pre ++ ["v"%char; "n"%char; SP]) body post
                Hok Hsp) as (x & y & z & Hscan & ->).
    unfold normal_branch in Hbody. case_decide as Hcap; [discriminate|].
    rewrite Hcur in Hbody.
    replace (length pre + 1 + 2)%nat
      with (length (pre ++ ["v"%char; "n"%char; SP])) in Hbody by list_len.
    replace file_chars
      with ((pre ++ ["v"%char; "n"%char; SP]) ++ body ++ LF :: post)
      in Hbody by (rewrite Hfile; list_eq).
    rewrite Hscan in Hbody.
    destruct (store3 _ _ _ _ _ _ _) as [cells|] eqn:Hst; [|discriminate].
    injection Hbody as <-. simpl.
    rewrite Hn in Hst. rewrite On, Cn in Hst. unfold count in Hst.
    rewrite (uint_small (3 * _)) in Hst by lia.
    apply store3_filled in Hst;
      [|lia|rewrite uint_small; lia|rewrite uint_add2, uint_small; lia].
    rewrite Cn. unfold count. rewrite uint_small by lia.
    repeat split; try assumption; try lia.
  - destruct Hwf as (W1 & W2 & W3).
    destruct (render_group_cons g1) as [t1 Ht1].
    destruct (lookahead pre "f"%char SP
                (t1 ++ render_group g2 ++ render_group g3 ++ LF :: post) st)
      as (H1 & H2 & Hlt); [rewrite Hfile; simpl; rewrite Ht1; list_eq|assumption|].
    rewrite dispatch_face in Hbody by assumption.
    pose proof (face_wf_cells file_chars pre g1 g2 g3 post Hfile W1 W2 W3)
      as Hscan.
    rewrite <- Hcur in Hscan.
    unfold face_branch in Hbody. case_decide as Hcap; [discriminate|].
    rewrite Hscan in Hbody. unfold group_cells in Hbody.
    destruct (group_indices g1) as [[v1 t1'] n1].
    destruct (group_indices g2) as [[v2 t2'] n2].
    destruct (group_indices g3) as [[v3 t3'] n3].
    simpl in Hbody.
    destruct (store3 (vertex_indices st) _ _ _ _ _ _) as [vi|] eqn:Svi;
      [|discriminate].
    destruct (store3 (texture_indices st) _ _ _ _ _ _) as [ti|] eqn:Sti;
      [|discriminate].
    destruct (store3 (normal_indices st) _ _ _ _ _ _) as [ni|] eqn:Sni;
      [|discriminate].
    injection Hbody as <-. simpl.
    rewrite Hvi in Svi. rewrite Hti in Sti. rewrite Hni in Sni.
    rewrite Oi, Ci in Svi, Sti, Sni. unfold count in Svi, Sti, Sni.
    unfold INT_MAX in Ri.
    apply store3_filled in Svi;
      [|rewrite length_fmap; lia|rewrite uint_small; lia|rewrite uint_add2, uint_small; lia].
    apply store3_filled in Sti;
      [|rewrite length_fmap; lia|rewrite uint_small; lia|rewrite uint_add2, uint_small; lia].
    apply store3_filled in Sni;
      [|rewrite length_fmap; lia|rewrite uint_small; lia|rewrite uint_add2, uint_small; lia].
    rewrite Ci. unfold count. rewrite uint_small by lia.
    rewrite !fmap_app. simpl.
    repeat split; try assumption; try lia.
  - destruct (other_lookahead text pre post st)
      as (t & Ht' & Hlt & Hdisp & Hseek); try assumption.
    rewrite Hdisp in Hbody. unfold skip_branch in Hbody.
    rewrite Hseek in Hbody. injection Hbody as <-. simpl.
    repeat split; assumption.
Qed.

Lemma representable_prefix ls1 ls2 :
  representable (ls1 ++ ls2) -> representable ls1.
Proof. clear atof atoi.
  unfold representable. rewrite !count_app.
  pose proof (count_range is_position ls2).
  pose proof (count_range is_texture_coord ls2).
  pose proof (count_range is_normal ls2).
  pose proof (count_range is_face ls2). lia.
Qed.

(** Well-formed lines that fit in the pools, through the driver loop: the
    pools and the index arrays end up holding their records and corners. *)
Lemma lines_hold ls : forall done pre post st,
  Forall wf ls -> Forall wf done ->
  file_chars = pre ++ render_all ls ++ post ->
  Inv st -> current_char_offset st = (length pre + 1)%nat ->
  holds done st -> representable (done ++ ls) -> room ls st ->
  exists st',
    run_from st = run_from st' /\
    current_char_offset st' = (length pre + length (render_all ls) + 1)%nat /\
    Inv st' /\ holds (done ++ ls) st' /\ printed st' = printed st.
Proof.
  induction ls as [|l ls IH];
    intros done pre post st Hwf Hdone Hfile HInv Hcur Hholds Hrep Hroom.
  - exists st. rewrite app_nil_r. split; [reflexivity|].
    split; [rewrite Hcur; list_len|]. split; [assumption|]. split; done.
  - apply Forall_cons in Hwf as [Hl Hls].
    rewrite render_all_cons, <- app_assoc in Hfile.
    destruct Hroom as (Rv & Rt & Rn & Ri).
    rewrite (count_cons is_position l ls) in Rv.
    rewrite (count_cons is_texture_coord l ls) in Rt.
    rewrite (count_cons is_normal l ls) in Rn.
    rewrite (count_cons is_face l ls) in Ri.
    pose proof (count_range is_position ls) as Q1.
    pose proof (count_range is_texture_coord ls) as Q2.
    pose proof (count_range is_normal ls) as Q3.
    pose proof (count_range is_face ls) as Q4.
    pose proof (count_range is_position [l]) as Q5.
    pose proof (count_range is_texture_coord [l]) as Q6.
    pose proof (count_range is_normal [l]) as Q7.
    pose proof (count_range is_face [l]) as Q8.
    pose proof HInv as (_ & (_ & _ & Pv) & (_ & _ & Pt) & (_ & _ & Pn) & _).
    destruct (line_ok l pre (render_all ls ++ post) st) as [st1 Hbody];
      try assumption.
    { unfold room. lia. }
    pose proof (render_length l (wf_shaped l Hl)) as Hlen.
    assert (current_char_offset st < length file_chars)%nat as Hlt.
    { rewrite Hfile, Hcur. list_len. }
    destruct (line_step l pre (render_all ls ++ post) st st1)
      as (Hc1 & HInv1 & Hpv & Hpt & Hpn & Hpi & Hpr);
      try assumption; [apply wf_shaped; assumption|].
    rewrite uint_small in Hpv, Hpt, Hpn by lia.
    replace (done ++ l :: ls) with ((done ++ [l]) ++ ls) in Hrep |- *
      by (rewrite <- app_assoc; reflexivity).
    pose proof (line_holds l done pre (render_all ls ++ post) st st1 Hfile Hl
                  Hdone HInv Hcur Hholds (representable_prefix _ _ Hrep) Hbody)
      as Hholds1.
    destruct (IH (done ++ [l]) (pre ++ render l) post st1) as
      (st' & Hrun & Hc' & HInv' & Hholds' & Hpr'); try assumption.
    { apply Forall_app. split; [assumption|]. constructor; [assumption|constructor]. }
    { rewrite Hfile. list_eq. }
    { rewrite Hc1. list_len. }
    { unfold room. lia. }
    exists st'. split; [|split; [|split; [assumption|split; [assumption|]]]].
    + rewrite (run_from_Next st st1) by assumption. assumption.
    + rewrite Hc', render_all_cons. list_len.
    + congruence.
Qed.

(** A blank line: the lookahead sits on its newline, and the line skip then
    also takes the line that follows it. *)
Lemma blank_line_step pre t post st :
  file_chars = pre ++ LF :: t ++ LF :: post -> LF ∉ t ->
  current_char_offset st = (length pre + 1)%nat ->
  (current_char_offset st < length file_chars)%nat /\
  loop_body st = Next (after_skip st [] (length pre + 1 + length t)).
Proof.
  intros Hfile Hnl Hcur.
  split; [rewrite Hfile, Hcur; list_len|].
  rewrite dispatch_skip.
  - unfold skip_branch. rewrite Hcur.
    replace (length pre + 1)%nat with (length (pre ++ [LF])) by list_len.
    rewrite (seek_line file_chars (pre ++ [LF]) t post);
      [|rewrite Hfile; list_eq|assumption].
    do 2 f_equal; list_len.
  - rewrite Hcur, Hfile.
    replace (length pre + 1 - 1)%nat with (length pre) by lia.
    rewrite char_at_middle by reflexivity.
    unfold is_record_tag.
    rewrite !bool_decide_eq_false_2; [reflexivity| | | |];
      intros [Hc _]; discriminate.
Qed.

(** ** The resolver after well-formed lines *)

Lemma resolve_corner_holds ls st i v t n :
  holds ls st -> Forall wf ls -> representable ls ->
  corners_of ls !! i = Some (v, t, n) ->
  0 <= v < count is_position ls ->
  0 <= t < count is_texture_coord ls ->
  0 <= n < count is_normal ls ->
  resolve_corner st (Z.of_nat i)
  = Ok (record_scalars 3 (positions_of ls) v,
        record_scalars 2 (texture_coords_of ls) t,
        record_scalars 3 (normals_of ls) n).
Proof.
  intros ((Cv & Hv) & (Ct & Ht) & (Cn & Hn) & (Ci & Hvi & Hti & Hni))
    Hwf (Rv & Rt & Rn & Ri) Hc Bv Bt Bn.
  pose proof (positions_of_length ls Hwf) as Lv.
  pose proof (texture_coords_of_length ls Hwf) as Lt.
  pose proof (normals_of_length ls Hwf) as Ln.
  pose proof (corners_of_length ls) as Li.
  pose proof (lookup_lt_Some _ _ _ Hc) as Hi.
  destruct (fetch_record3 (max_vertices * 3) (positions_of ls) v)
    as (a0 & a1 & a2 & -> & Fa0 & Fa1 & Fa2); try lia.
  destruct (fetch_record2 (max_indices * 2) (texture_coords_of ls) t)
    as (b0 & b1 & -> & Fb0 & Fb1); try lia.
  destruct (fetch_record3 (max_normals * 3) (normals_of ls) n)
    as (c0 & c1 & c2 & -> & Fc0 & Fc1 & Fc2); try lia.
  unfold resolve_corner.
  rewrite Hvi, Hti, Hni, Hv, Ht, Hn.
  rewrite (fetch_filled _ _ _ v);
    [|lia|rewrite Nat2Z.id, list_lookup_fmap, Hc; reflexivity].
  rewrite (fetch_filled _ _ _ t);
    [|lia|rewrite Nat2Z.id, list_lookup_fmap, Hc; reflexivity].
  rewrite (fetch_filled _ _ _ n);
    [|lia|rewrite Nat2Z.id, list_lookup_fmap, Hc; reflexivity].
  simpl. unfold INT_MAX in *. rewrite decide_False by lia.
  rewrite Fa0, Fa1, Fa2, Fb0, Fb1, Fc0, Fc1, Fc2. reflexivity.
Qed.

(** A corner whose vertex index names no record of the file: the resolver
    reads a pool cell that was never written, or one beyond the pool. *)
Lemma resolve_corner_dangling ls st i v t n :
  holds ls st -> Forall wf ls -> representable ls ->
  corners_of ls !! i = Some (v, t, n) ->
  count is_position ls <= v -> 3 * v < 2 ^ 32 ->
  resolve_corner st (Z.of_nat i)
  = Undef (if decide (v < max_vertices) then Uninitialised_read
           else Out_of_bounds_read).
Proof.
  intros ((Cv & Hv) & (Ct & Ht) & (Cn & Hn) & (Ci & Hvi & Hti & Hni))
    Hwf (Rv & Rt & Rn & Ri) Hc Bv Hrep.
  pose proof (positions_of_length ls Hwf) as Lv.
  pose proof (corners_of_length ls) as Li.
  pose proof (lookup_lt_Some _ _ _ Hc) as Hi.
  pose proof (count_range is_position ls) as Q1.
  unfold resolve_corner.
  rewrite Hvi, Hv.
  rewrite (fetch_filled _ _ _ v);
    [|lia|rewrite Nat2Z.id, list_lookup_fmap, Hc; reflexivity].
  simpl. unfold INT_MAX in *. rewrite decide_False by lia.
  rewrite (uint_small (v * 3)) by lia.
  case_decide.
  - rewrite fetch_filled_uninitialised by lia. reflexivity.
  - rewrite fetch_filled_out_of_bounds by lia. reflexivity.
Qed.

Lemma resolve_loop_holds ls st :
  holds ls st -> Forall wf ls -> representable ls -> indices_in_range ls ->
  forall count i,
    (i + count <= length (corners_of ls))%nat ->
    resolve_loop st count (Z.of_nat i)
    = Ok (concat (map (fun '(v, _, _) => record_scalars 3 (positions_of ls) v)
                      (take count (drop i (corners_of ls)))),
          concat (map (fun '(_, t, _) =>
                         record_scalars 2 (texture_coords_of ls) t)
                      (take count (drop i (corners_of ls)))),
          concat (map (fun '(_, _, n) => record_scalars 3 (normals_of ls) n)
                      (take count (drop i (corners_of ls))))).
Proof.
  intros Hholds Hwf Hrep Hin count.
  induction count as [|count IH]; intros i Hlen; simpl; [reflexivity|].
  destruct (lookup_lt_is_Some_2 (corners_of ls) i) as [[[v t] n] Hc]; [lia|].
  pose proof (corners_of_range ls Hwf) as Hpos.
  rewrite Forall_lookup in Hpos. specialize (Hpos _ _ Hc). simpl in Hpos.
  unfold indices_in_range in Hin.
  rewrite Forall_lookup in Hin. specialize (Hin _ _ Hc). simpl in Hin.
  rewrite (resolve_corner_holds ls st i v t n) by (try assumption; lia).
  simpl.
  replace (Z.of_nat i + 1) with (Z.of_nat (S i)) by lia.
  rewrite IH by lia. simpl.
  rewrite (drop_S _ _ _ Hc). reflexivity.
Qed.

Lemma resolve_holds ls st :
  holds ls st -> Forall wf ls -> representable ls -> indices_in_range ls ->
  resolve st = Ok (expanded ls).
Proof.
  intros Hholds Hwf Hrep Hin. unfold resolve.
  pose proof Hholds as (_ & _ & _ & (Ci & _)).
  pose proof (corners_of_length ls) as Li.
  replace (Z.to_nat (parsed_indices st)) with (length (corners_of ls)) by lia.
  rewrite (resolve_loop_holds ls st Hholds Hwf Hrep Hin _ 0) by (simpl; lia).
  simpl. rewrite drop_0, firstn_all. rewrite Ci. reflexivity.
Qed.

(** The corners before the first one whose vertex index names no record
    are resolved, and the resolver goes wrong at that one. *)
Lemma resolve_loop_dangling ls st v t n rest :
  holds ls st -> Forall wf ls -> representable ls ->
  count is_position ls <= v -> 3 * v < 2 ^ 32 ->
  forall good done count,
    corners_of ls = done ++ good ++ (v, t, n) :: rest ->
    Forall (corner_in_range ls) good ->
    (length good < count)%nat ->
    resolve_loop st count (Z.of_nat (length done))
    = Undef (if decide (v < max_vertices) then Uninitialised_read
             else Out_of_bounds_read).
Proof.
  intros Hholds Hwf Hrep Bv Hv3.
  pose proof (corners_of_range ls Hwf) as Hpos.
  induction good as [|[[gv gt] gn] good IH];
    intros done count Hc Hgood Hlen;
    (destruct count as [|count]; [simpl in Hlen; lia|]); simpl.
  - assert (corners_of ls !! length done = Some (v, t, n)) as Hl.
    { rewrite Hc. apply list_lookup_middle. reflexivity. }
    rewrite (resolve_corner_dangling ls st _ v t n) by assumption.
    reflexivity.
  - assert (corners_of ls !! length done = Some (gv, gt, gn)) as Hl.
    { rewrite Hc. apply list_lookup_middle. reflexivity. }
    apply Forall_cons in Hgood as [Hg Hgood].
    rewrite Forall_lookup in Hpos. specialize (Hpos _ _ Hl). simpl in Hpos.
    simpl in Hg.
    rewrite (resolve_corner_holds ls st _ gv gt gn) by (try assumption; lia).
    simpl.
    replace (Z.of_nat (length done) + 1)
      with (Z.of_nat (length (done ++ [(gv, gt, gn)]))) by list_len.
    rewrite (IH (done ++ [(gv, gt, gn)]) count);
      [reflexivity|rewrite Hc; list_eq|assumption|simpl in Hlen; lia].
Qed.

Lemma resolve_dangling ls st good v t n rest :
  holds ls st -> Forall wf ls -> representable ls ->
  corners_of ls = good ++ (v, t, n) :: rest ->
  Forall (corner_in_range ls) good ->
  count is_position ls <= v -> 3 * v < 2 ^ 32 ->
  resolve st
  = Undef (if decide (v < max_vertices) then Uninitialised_read
           else Out_of_bounds_read).
Proof.
  intros Hholds Hwf Hrep Hc Hgood Bv Hv3. unfold resolve.
  pose proof Hholds as (_ & _ & _ & (Ci & _)).
  pose proof (corners_of_length ls) as Li.
  pose proof (resolve_loop_dangling ls st v t n rest Hholds Hwf Hrep Bv Hv3
                good [] (Z.to_nat (parsed_indices st)) Hc Hgood) as Hl.
  simpl in Hl. change (Z.of_nat 0) with 0 in Hl. rewrite Hl; [reflexivity|].
  rewrite Hc in Li. rewrite length_app in Li. simpl in Li. lia.
Qed.

(** The load, from a state the loop ends in. *)
Lemma load_of_final_state st :
  run_from initial_state = run_from st ->
  (length file_chars <= current_char_offset st)%nat ->
  n3dc_obj_load
  = match resolve st with
    | Ok obj => Some (printed st, Ok obj)
    | Err => Some (printed st, Err)
    | Undef u => Some (printed st, Undef u)
    end.
Proof.
  intros Hrun Hend. rewrite load_run_from, Hrun.
  rewrite run_from_end by assumption. reflexivity.
Qed.

(** ** The load on files of well-formed lines *)

(** The run over a file that begins with well-formed lines, with what the
    pools hold when it reaches the end of the last of them. *)
Lemma prefix_holds ls post :
  Forall wf ls ->
  file_chars = render_all ls ++ post ->
  representable ls ->
  count is_position ls <= max_vertices ->
  count is_texture_coord ls <= max_indices ->
  count is_normal ls <= max_normals ->
  3 * count is_face ls <= max_indices ->
  exists st,
    run_from initial_state = run_from st /\
    current_char_offset st = (length (render_all ls) + 1)%nat /\
    Inv st /\ holds ls st /\ printed st = [].
Proof.
  intros Hwf Hfile Hrep Rv Rt Rn Ri.
  destruct (lines_hold ls [] [] post initial_state)
    as (st & Hrun & Hc & HInv & Hholds & Hpr);
    try assumption; try reflexivity.
  { constructor. }
  { apply Inv_initial. }
  { apply holds_initial. }
  { unfold room. simpl. lia. }
  exists st. simpl in *.
  split; [assumption|]. split; [assumption|]. split; [assumption|].
  split; assumption.
Qed.

(** The rest of the load from a state of the run: well-formed lines up to
    the end of the file, then the resolver. *)
Lemma load_rest done ls pre st :
  run_from initial_state = run_from st ->
  file_chars = pre ++ render_all ls ->
  Inv st -> current_char_offset st = (length pre + 1)%nat ->
  holds done st -> printed st = [] ->
  Forall wf done -> Forall wf ls ->
  representable (done ++ ls) ->
  count is_position (done ++ ls) <= max_vertices ->
  count is_texture_coord (done ++ ls) <= max_indices ->
  count is_normal (done ++ ls) <= max_normals ->
  3 * count is_face (done ++ ls) <= max_indices ->
  exists st',
    holds (done ++ ls) st' /\
    n3dc_obj_load
    = match resolve st' with
      | Ok obj => Some ([], Ok obj)
      | Err => Some ([], Err)
      | Undef u => Some ([], Undef u)
      end.
Proof.
  intros Hrun Hfile HInv Hcur Hholds Hpr Hdone Hwf Hrep Rv Rt Rn Ri.
  rewrite count_app in Rv, Rt, Rn, Ri.
  pose proof Hholds as ((Cv & _) & (Ct & _) & (Cn & _) & (Ci & _)).
  destruct (lines_hold ls done pre [] st)
    as (st' & Hrun' & Hc' & HInv' & Hholds' & Hpr');
    try assumption.
  { rewrite app_nil_r. assumption. }
  { unfold room. lia. }
  exists st'. split; [assumption|].
  rewrite (load_of_final_state st').
  - rewrite Hpr', Hpr. reflexivity.
  - congruence.
  - rewrite Hc', Hfile. list_len.
Qed.

End Driver_facts.


(** * Main theorems *)

(** C8.  The numeric token converter reads at most the first 10 characters
    of the half-open range [[start, end_)]: the float and the unsigned
    integer it returns are those of the first [n] characters of the range,
    with [n <= 10], and a range longer than 10 characters (and shorter than
    [2^32], the width of the cast of its length) is cut to its first 10. *)
Theorem converter_reads_first_ten_characters
    (full_string : list ascii) (start end_ : nat) :
  (start <= end_ <= length full_string)%nat ->
  let range := take (end_ - start) (drop start full_string) in
  let n := Z.to_nat (char_count start end_) in
  (n <= 10 /\ n <= end_ - start)%nat /\
  n3dc_obj_string_section_to_float start end_ full_string
  = float_of_double (atof (c_str (take n range ++ [NUL]))) /\
  n3dc_obj_string_section_to_uint start end_ full_string
  = uint (atoi (c_str (take n range ++ [NUL]))) /\
  (Z.of_nat (end_ - start) < 2 ^ 32 -> n = ((end_ - start) `min` 10)%nat).
Proof.
  intros [Hle Hend] range n.
  pose proof (char_count_le start end_ Hle) as Hn.
  assert (n <= 10)%nat as Hten.
  { unfold n, char_count, n3dc_obj_min_uint.
    pose proof (uint_range (Z.of_nat end_ - Z.of_nat start)).
    case_decide; lia. }
  unfold n3dc_obj_string_section_to_float, n3dc_obj_string_section_to_uint.
  assert (string_section start end_ full_string = take n range ++ [NUL]) as ->.
  { unfold string_section, range. fold n.
    rewrite take_take. do 2 f_equal. lia. }
  split; [split; assumption|]. split; [reflexivity|]. split; [reflexivity|].
  intros Hlen. apply char_count_range; assumption.
Qed.

(** C2, as amended.  For a file made of shaped lines, [F] of them face
    lines, a successful load returns [3F] corners, and its arrays hold [9F]
    scalars for the positions, [9F] for the normals and [6F] for the texture
    coordinates: three, three and two scalars per corner. *)
Theorem corner_count_and_array_lengths
    (ls : list line) (max_vertices max_normals max_indices : Z)
    (p : list diag) (obj : n3dc_obj_t) :
  0 <= max_vertices < 2 ^ 32 ->
  0 <= max_normals < 2 ^ 32 ->
  0 <= max_indices < 2 ^ 32 ->
  Forall shaped ls ->
  n3dc_obj_load (render_all ls) max_vertices max_normals max_indices
  = Some (p, Ok obj) ->
  num_vertices obj = 3 * count is_face ls /\
  Z.of_nat (length (vertices obj)) = 9 * count is_face ls /\
  Z.of_nat (length (normals obj)) = 9 * count is_face ls /\
  Z.of_nat (length (texture_coords obj)) = 6 * count is_face ls.
Proof.
  intros Hv Hn Hi Hsh. rewrite load_run_from.
  destruct (run_from _ _ _ _ _) as [[q [st| |u]]|] eqn:Hrun; try discriminate.
  destruct (resolve st) as [o| |u] eqn:Hres; intros [= <- <-].
  apply (lines_Ok (render_all ls) max_vertices max_normals max_indices
           Hv Hn Hi ls []) in Hrun;
    [|assumption|reflexivity|apply Inv_initial; assumption|reflexivity].
  simpl in Hrun. apply resolve_Ok in Hres as (Hnum & Lv & Ln & Lt).
  pose proof (count_range is_face ls).
  rewrite Hnum, Lv, Ln, Lt, Hrun. lia.
Qed.


(** C10.  A file that ends with a newline (or is empty) and in which no line
    begins with a record tag loads successfully, with no corner and empty
    arrays. *)
Theorem file_without_records_loads_empty
    (file_chars : list ascii) (max_vertices max_normals max_indices : Z) :
  newline_terminated file_chars ->
  no_records file_chars = true ->
  n3dc_obj_load file_chars max_vertices max_normals max_indices
  = Some ([], Ok {| num_vertices := 0; vertices := []; normals := [];
                    texture_coords := [] |}).
Proof.
  intros Hterm Hno. rewrite load_run_from.
  assert (exists st,
            run_from file_chars max_vertices max_normals max_indices
              (initial_state max_vertices max_normals max_indices)
            = Some ([], Ok st) /\ parsed_indices st = 0) as (st & -> & Hpi).
  { destruct Hterm as [->|Hlast].
    - eexists. split; [apply run_from_end; simpl; lia|reflexivity].
    - destruct (skip_run file_chars max_vertices max_normals max_indices
                  (length file_chars)
                  (initial_state max_vertices max_normals max_indices))
        as (st & Hrun & Hpi); try assumption; simpl; try lia.
      exists st. split; assumption. }
  unfold resolve. rewrite Hpi. reflexivity.
Qed.

(** * Further theorems *)

(** ** The vector scanners *)

(** X1.  [n3dc_obj_parse_obj_vec3] ends the x field at the first space and
    the y field at the second one; what lies between the second space and
    the newline, further spaces included, is the z field.  Each scalar is
    the conversion of its own field (y and z with the space in front of
    them), nothing is printed, and the line end is the newline. *)
Theorem vec3_fields_end_at_the_first_two_spaces
    (pre a b c post : list ascii) :
  Forall number_char a -> Forall number_char b -> Forall vec_char c ->
  n3dc_obj_parse_obj_vec3 (pre ++ a ++ SP :: b ++ SP :: c ++ LF :: post)
    (length pre)
  = ([], Some (field_float a, field_float (SP :: b), field_float (SP :: c),
               (length pre + length a + length b + length c + 2)%nat)).
Proof. intros Ha Hb Hc. apply parse_vec3_fields; assumption. Qed.

(** X2.  [n3dc_obj_parse_obj_vec2] moves the end of the x field at every
    space: the y field starts at the last space of the record, and the x
    field is everything before it, earlier spaces included. *)
Theorem vec2_fields_end_at_the_last_space (pre a b post : list ascii) :
  Forall vec_char a -> Forall number_char b ->
  n3dc_obj_parse_obj_vec2 (pre ++ a ++ SP :: b ++ LF :: post) (length pre)
  = ([], Some (field_float a, field_float (SP :: b),
               (length pre + length a + length b + 1)%nat)).
Proof. intros Ha Hb. apply parse_vec2_fields; assumption. Qed.

(** X3.  On a record that ends with a newline, the scan of a three-scalar
    record succeeds exactly when the record is made of number characters
    and spaces and has at least two spaces, and the scan of a two-scalar
    record exactly when it is made of such characters and has at least one
    space. *)
Theorem vector_scan_succeeds_iff (pre body post : list ascii) :
  LF ∉ body ->
  ((exists p r,
      n3dc_obj_parse_obj_vec3 (pre ++ body ++ LF :: post) (length pre)
      = (p, Some r))
   <-> Forall vec_char body /\ (2 <= spaces body)%nat) /\
  ((exists p r,
      n3dc_obj_parse_obj_vec2 (pre ++ body ++ LF :: post) (length pre)
      = (p, Some r))
   <-> Forall vec_char body /\ (1 <= spaces body)%nat).
Proof.
  intros Hnl. split; split.
  - intros (p & r & Hrun).
    destruct (decide (Forall vec_char body)) as [Hok|Hbad].
    + split; [assumption|].
      destruct (decide (2 <= spaces body)%nat) as [Hsp|Hsp]; [assumption|].
      destruct (parse_vec3_too_few pre body post Hok) as [d Hd]; [lia|].
      rewrite Hd in Hrun. discriminate.
    + destruct (first_invalid body Hbad) as (good & c & rest & -> & Hgood & Hc).
      rewrite (parse_vec3_line_invalid _ pre good c (rest ++ LF :: post))
        in Hrun; [discriminate|list_eq|assumption|assumption|].
      intros ->. apply Hnl. apply elem_of_app. right. left.
  - intros [Hok Hsp].
    destruct (parse_vec3_line_ok _ pre body post eq_refl Hok Hsp)
      as (x & y & z & Hrun).
    eauto.
  - intros (p & r & Hrun).
    destruct (decide (Forall vec_char body)) as [Hok|Hbad].
    + split; [assumption|].
      destruct (decide (1 <= spaces body)%nat) as [Hsp|Hsp]; [assumption|].
      rewrite (parse_vec2_too_few pre body post Hok) in Hrun by lia.
      discriminate.
    + destruct (first_invalid body Hbad) as (good & c & rest & -> & Hgood & Hc).
      rewrite (parse_vec2_line_invalid _ pre good c (rest ++ LF :: post))
        in Hrun; [discriminate|list_eq|assumption|assumption|].
      intros ->. apply Hnl. apply elem_of_app. right. left.
  - intros [Hok Hsp].
    destruct (parse_vec2_line_ok _ pre body post eq_refl Hok Hsp)
      as (x & y & Hrun).
    eauto.
Qed.

(** X4.  A record with too few fields: with one field both vector scanners
    report that the x element is missing (the first field is only taken as
    x when a space ends it), and with two fields the three-scalar scanner
    reports that the y element is missing. *)
Theorem vector_record_with_too_few_fields (pre a b post : list ascii) :
  Forall number_char a -> Forall number_char b ->
  n3dc_obj_parse_obj_vec3 (pre ++ a ++ LF :: post) (length pre)
  = ([Vec3_x_missing], None) /\
  n3dc_obj_parse_obj_vec3 (pre ++ a ++ SP :: b ++ LF :: post) (length pre)
  = ([Vec3_y_missing], None) /\
  n3dc_obj_parse_obj_vec2 (pre ++ a ++ LF :: post) (length pre)
  = ([Vec2_x_missing], None).
Proof.
  intros Ha Hb. split; [|split].
  - apply parse_vec3_one_field. assumption.
  - apply parse_vec3_two_fields; assumption.
  - apply parse_vec2_one_field. assumption.
Qed.

(** ** The index-group scanner *)

(** X5.  What a successful scan of an index group has found: two ['/']
    after its start, a space or a newline after them, inside the buffer,
    where the group ends; three fields between these that convert to values
    from [1] to [UINT_MAX]; and it has stored each value less one and
    printed nothing. *)
Theorem index_group_scan_postcondition
    (file : list ascii) (s : nat) (p : list diag) (cells : index_group)
    (e : nat) :
  n3dc_obj_parse_obj_index_group file s = (p, cells, Some e) ->
  p = [] /\ (s < e < length file)%nat /\
  (char_at file e = SP \/ char_at file e = LF) /\
  exists ve te,
    (s <= ve < te)%nat /\ (te < e)%nat /\
    char_at file ve = SLASH /\ char_at file te = SLASH /\
    let v := n3dc_obj_string_section_to_uint s ve file in
    let t := n3dc_obj_string_section_to_uint (ve + 1) te file in
    let n := n3dc_obj_string_section_to_uint (te + 1) e file in
    1 <= v < 2 ^ 32 /\ 1 <= t < 2 ^ 32 /\ 1 <= n < 2 ^ 32 /\
    cells = {| vertex_index := Some (v - 1); texture_index := Some (t - 1);
               normal_index := Some (n - 1) |}.
Proof. apply index_group_post. Qed.

(** X6.  The first field of an index group runs from the start of the scan
    to the first ['/'], whatever lies between them: a space or a newline
    only ends a group once a ['/'] has been seen.  The outcome of the scan
    is that of the conversions of the three fields. *)
Theorem first_index_field_runs_to_the_first_slash
    (pre w b c : list ascii) (term : ascii) (post : list ascii) :
  SLASH ∉ w -> Forall field_char b -> Forall field_char c ->
  term = SP \/ term = LF ->
  n3dc_obj_parse_obj_index_group
    (pre ++ w ++ SLASH :: b ++ SLASH :: c ++ term :: post) (length pre)
  = index_group_result (field_value w) (field_value b) (field_value c)
      (length pre + length w + length b + length c + 2)%nat.
Proof.
  intros Hw Hb Hc Hterm. eapply index_group_fields; eauto.
Qed.

(** X7.  Groups with fewer than three indices are refused.  A group with a
    single ['/'] is reported as lacking its texture index.  When [atoi]
    gives [0] for the empty string, a group whose texture field is empty
    ([v//n]) is reported as having an invalid texture index, and one whose
    normal field is empty ([v/t/]) as having an invalid normal index, after
    the cells of the fields before it have been written. *)
Theorem incomplete_index_groups_are_refused
    (pre a b c : list ascii) (term : ascii) (post : list ascii) :
  atoi [] = 0 ->
  Forall field_char a -> Forall field_char b -> Forall field_char c ->
  term = SP \/ term = LF ->
  field_value (SP :: a) <> 0 -> field_value b <> 0 ->
  n3dc_obj_parse_obj_index_group
    (pre ++ SP :: a ++ SLASH :: b ++ term :: post) (length pre)
  = ([Group_texture_missing], untouched, None) /\
  n3dc_obj_parse_obj_index_group
    (pre ++ SP :: a ++ SLASH :: SLASH :: c ++ term :: post) (length pre)
  = ([Group_texture_invalid],
     {| vertex_index := Some (field_value (SP :: a) - 1);
        texture_index := Some 0; normal_index := None |}, None) /\
  n3dc_obj_parse_obj_index_group
    (pre ++ SP :: a ++ SLASH :: b ++ SLASH :: term :: post) (length pre)
  = ([Group_normal_invalid],
     {| vertex_index := Some (field_value (SP :: a) - 1);
        texture_index := Some (field_value b - 1); normal_index := Some 0 |},
     None).
Proof.
  intros Hempty Ha Hb Hc Hterm Hva Hvb.
  assert (SLASH ∉ SP :: a) as Hw.
  { intros Hin. apply elem_of_cons in Hin as [Hin|Hin]; [discriminate|].
    rewrite Forall_forall in Ha. apply Ha in Hin as (Hs & _). congruence. }
  assert (field_value [] = 0) as Hnil.
  { rewrite field_value_nil, Hempty. reflexivity. }
  split; [|split].
  - apply (index_group_two_fields _ pre (SP :: a) b term post);
      [list_eq|assumption|assumption|assumption].
  - rewrite (index_group_fields _ pre (SP :: a) [] c term post);
      [|list_eq|assumption|constructor|assumption|assumption].
    unfold index_group_result.
    rewrite decide_False by assumption. rewrite decide_True by assumption.
    reflexivity.
  - rewrite (index_group_fields _ pre (SP :: a) b [] term post);
      [|list_eq|assumption|assumption|constructor|assumption].
    unfold index_group_result.
    rewrite decide_False by assumption. rewrite decide_False by assumption.
    rewrite decide_True by assumption. reflexivity.
Qed.

(** ** Records that the file ends in *)

Lemma vec3_loop_end_of_file body : forall i xp yp xe ye,
  Forall vec_char body ->
  vec3_loop body i xp yp xe ye = ([Vec3_end_of_file], None).
Proof. clear atof atoi.
  induction body as [|c body IH]; intros i xp yp xe ye Hok; simpl;
    [reflexivity|].
  apply Forall_cons in Hok as [Hc Hok].
  destruct (decide (c = SP)) as [->|Hsp].
  - destruct xp, yp; simpl; apply IH; assumption.
  - rewrite decide_False by (apply vec_char_not_LF; assumption).
    destruct Hc as [?|Hv]; [contradiction|]. rewrite Hv. simpl.
    apply IH; assumption.
Qed.

Lemma vec2_loop_end_of_file body : forall i xp xe,
  Forall vec_char body ->
  vec2_loop body i xp xe = ([Vec2_end_of_file], None).
Proof. clear atof atoi.
  induction body as [|c body IH]; intros i xp xe Hok; simpl; [reflexivity|].
  apply Forall_cons in Hok as [Hc Hok].
  destruct (decide (c = SP)) as [->|Hsp].
  - apply IH; assumption.
  - rewrite decide_False by (apply vec_char_not_LF; assumption).
    destruct Hc as [?|Hv]; [contradiction|]. rewrite Hv. simpl.
    apply IH; assumption.
Qed.

Lemma parse_vec3_end_of_file file pre body :
  file = pre ++ body -> Forall vec_char body ->
  n3dc_obj_parse_obj_vec3 file (length pre) = ([Vec3_end_of_file], None).
Proof. clear atoi.
  intros -> Hok. unfold n3dc_obj_parse_obj_vec3.
  rewrite drop_app_length, vec3_loop_end_of_file by assumption. reflexivity.
Qed.

Lemma parse_vec2_end_of_file file pre body :
  file = pre ++ body -> Forall vec_char body ->
  n3dc_obj_parse_obj_vec2 file (length pre) = ([Vec2_end_of_file], None).
Proof. clear atoi.
  intros -> Hok. unfold n3dc_obj_parse_obj_vec2.
  rewrite drop_app_length, vec2_loop_end_of_file by assumption. reflexivity.
Qed.

(** X8.  A vector record that the file ends in, with no newline after it,
    makes the load fail with the end-of-file diagnostic of its scanner: the
    vector scanners stop at the end of the buffer. *)
Theorem unterminated_vector_record_is_reported
    (ls : list line) (body : list ascii)
    (max_vertices max_normals max_indices : Z) :
  0 <= max_vertices < 2 ^ 32 ->
  0 <= max_normals < 2 ^ 32 ->
  0 <= max_indices < 2 ^ 32 ->
  Forall wf ls ->
  count is_position ls + 1 <= max_vertices ->
  count is_texture_coord ls + 1 <= max_indices ->
  count is_normal ls + 1 <= max_normals ->
  3 * count is_face ls <= max_indices ->
  Forall vec_char body ->
  n3dc_obj_load (render_all ls ++ "v"%char :: SP :: body)
    max_vertices max_normals max_indices
  = Some ([Vec3_end_of_file], Err) /\
  n3dc_obj_load (render_all ls ++ "v"%char :: "t"%char :: SP :: body)
    max_vertices max_normals max_indices
  = Some ([Vec2_end_of_file], Err) /\
  n3dc_obj_load (render_all ls ++ "v"%char :: "n"%char :: SP :: body)
    max_vertices max_normals max_indices
  = Some ([Vec3_end_of_file], Err).
Proof.
  intros Hv Hn Hi Hwf Rv Rt Rn Ri Hok.
  pose proof (count_range is_position ls) as Q1.
  pose proof (count_range is_texture_coord ls) as Q2.
  pose proof (count_range is_normal ls) as Q3.
  split; [|split].
  - set (file_chars := render_all ls ++ "v"%char :: SP :: body).
    destruct (prefix_run file_chars max_vertices max_normals max_indices
                Hv Hn Hi ls ("v"%char :: SP :: body))
      as (st & Hrun & Hc & HInv & Pv & Pt & Pn & Pi & Hpr);
      try assumption; try reflexivity; try lia.
    destruct (lookahead file_chars (render_all ls) "v"%char SP body st)
      as (H1 & H2 & Hlt); [reflexivity|assumption|].
    apply (load_Break file_chars max_vertices max_normals max_indices st);
      [assumption|assumption|].
    rewrite dispatch_vertex by assumption.
    rewrite (vertex_branch_refused _ _ _ [Vec3_end_of_file]).
    + rewrite Hpr. reflexivity.
    + rewrite Pv, uint_small by lia. lia.
    + rewrite Hc.
      replace (length (render_all ls) + 1 + 1)%nat
        with (length (render_all ls ++ ["v"%char; SP])) by list_len.
      apply parse_vec3_end_of_file with (body := body); [|assumption].
      unfold file_chars. list_eq.
  - set (file_chars := render_all ls ++ "v"%char :: "t"%char :: SP :: body).
    destruct (prefix_run file_chars max_vertices max_normals max_indices
                Hv Hn Hi ls ("v"%char :: "t"%char :: SP :: body))
      as (st & Hrun & Hc & HInv & Pv & Pt & Pn & Pi & Hpr);
      try assumption; try reflexivity; try lia.
    destruct (lookahead file_chars (render_all ls) "v"%char "t"%char
                (SP :: body) st)
      as (H1 & H2 & Hlt); [reflexivity|assumption|].
    apply (load_Break file_chars max_vertices max_normals max_indices st);
      [assumption|assumption|].
    rewrite dispatch_texture_coord by assumption.
    rewrite (texture_coord_branch_refused _ _ _ [Vec2_end_of_file]).
    + rewrite Hpr. reflexivity.
    + rewrite Pt, uint_small by lia. lia.
    + rewrite Hc.
      replace (length (render_all ls) + 1 + 2)%nat
        with (length (render_all ls ++ ["v"%char; "t"%char; SP])) by list_len.
      apply parse_vec2_end_of_file with (body := body); [|assumption].
      unfold file_chars. list_eq.
  - set (file_chars := render_all ls ++ "v"%char :: "n"%char :: SP :: body).
    destruct (prefix_run file_chars max_vertices max_normals max_indices
                Hv Hn Hi ls ("v"%char :: "n"%char :: SP :: body))
      as (st & Hrun & Hc & HInv & Pv & Pt & Pn & Pi & Hpr);
      try assumption; try reflexivity; try lia.
    destruct (lookahead file_chars (render_all ls) "v"%char "n"%char
                (SP :: body) st)
      as (H1 & H2 & Hlt); [reflexivity|assumption|].
    apply (load_Break file_chars max_vertices max_normals max_indices st);
      [assumption|assumption|].
    rewrite dispatch_normal by assumption.
    rewrite (normal_branch_refused _ _ _ [Vec3_end_of_file]).
    + rewrite Hpr. reflexivity.
    + rewrite Pn, uint_small by lia. lia.
    + rewrite Hc.
      replace (length (render_all ls) + 1 + 2)%nat
        with (length (render_all ls ++ ["v"%char; "n"%char; SP])) by list_len.
      apply parse_vec3_end_of_file with (body := body); [|assumption].
      unfold file_chars. list_eq.
Qed.

(** X9.  A face of three well-formed groups that the file ends in, with no
    newline after it, makes the load fail, with two diagnostics: the scan
    of the third group reports the end of the file, and the face scanner,
    which does not test that, then reports geometry that is not
    triangulated, because the character it looks at is the space the third
    group began at. *)
Theorem unterminated_face_is_reported_as_not_triangulated
    (ls : list line) (g1 g2 g3 : group)
    (max_vertices max_normals max_indices : Z) :
  0 <= max_vertices < 2 ^ 32 ->
  0 <= max_normals < 2 ^ 32 ->
  0 <= max_indices < 2 ^ 32 ->
  Forall wf ls -> wf_group g1 -> wf_group g2 -> shaped_group g3 ->
  count is_position ls <= max_vertices ->
  count is_texture_coord ls <= max_indices ->
  count is_normal ls <= max_normals ->
  3 * count is_face ls + 3 <= max_indices ->
  n3dc_obj_load
    (render_all ls ++ "f"%char :: render_group g1 ++ render_group g2
       ++ render_group g3)
    max_vertices max_normals max_indices
  = Some ([Group_end_of_file; Face_not_triangulated], Err).
Proof.
  intros Hv Hn Hi Hwf W1 W2 S3 Rv Rt Rn Ri.
  set (file_chars := render_all ls ++ "f"%char :: render_group g1
                       ++ render_group g2 ++ render_group g3).
  pose proof (face_unterminated file_chars (render_all ls) g1 g2 g3
                eq_refl W1 W2 S3) as Hface.
  destruct (prefix_run file_chars max_vertices max_normals max_indices
              Hv Hn Hi ls
              ("f"%char :: render_group g1 ++ render_group g2
                 ++ render_group g3))
    as (st & Hrun & Hc & HInv & Pv & Pt & Pn & Pi & Hpr);
    try assumption; try reflexivity; [lia|].
  destruct (render_group_cons g1) as [t1 Ht1].
  destruct (lookahead file_chars (render_all ls) "f"%char SP
              (t1 ++ render_group g2 ++ render_group g3) st)
    as (H1 & H2 & Hlt); [unfold file_chars; rewrite Ht1; list_eq|assumption|].
  apply (load_Break file_chars max_vertices max_normals max_indices st);
    [assumption|assumption|].
  rewrite dispatch_face by assumption.
  rewrite <- Hc in Hface.
  apply (face_branch_in_bounds file_chars max_vertices max_normals max_indices
           Hi st _ _ _ HInv) in Hface; [|lia].
  rewrite Hface, Hpr. reflexivity.
Qed.

(** X10.  A face line after which the file holds no ['/'] at all, such as
    a face of bare position indices at the end of a file, makes the load
    fail with the end-of-file diagnostic of the index-group scanner: the
    scan of the first group passes over every space and newline in search
    of a ['/']. *)
Theorem face_without_slash_fails
    (ls : list line) (rest : list ascii)
    (max_vertices max_normals max_indices : Z) :
  0 <= max_vertices < 2 ^ 32 ->
  0 <= max_normals < 2 ^ 32 ->
  0 <= max_indices < 2 ^ 32 ->
  Forall wf ls ->
  count is_position ls <= max_vertices ->
  count is_texture_coord ls <= max_indices ->
  count is_normal ls <= max_normals ->
  3 * count is_face ls + 3 <= max_indices ->
  SLASH ∉ rest ->
  n3dc_obj_load (render_all ls ++ "f"%char :: SP :: rest)
    max_vertices max_normals max_indices
  = Some ([Group_end_of_file], Err).
Proof.
  intros Hv Hn Hi Hwf Rv Rt Rn Ri Hrest.
  set (file_chars := render_all ls ++ "f"%char :: SP :: rest).
  destruct (prefix_run file_chars max_vertices max_normals max_indices
              Hv Hn Hi ls ("f"%char :: SP :: rest))
    as (st & Hrun & Hc & HInv & Pv & Pt & Pn & Pi & Hpr);
    try assumption; try reflexivity; [lia|].
  destruct (lookahead file_chars (render_all ls) "f"%char SP rest st)
    as (H1 & H2 & Hlt); [reflexivity|assumption|].
  apply (load_Break file_chars max_vertices max_normals max_indices st);
    [assumption|assumption|].
  rewrite dispatch_face by assumption.
  assert (n3dc_obj_parse_obj_face file_chars (current_char_offset st)
          = ([Group_end_of_file], (untouched, untouched, untouched), None))
    as Hface.
  { unfold n3dc_obj_parse_obj_face. rewrite decide_True by assumption.
    rewrite index_group_without_slash; [reflexivity|].
    rewrite Hc.
    replace (length (render_all ls) + 1)%nat
      with (length (render_all ls ++ ["f"%char])) by list_len.
    replace file_chars with ((render_all ls ++ ["f"%char]) ++ SP :: rest)
      by (unfold file_chars; list_eq).
    rewrite drop_app_length.
    intros Hin. apply elem_of_cons in Hin as [Hin|Hin];
      [discriminate|contradiction]. }
  apply (face_branch_in_bounds file_chars max_vertices max_normals max_indices
           Hi st _ _ _ HInv) in Hface; [|lia].
  rewrite Hface, Hpr. reflexivity.
Qed.

(** ** Capacities *)

(** X11.  With [max_normals = k], a file whose first lines are accepted and
    hold [k] normal records fails at the next ["vn"] record with the
    diagnostic of the normal capacity, whatever follows the tag. *)
Theorem normal_capacity_exceeded
    (ls : list line) (rest : list ascii) (max_vertices k max_indices : Z) :
  0 <= max_vertices < 2 ^ 32 ->
  0 <= k < 2 ^ 32 - 1 ->
  0 <= max_indices < 2 ^ 32 ->
  Forall wf ls ->
  count is_normal ls = k ->
  count is_position ls <= max_vertices ->
  count is_texture_coord ls <= max_indices ->
  3 * count is_face ls <= max_indices ->
  n3dc_obj_load (render_all ls ++ "v"%char :: "n"%char :: rest)
    max_vertices k max_indices
  = Some ([Max_normals_exceeded], Err).
Proof.
  intros Hv Hk Hi Hwf Hcount Rv Rt Ri.
  set (file_chars := render_all ls ++ "v"%char :: "n"%char :: rest).
  assert (0 <= k < 2 ^ 32) as Hk' by lia.
  destruct (prefix_run file_chars max_vertices k max_indices Hv Hk' Hi ls
              ("v"%char :: "n"%char :: rest))
    as (st & Hrun & Hc & HInv & Pv & Pt & Pn & Pi & Hpr);
    try assumption; try reflexivity; [lia|].
  destruct (lookahead file_chars (render_all ls) "v"%char "n"%char rest st)
    as (H1 & H2 & Hlt); [reflexivity|assumption|].
  apply (load_Break file_chars max_vertices k max_indices st);
    [assumption|assumption|].
  rewrite dispatch_normal by assumption.
  rewrite normal_branch_full.
  - rewrite Hpr. reflexivity.
  - rewrite Pn, Hcount, uint_small by lia. lia.
Qed.

(** X12.  The corner capacity is tested three corners at a time, before the
    face is scanned: after accepted lines with [F] faces, a further ["f "]
    record makes the load fail with the diagnostic of the index capacity
    as soon as [max_indices] is below [3F + 3], whatever follows the tag;
    up to two cells of the index arrays then stay unused. *)
Theorem index_capacity_exceeded
    (ls : list line) (rest : list ascii)
    (max_vertices max_normals max_indices : Z) :
  0 <= max_vertices < 2 ^ 32 ->
  0 <= max_normals < 2 ^ 32 ->
  0 <= max_indices < 2 ^ 32 ->
  Forall wf ls ->
  count is_position ls <= max_vertices ->
  count is_texture_coord ls <= max_indices ->
  count is_normal ls <= max_normals ->
  3 * count is_face ls <= max_indices < 3 * count is_face ls + 3 ->
  3 * count is_face ls + 3 < 2 ^ 32 ->
  n3dc_obj_load (render_all ls ++ "f"%char :: SP :: rest)
    max_vertices max_normals max_indices
  = Some ([Max_indices_exceeded], Err).
Proof.
  intros Hv Hn Hi Hwf Rv Rt Rn Ri Hrep.
  set (file_chars := render_all ls ++ "f"%char :: SP :: rest).
  destruct (prefix_run file_chars max_vertices max_normals max_indices
              Hv Hn Hi ls ("f"%char :: SP :: rest))
    as (st & Hrun & Hc & HInv & Pv & Pt & Pn & Pi & Hpr);
    try assumption; try reflexivity; [lia|].
  destruct (lookahead file_chars (render_all ls) "f"%char SP rest st)
    as (H1 & H2 & Hlt); [reflexivity|assumption|].
  apply (load_Break file_chars max_vertices max_normals max_indices st);
    [assumption|assumption|].
  rewrite dispatch_face by assumption.
  rewrite face_branch_full.
  - rewrite Hpr. reflexivity.
  - pose proof (count_range is_face ls). rewrite Pi, uint_small by lia. lia.
Qed.

(** X24.  With [max_vertices = k], a file whose first lines are accepted and
    hold [k] position records fails at the next ["v "] record with the
    capacity diagnosis: the count is incremented and tested before the record
    is scanned, so what follows the tag does not matter. *)
Theorem vertex_capacity_exceeded
    (ls : list line) (rest : list ascii) (k max_normals max_indices : Z) :
  0 <= k < 2 ^ 32 - 1 ->
  0 <= max_normals < 2 ^ 32 ->
  0 <= max_indices < 2 ^ 32 ->
  Forall wf ls ->
  count is_position ls = k ->
  count is_texture_coord ls <= max_indices ->
  count is_normal ls <= max_normals ->
  3 * count is_face ls <= max_indices ->
  n3dc_obj_load (render_all ls ++ "v"%char :: SP :: rest)
    k max_normals max_indices
  = Some ([Max_vertices_exceeded], Err).
Proof.
  intros Hk Hn Hi Hwf Hcount Rt Rn Ri.
  set (file_chars := render_all ls ++ "v"%char :: SP :: rest).
  assert (0 <= k < 2 ^ 32) as Hk' by lia.
  destruct (prefix_run file_chars k max_normals max_indices Hk' Hn Hi ls
              ("v"%char :: SP :: rest))
    as (st & Hrun & Hc & HInv & Pv & Pt & Pn & Pi & Hpr);
    try assumption; try reflexivity; [lia|].
  destruct (lookahead file_chars (render_all ls) "v"%char SP rest st)
    as (H1 & H2 & Hlt); [reflexivity|assumption|].
  apply (load_Break file_chars k max_normals max_indices st);
    [assumption|assumption|].
  rewrite dispatch_vertex by assumption.
  rewrite vertex_branch_full.
  - rewrite Hpr. reflexivity.
  - rewrite Pv, Hcount, uint_small by lia. lia.
Qed.

(** X25.  Texture-coordinate records are counted against [max_indices]:
    a file whose first lines are accepted and hold [max_indices] ["vt"]
    records fails at the next ["vt"] record with the capacity diagnosis,
    whatever the other capacities. *)
Theorem texture_coords_are_checked_against_max_indices
    (ls : list line) (rest : list ascii)
    (max_vertices max_normals max_indices : Z) :
  0 <= max_vertices < 2 ^ 32 ->
  0 <= max_normals < 2 ^ 32 ->
  0 <= max_indices < 2 ^ 32 - 1 ->
  Forall wf ls ->
  count is_texture_coord ls = max_indices ->
  count is_position ls <= max_vertices ->
  count is_normal ls <= max_normals ->
  3 * count is_face ls <= max_indices ->
  n3dc_obj_load (render_all ls ++ "v"%char :: "t"%char :: rest)
    max_vertices max_normals max_indices
  = Some ([Max_texture_coords_exceeded], Err).
Proof.
  intros Hv Hn Hi Hwf Hcount Rv Rn Ri.
  set (file_chars := render_all ls ++ "v"%char :: "t"%char :: rest).
  assert (0 <= max_indices < 2 ^ 32) as Hi' by lia.
  destruct (prefix_run file_chars max_vertices max_normals max_indices
              Hv Hn Hi' ls ("v"%char :: "t"%char :: rest))
    as (st & Hrun & Hc & HInv & Pv & Pt & Pn & Pi & Hpr);
    try assumption; try reflexivity; [lia|].
  destruct (lookahead file_chars (render_all ls) "v"%char "t"%char rest st)
    as (H1 & H2 & Hlt); [reflexivity|assumption|].
  apply (load_Break file_chars max_vertices max_normals max_indices st);
    [assumption|assumption|].
  rewrite dispatch_texture_coord by assumption.
  rewrite texture_coord_branch_full.
  - rewrite Hpr. reflexivity.
  - rewrite Pt, Hcount, uint_small by lia. lia.
Qed.

(** ** Faces with more than three groups *)

(** X26.  After accepted lines, a face record whose three groups are
    followed by a space (a fourth group follows) makes the face scan fail
    with the non-triangulated diagnosis and nothing else, and the whole load
    fails with it. *)
Theorem four_group_face_is_rejected
    (ls : list line) (g1 g2 g3 : group) (rest : list ascii)
    (max_vertices max_normals max_indices : Z) :
  0 <= max_vertices < 2 ^ 32 ->
  0 <= max_normals < 2 ^ 32 ->
  0 <= max_indices < 2 ^ 32 ->
  Forall wf ls -> wf_group g1 -> wf_group g2 -> wf_group g3 ->
  count is_position ls <= max_vertices ->
  count is_texture_coord ls <= max_indices ->
  count is_normal ls <= max_normals ->
  3 * count is_face ls + 3 <= max_indices ->
  let file_chars :=
    render_all ls ++ "f"%char :: render_group g1 ++ render_group g2
      ++ render_group g3 ++ SP :: rest in
  (exists cells,
     n3dc_obj_parse_obj_face file_chars (length (render_all ls) + 1)
     = ([Face_not_triangulated], cells, None)) /\
  n3dc_obj_load file_chars max_vertices max_normals max_indices
  = Some ([Face_not_triangulated], Err).
Proof.
  intros Hv Hn Hi Hwf W1 W2 W3 Rv Rt Rn Ri file_chars.
  destruct (face_four_groups file_chars (render_all ls) g1 g2 g3 rest)
    as (c1 & c2 & c3 & Hface & _); try assumption; try reflexivity.
  split; [eauto|].
  destruct (prefix_run file_chars max_vertices max_normals max_indices
              Hv Hn Hi ls
              ("f"%char :: render_group g1 ++ render_group g2
                 ++ render_group g3 ++ SP :: rest))
    as (st & Hrun & Hc & HInv & Pv & Pt & Pn & Pi & Hpr);
    try assumption; try reflexivity; [lia|].
  destruct (render_group_cons g1) as [t1 Ht1].
  destruct (lookahead file_chars (render_all ls) "f"%char SP
              (t1 ++ render_group g2 ++ render_group g3 ++ SP :: rest) st)
    as (H1 & H2 & Hlt); [unfold file_chars; rewrite Ht1; list_eq|assumption|].
  apply (load_Break file_chars max_vertices max_normals max_indices st);
    [assumption|assumption|].
  rewrite dispatch_face by assumption.
  rewrite <- Hc in Hface.
  apply (face_branch_in_bounds file_chars max_vertices max_normals max_indices
           Hi st _ _ _ HInv) in Hface; [|lia].
  rewrite Hface, Hpr. reflexivity.
Qed.

(** ** The driver loop on any file *)

(** X13.  An iteration of the driver loop that does not end the load moves
    the cursor at least two characters forward, whatever the file holds;
    the loop therefore ends after at most half as many iterations as
    characters are left. *)
Theorem driver_loop_advances
    (file_chars : list ascii) (max_vertices max_normals max_indices : Z) :
  (forall st st',
     loop_body file_chars max_vertices max_normals max_indices st = Next st' ->
     (current_char_offset st + 2 <= current_char_offset st')%nat) /\
  (forall st fuel,
     (length file_chars - current_char_offset st <= 2 * fuel)%nat ->
     scan_loop file_chars max_vertices max_normals max_indices fuel st
     <> None).
Proof.
  split.
  - apply loop_body_advance.
  - intros st fuel Hfuel. apply (scan_loop_half _ _ _ _ fuel); [assumption|lia].
Qed.

(** X14.  A load that fails has printed at least one diagnostic, whatever
    the file and the capacities. *)
Theorem failed_load_prints_a_diagnostic
    (file_chars : list ascii) (max_vertices max_normals max_indices : Z)
    (p : list diag) :
  n3dc_obj_load file_chars max_vertices max_normals max_indices
  = Some (p, Err) ->
  p <> [].
Proof.
  intros Hload.
  apply load_cases in Hload
    as [(st & obj & _ & _ & [=])|[[Hscan _]|(u & [=] & _)]].
  apply scan_loop_printed in Hscan as (q & -> & _ & Hq). exact Hq.
Qed.

(** X15.  A load that succeeds has printed nothing but diagnostics of the
    index-group scanner (those of third groups whose failed scan the face
    scanner did not test). *)
Theorem successful_load_prints_only_group_diagnostics
    (file_chars : list ascii) (max_vertices max_normals max_indices : Z)
    (p : list diag) (obj : n3dc_obj_t) :
  n3dc_obj_load file_chars max_vertices max_normals max_indices
  = Some (p, Ok obj) ->
  Forall (fun d => group_diag d = true) p.
Proof.
  intros Hload.
  apply load_cases in Hload
    as [(st & obj' & Hscan & _ & _)|[[_ [=]]|(u & [=] & _)]].
  apply scan_loop_printed in Hscan as (q & -> & _ & Hq). exact Hq.
Qed.

(** X16.  The load never prints the end-of-file diagnostic of the face
    scanner nor that of the line skip: both scanners are only entered
    inside the buffer, and a group ends inside it. *)
Theorem entry_diagnostics_are_never_printed
    (file_chars : list ascii) (max_vertices max_normals max_indices : Z)
    (p : list diag) (r : outcome n3dc_obj_t) :
  n3dc_obj_load file_chars max_vertices max_normals max_indices
  = Some (p, r) ->
  (Face_end_of_file ∉ p) /\ (Seek_end_of_file ∉ p).
Proof.
  intros Hload.
  assert (exists r', scan_loop file_chars max_vertices max_normals max_indices
                       (length file_chars)
                       (initial_state max_vertices max_normals max_indices)
                     = Some (p, r')) as [r' Hscan].
  { apply load_cases in Hload
      as [(st & obj & Hscan & _)|[[Hscan _]|(u & _ & [Hscan|(st & Hscan & _)])]];
      eauto. }
  apply scan_loop_printed in Hscan as (q & -> & Hq & _). simpl.
  rewrite Forall_forall in Hq.
  split; intros Hin; apply Hq in Hin; discriminate.
Qed.

(** X17.  Whatever the file, a load that succeeds returns a corner count
    that is a multiple of three and at most [max_indices], three scalars
    for each corner in the position and the normal arrays, and two in the
    texture-coordinate array. *)
Theorem successful_load_array_lengths
    (file_chars : list ascii) (max_vertices max_normals max_indices : Z)
    (p : list diag) (obj : n3dc_obj_t) :
  0 <= max_vertices < 2 ^ 32 ->
  0 <= max_normals < 2 ^ 32 ->
  0 <= max_indices < 2 ^ 32 ->
  n3dc_obj_load file_chars max_vertices max_normals max_indices
  = Some (p, Ok obj) ->
  (exists k, 0 <= k /\ num_vertices obj = 3 * k) /\
  num_vertices obj <= max_indices /\
  Z.of_nat (length (vertices obj)) = 3 * num_vertices obj /\
  Z.of_nat (length (normals obj)) = 3 * num_vertices obj /\
  Z.of_nat (length (texture_coords obj)) = 2 * num_vertices obj.
Proof.
  intros Hv Hn Hi Hload.
  apply load_cases in Hload
    as [(st & obj' & Hscan & Hres & [= <-])|[[_ [=]]|(u & [=] & _)]].
  apply (scan_loop_Inv _ _ _ _ Hv Hn Hi) in Hscan as [HInv _];
    [|apply Inv_initial; assumption].
  destruct HInv as (_ & _ & _ & _ & (_ & _ & _ & _ & Pi & k & Hk)).
  apply resolve_Ok in Hres as (-> & Lv & Ln & Lt).
  split; [exists k; split; [lia|assumption]|]. lia.
Qed.

(** X18.  With fewer than [UINT_MAX] corners allowed, every store of the
    driver loop into the three pools and the three index arrays falls inside
    the array, whatever the file holds, and the line skip reads beyond the
    buffer only on a file that does not end with a newline.  A run of the
    loop has no other way to end in [Undef]; the calls of [atof] and [atoi]
    are taken as returning a value. *)
Theorem driver_loop_stores_stay_in_bounds
    (file_chars : list ascii) (max_vertices max_normals max_indices : Z)
    (p : list diag) (u : undefined) :
  0 <= max_vertices < 2 ^ 32 ->
  0 <= max_normals < 2 ^ 32 ->
  0 <= max_indices < 2 ^ 32 - 1 ->
  scan_loop file_chars max_vertices max_normals max_indices
    (length file_chars) (initial_state max_vertices max_normals max_indices)
  = Some (p, Undef u) ->
  u = Out_of_bounds_read /\ ~ newline_terminated file_chars.
Proof.
  intros Hv Hn Hi Hscan.
  assert (0 <= max_indices < 2 ^ 32) as Hi' by lia.
  apply (scan_loop_Inv _ _ _ _ Hv Hn Hi') in Hscan;
    [|apply Inv_initial; assumption].
  destruct Hscan as (-> & c & Hc & Hnl); [lia|].
  split; [reflexivity|]. intros [->|Hlast]; [simpl in Hc; lia|].
  apply Hnl. apply last_in_drop; assumption.
Qed.

(** ** The resolver on any state *)

Lemma resolve_corner_Ok st i vs ts ns :
  resolve_corner st i = Ok (vs, ts, ns) ->
  exists v t n,
    fetch (vertex_indices st) i = Ok v /\
    fetch (texture_indices st) i = Ok t /\
    fetch (normal_indices st) i = Ok n /\
    Ok <$> vs = [fetch (pool_vertices st) (uint (v * 3));
                 fetch (pool_vertices st) (uint (uint (v * 3) + 1));
                 fetch (pool_vertices st) (uint (uint (v * 3) + 2))] /\
    Ok <$> ts = [fetch (pool_texture_coords st) (uint (t * 2));
                 fetch (pool_texture_coords st) (uint (uint (t * 2) + 1))] /\
    Ok <$> ns = [fetch (pool_normals st) (uint (n * 3));
                 fetch (pool_normals st) (uint (uint (n * 3) + 1));
                 fetch (pool_normals st) (uint (uint (n * 3) + 2))].
Proof. clear atof atoi.
  unfold resolve_corner.
  destruct (fetch (vertex_indices st) i) as [v| |] eqn:Ev; simpl;
    try discriminate.
  case_decide as Hov; try discriminate.
  destruct (fetch (pool_vertices st) (uint (v * 3))) as [v0| |] eqn:E0;
    simpl; try discriminate.
  destruct (fetch (pool_vertices st) (uint (uint (v * 3) + 1)))
    as [v1| |] eqn:E1; simpl; try discriminate.
  destruct (fetch (pool_vertices st) (uint (uint (v * 3) + 2)))
    as [v2| |] eqn:E2; simpl; try discriminate.
  destruct (fetch (texture_indices st) i) as [t| |] eqn:Et; simpl;
    try discriminate.
  destruct (fetch (pool_texture_coords st) (uint (t * 2))) as [t0| |] eqn:E3;
    simpl; try discriminate.
  destruct (fetch (pool_texture_coords st) (uint (uint (t * 2) + 1)))
    as [t1| |] eqn:E4; simpl; try discriminate.
  destruct (fetch (normal_indices st) i) as [n| |] eqn:En; simpl;
    try discriminate.
  destruct (fetch (pool_normals st) (uint (n * 3))) as [n0| |] eqn:E5;
    simpl; try discriminate.
  destruct (fetch (pool_normals st) (uint (uint (n * 3) + 1)))
    as [n1| |] eqn:E6; simpl; try discriminate.
  destruct (fetch (pool_normals st) (uint (uint (n * 3) + 2)))
    as [n2| |] eqn:E7; simpl; try discriminate.
  intros [= <- <- <-]. exists v, t, n.
  rewrite E0, E1, E2, E3, E4, E5, E6, E7. repeat split; reflexivity.
Qed.

Lemma resolve_loop_corner st : forall k i0 vs ts ns,
  resolve_loop st k i0 = Ok (vs, ts, ns) ->
  forall j, (j < k)%nat ->
  resolve_corner st (i0 + Z.of_nat j)
  = Ok (take 3 (drop (3 * j) vs), take 2 (drop (2 * j) ts),
        take 3 (drop (3 * j) ns)).
Proof. clear atof atoi.
  induction k as [|k IH]; intros i0 vs ts ns Hrun j Hj; [lia|].
  simpl in Hrun.
  destruct (resolve_corner st i0) as [[[cv ct] cn]| |] eqn:Hc;
    simpl in Hrun; try discriminate.
  destruct (resolve_loop st k (i0 + 1)) as [[[vs' ts'] ns']| |] eqn:Hl;
    simpl in Hrun; try discriminate.
  injection Hrun as <- <- <-.
  destruct (resolve_corner_lengths _ _ _ _ _ Hc) as (Lv & Lt & Ln).
  destruct cv as [|a0 [|a1 [|a2 [|]]]]; try discriminate.
  destruct ct as [|b0 [|b1 [|]]]; try discriminate.
  destruct cn as [|c0 [|c1 [|c2 [|]]]]; try discriminate.
  destruct j as [|j].
  - rewrite Z.add_0_r, Hc. simpl. rewrite !take_0. reflexivity.
  - replace (i0 + Z.of_nat (S j)) with (i0 + 1 + Z.of_nat j) by lia.
    rewrite (IH _ _ _ _ Hl j) by lia.
    replace (3 * S j)%nat with (S (S (S (3 * j)))) by lia.
    replace (2 * S j)%nat with (S (S (2 * j))) by lia.
    reflexivity.
Qed.

(** X19.  When the resolver pass succeeds, corner [i] of the object holds
    the pool cells its indices name: the three cells from offset
    [vertex_indices[i] * 3] of the position pool, the two cells from offset
    [texture_indices[i] * 2] of the texture-coordinate pool, and the three
    cells from offset [normal_indices[i] * 3] of the normal pool, all
    offsets computed in [unsigned int]. *)
Theorem resolver_copies_the_indexed_cells
    (st : scan_state) (obj : n3dc_obj_t) (i : nat) :
  resolve st = Ok obj -> Z.of_nat i < parsed_indices st ->
  exists v t n,
    fetch (vertex_indices st) (Z.of_nat i) = Ok v /\
    fetch (texture_indices st) (Z.of_nat i) = Ok t /\
    fetch (normal_indices st) (Z.of_nat i) = Ok n /\
    Ok <$> take 3 (drop (3 * i) (vertices obj))
    = [fetch (pool_vertices st) (uint (v * 3));
       fetch (pool_vertices st) (uint (uint (v * 3) + 1));
       fetch (pool_vertices st) (uint (uint (v * 3) + 2))] /\
    Ok <$> take 2 (drop (2 * i) (texture_coords obj))
    = [fetch (pool_texture_coords st) (uint (t * 2));
       fetch (pool_texture_coords st) (uint (uint (t * 2) + 1))] /\
    Ok <$> take 3 (drop (3 * i) (normals obj))
    = [fetch (pool_normals st) (uint (n * 3));
       fetch (pool_normals st) (uint (uint (n * 3) + 1));
       fetch (pool_normals st) (uint (uint (n * 3) + 2))].
Proof.
  unfold resolve. intros Hres Hi.
  destruct (resolve_loop st (Z.to_nat (parsed_indices st)) 0)
    as [[[vs ts] ns]| |] eqn:Hl; simpl in Hres; try discriminate.
  injection Hres as <-. simpl.
  pose proof (resolve_loop_corner st _ _ _ _ _ Hl i) as Hc.
  rewrite Z.add_0_l in Hc.
  apply resolve_corner_Ok. apply Hc. lia.
Qed.

(** ** Files of well-formed lines *)

(** X20.  A file of well-formed lines, in any order, whose records fit the
    capacities and whose face indices all name records of the file, loads
    successfully and silently, and the object returned is the expansion of
    its corners: for each corner, in file order, the three scalars of the
    position its vertex index names, the two scalars of the texture
    coordinate and the three scalars of the normal, each record's scalars
    being those its scanner returns on the record. *)
Theorem well_formed_file_loads_expanded
    (ls : list line) (max_vertices max_normals max_indices : Z) :
  0 <= max_vertices < 2 ^ 32 ->
  0 <= max_normals < 2 ^ 32 ->
  0 <= max_indices < 2 ^ 32 ->
  Forall wf ls -> representable ls ->
  count is_position ls <= max_vertices ->
  count is_texture_coord ls <= max_indices ->
  count is_normal ls <= max_normals ->
  3 * count is_face ls <= max_indices ->
  indices_in_range ls ->
  n3dc_obj_load (render_all ls) max_vertices max_normals max_indices
  = Some ([], Ok (expanded ls)).
Proof.
  intros Hv Hn Hi Hwf Hrep Rv Rt Rn Ri Hin.
  destruct (load_rest (render_all ls) max_vertices max_normals max_indices
              Hv Hn Hi [] ls []
              (initial_state max_vertices max_normals max_indices))
    as (st & Hholds & ->); try assumption; try reflexivity.
  { apply Inv_initial; assumption. }
  { apply holds_initial. }
  { constructor. }
  simpl in Hholds.
  rewrite (resolve_holds max_vertices max_normals max_indices ls st);
    [reflexivity|assumption..].
Qed.

(** X21.  Face indices are never compared with the number of records read.
    In a file of well-formed lines that fit the capacities, at the first
    corner whose vertex index names no position record of the file the
    resolver reads a pool cell that was never written when the index is
    below [max_vertices], and a cell beyond the pool otherwise. *)
Theorem index_beyond_the_records_read
    (ls : list line) (good : list (Z * Z * Z)) (v t n : Z)
    (rest : list (Z * Z * Z)) (max_vertices max_normals max_indices : Z) :
  0 <= max_vertices < 2 ^ 32 ->
  0 <= max_normals < 2 ^ 32 ->
  0 <= max_indices < 2 ^ 32 ->
  Forall wf ls -> representable ls ->
  count is_position ls <= max_vertices ->
  count is_texture_coord ls <= max_indices ->
  count is_normal ls <= max_normals ->
  3 * count is_face ls <= max_indices ->
  corners_of ls = good ++ (v, t, n) :: rest ->
  Forall (corner_in_range ls) good ->
  count is_position ls <= v -> 3 * v < 2 ^ 32 ->
  n3dc_obj_load (render_all ls) max_vertices max_normals max_indices
  = Some ([], Undef (if decide (v < max_vertices) then Uninitialised_read
                     else Out_of_bounds_read)).
Proof.
  intros Hv Hn Hi Hwf Hrep Rv Rt Rn Ri Hc Hgood Bv Hv3.
  destruct (load_rest (render_all ls) max_vertices max_normals max_indices
              Hv Hn Hi [] ls []
              (initial_state max_vertices max_normals max_indices))
    as (st & Hholds & ->); try assumption; try reflexivity.
  { apply Inv_initial; assumption. }
  { apply holds_initial. }
  { constructor. }
  simpl in Hholds.
  rewrite (resolve_dangling max_vertices max_normals max_indices ls st
             good v t n rest); [reflexivity|assumption..].
Qed.

(** X22.  After a blank line the loader skips the next line, whatever it
    holds: the lookahead of the driver sits on the newline of the blank
    line, and the line skip runs to the next newline after it.  A file of
    well-formed lines with a blank line and any line [t] after it loads as
    the file without these two lines. *)
Theorem line_after_a_blank_line_is_skipped
    (ls1 : list line) (t : list ascii) (ls2 : list line)
    (max_vertices max_normals max_indices : Z) :
  0 <= max_vertices < 2 ^ 32 ->
  0 <= max_normals < 2 ^ 32 ->
  0 <= max_indices < 2 ^ 32 ->
  Forall wf ls1 -> Forall wf ls2 -> LF ∉ t ->
  representable (ls1 ++ ls2) ->
  count is_position (ls1 ++ ls2) <= max_vertices ->
  count is_texture_coord (ls1 ++ ls2) <= max_indices ->
  count is_normal (ls1 ++ ls2) <= max_normals ->
  3 * count is_face (ls1 ++ ls2) <= max_indices ->
  indices_in_range (ls1 ++ ls2) ->
  n3dc_obj_load (render_all ls1 ++ LF :: t ++ LF :: render_all ls2)
    max_vertices max_normals max_indices
  = Some ([], Ok (expanded (ls1 ++ ls2))).
Proof.
  intros Hv Hn Hi Hwf1 Hwf2 Hnl Hrep Rv Rt Rn Ri Hin.
  set (file_chars := render_all ls1 ++ LF :: t ++ LF :: render_all ls2).
  pose proof Rv as Rv1. pose proof Rt as Rt1.
  pose proof Rn as Rn1. pose proof Ri as Ri1.
  rewrite count_app in Rv1, Rt1, Rn1, Ri1.
  pose proof (count_range is_position ls2).
  pose proof (count_range is_texture_coord ls2).
  pose proof (count_range is_normal ls2).
  pose proof (count_range is_face ls2).
  destruct (prefix_holds file_chars max_vertices max_normals max_indices
              Hv Hn Hi ls1 (LF :: t ++ LF :: render_all ls2))
    as (st1 & Hrun1 & Hc1 & HInv1 & Hholds1 & Hpr1);
    try assumption; try reflexivity; try lia.
  { eapply representable_prefix. eassumption. }
  destruct (blank_line_step file_chars max_vertices max_normals max_indices
              (render_all ls1) t (render_all ls2) st1)
    as [Hlt Hbody]; [reflexivity|assumption|assumption|].
  set (st2 := after_skip st1 [] (length (render_all ls1) + 1 + length t)) in *.
  destruct (load_rest file_chars max_vertices max_normals max_indices
              Hv Hn Hi ls1 ls2 (render_all ls1 ++ LF :: t ++ [LF]) st2)
    as (st & Hholds & ->); try assumption.
  - rewrite Hrun1. apply run_from_Next; assumption.
  - unfold file_chars. list_eq.
  - eapply loop_body_Inv; eassumption.
  - subst st2. unfold after_skip, after_face. simpl. list_len.
  - subst st2. unfold after_skip, after_face. simpl. rewrite Hpr1. reflexivity.
  - rewrite (resolve_holds max_vertices max_normals max_indices
               (ls1 ++ ls2) st);
      [reflexivity|try assumption..].
    apply Forall_app. split; assumption.
Qed.

(** ** The line skip *)

(** X23.  [n3dc_obj_seek_end_of_line] entered inside the buffer returns the
    offset of the first newline at or after its start, having printed
    nothing; with no newline left it reads beyond the buffer; and it
    reports the end of the file only when it is entered at the end of the
    buffer. *)
Theorem line_skip_finds_the_first_newline
    (pre t post : list ascii) (c : ascii) :
  LF ∉ t -> c <> LF ->
  n3dc_obj_seek_end_of_line (pre ++ t ++ LF :: post) (length pre)
  = ([], Ok (length pre + length t)%nat) /\
  n3dc_obj_seek_end_of_line (pre ++ c :: t) (length pre)
  = ([], Undef Out_of_bounds_read) /\
  n3dc_obj_seek_end_of_line pre (length pre) = ([Seek_end_of_file], Err).
Proof.
  intros Ht Hc. split; [|split].
  - apply (seek_line _ pre t post); [reflexivity|assumption].
  - apply seek_without_newline; [list_len|].
    rewrite drop_app_length. intros Hin.
    apply elem_of_cons in Hin as [Hin|Hin]; [congruence|contradiction].
  - unfold n3dc_obj_seek_end_of_line. rewrite decide_False by lia. reflexivity.
Qed.

End Loader.

(** * Concrete files, with the model of the C library *)

(** C1.  The scenario of the specification: one position, one texture
    coordinate, one normal and the face [1/1/1 1/1/1 1/1/1], loaded with
    capacities [(1, 1, 3)], give three corners, each with position
    [(0, 1, 2)], texture coordinate [(1/2, 1/2)] and normal [(0, 0, 1)]. *)
Theorem triangle_scenario :
  exists obj,
    n3dc_obj_load Libc.atof Libc.atoi triangle_obj 1 1 3 = Some ([], Ok obj) /\
    num_vertices obj = 3 /\
    forall i, (i < 3)%nat ->
      take 3 (drop (3 * i) (vertices obj))
      = [float32 0 0; float32 1 0; float32 2 0] /\
      take 2 (drop (2 * i) (texture_coords obj))
      = [float32 1 (-1); float32 1 (-1)] /\
      take 3 (drop (3 * i) (normals obj))
      = [float32 0 0; float32 0 0; float32 1 0].
Proof.
  eexists. split; [vm_compute; reflexivity|]. split; [reflexivity|].
  intros i Hi. destruct i as [|[|[|i]]]; try lia; vm_compute; auto.
Qed.

(** C2, counterexample.  On the scenario file, which has one face line, the
    load succeeds, and it is not the case that the arrays hold [3F], [3F] and
    [2F] scalars: they hold 9, 9 and 6. *)
Lemma scalar_lengths_counterexample :
  ~ (forall p obj,
       n3dc_obj_load Libc.atof Libc.atoi (render_all triangle_lines) 1 1 3
       = Some (p, Ok obj) ->
       num_vertices obj = 3 * count is_face triangle_lines /\
       Z.of_nat (length (vertices obj)) = 3 * count is_face triangle_lines /\
       Z.of_nat (length (normals obj)) = 3 * count is_face triangle_lines /\
       Z.of_nat (length (texture_coords obj))
       = 2 * count is_face triangle_lines).
Proof.
  intros Hclaim.
  assert (exists obj,
            n3dc_obj_load Libc.atof Libc.atoi (render_all triangle_lines) 1 1 3
            = Some ([], Ok obj) /\ length (vertices obj) = 9%nat)
    as (obj & Hload & Hlen)
    by (eexists; split; [vm_compute; reflexivity|reflexivity]).
  apply Hclaim in Hload as (_ & Hv & _). rewrite Hlen in Hv.
  vm_compute in Hv. discriminate.
Qed.

(** The amended C2 on the scenario file. *)
Lemma corner_count_and_array_lengths_witness :
  exists obj,
    n3dc_obj_load Libc.atof Libc.atoi (render_all triangle_lines) 1 1 3
    = Some ([], Ok obj) /\
    num_vertices obj = 3 * count is_face triangle_lines /\
    Z.of_nat (length (vertices obj)) = 9 * count is_face triangle_lines /\
    Z.of_nat (length (normals obj)) = 9 * count is_face triangle_lines /\
    Z.of_nat (length (texture_coords obj)) = 6 * count is_face triangle_lines.
Proof.
  eexists. split; [vm_compute; reflexivity|].
  apply (corner_count_and_array_lengths Libc.atof Libc.atoi
           triangle_lines 1 1 3 []);
    [lia|lia|lia|compute_done|vm_compute; reflexivity].
Defined.

(** C3, the defect.  In [split_face_obj] the third index group of the face
    has a normal field that converts to [0]: its scan is a hard error, yet
    the face scan returns success and the load returns three corners. *)
Theorem zero_index_in_third_group_is_accepted :
  n3dc_obj_parse_obj_index_group Libc.atoi split_face_obj 53
  = ([Group_normal_invalid],
     {| vertex_index := Some 0; texture_index := Some 0;
        normal_index := Some 0 |},
     None) /\
  (exists cells,
     n3dc_obj_parse_obj_face Libc.atoi split_face_obj 41
     = ([Group_normal_invalid], cells, Some 53%nat)) /\
  exists obj,
    n3dc_obj_load Libc.atof Libc.atoi split_face_obj 1 1 3
    = Some ([Group_normal_invalid], Ok obj) /\
    num_vertices obj = 3.
Proof.
  split; [vm_compute; reflexivity|].
  split; eexists; [vm_compute; reflexivity|].
  split; [vm_compute; reflexivity|reflexivity].
Qed.

(** C4, the defect.  On the scenario with a fourth index group the face scan
    fails with the non-triangulated diagnosis and the load fails with it.
    With an empty line before the face line the record is still there, and
    its scan would still fail, but the driver never scans it: its lookahead
    is the newline of the empty line and the ['f'], the line that starts
    there is skipped whole, and the load succeeds with no corner and no
    diagnostic. *)
Theorem four_group_face_after_a_blank_line_is_accepted :
  (exists cells,
     n3dc_obj_parse_obj_face Libc.atoi four_group_obj 41
     = ([Face_not_triangulated], cells, None)) /\
  n3dc_obj_load Libc.atof Libc.atoi four_group_obj 1 1 3
  = Some ([Face_not_triangulated], Err) /\
  (exists cells,
     n3dc_obj_parse_obj_face Libc.atoi blank_line_four_group_obj 42
     = ([Face_not_triangulated], cells, None)) /\
  n3dc_obj_load Libc.atof Libc.atoi blank_line_four_group_obj 1 1 3
  = Some ([], Ok {| num_vertices := 0; vertices := []; normals := [];
                    texture_coords := [] |}).
Proof.
  split; [eexists; vm_compute; reflexivity|].
  split; [vm_compute; reflexivity|].
  split; [eexists; vm_compute; reflexivity|].
  vm_compute; reflexivity.
Qed.

(** C5, the defect.  With [max_vertices = 1] the file of two position records
    fails with the capacity diagnosis.  With an empty line between the two
    records the second one is skipped by the driver and never counted: the
    load succeeds, with one position more in the file than the capacity. *)
Theorem position_after_a_blank_line_is_not_counted :
  count is_position [Position (chars "1 2 3"); Position (chars "4 5 6")] = 2 /\
  two_positions_obj
  = render_all [Position (chars "1 2 3"); Position (chars "4 5 6")] /\
  n3dc_obj_load Libc.atof Libc.atoi two_positions_obj 1 1 3
  = Some ([Max_vertices_exceeded], Err) /\
  blank_line_positions_obj
  = render_all [Position (chars "1 2 3")] ++ LF
      :: render_all [Position (chars "4 5 6")] /\
  n3dc_obj_load Libc.atof Libc.atoi blank_line_positions_obj 1 1 3
  = Some ([], Ok {| num_vertices := 0; vertices := []; normals := [];
                    texture_coords := [] |}).
Proof.
  split; [reflexivity|]. split; [reflexivity|].
  split; [vm_compute; reflexivity|]. split; [reflexivity|].
  vm_compute; reflexivity.
Qed.

(** C9, the defect.  With [max_indices = 1] the file of two
    texture-coordinate records fails with the capacity diagnosis.  With an
    empty line between the two records the second one is skipped by the
    driver and never counted against [max_indices]: the load succeeds. *)
Theorem texture_coord_after_a_blank_line_is_not_counted :
  count is_texture_coord
    [Texture_coord (chars "0.5 0.5"); Texture_coord (chars "0.25 0.75")] = 2 /\
  two_texture_coords_obj
  = render_all
      [Texture_coord (chars "0.5 0.5"); Texture_coord (chars "0.25 0.75")] /\
  n3dc_obj_load Libc.atof Libc.atoi two_texture_coords_obj 1 1 1
  = Some ([Max_texture_coords_exceeded], Err) /\
  blank_line_texture_coords_obj
  = render_all [Texture_coord (chars "0.5 0.5")] ++ LF
      :: render_all [Texture_coord (chars "0.25 0.75")] /\
  n3dc_obj_load Libc.atof Libc.atoi blank_line_texture_coords_obj 1 1 1
  = Some ([], Ok {| num_vertices := 0; vertices := []; normals := [];
                    texture_coords := [] |}).
Proof.
  split; [reflexivity|]. split; [reflexivity|].
  split; [vm_compute; reflexivity|]. split; [reflexivity|].
  vm_compute; reflexivity.
Qed.

(** C6, the defect.  On a file whose only line has no newline the seek step
    reports no truncation: it reads past the end of the buffer, and so does
    the load. *)
Theorem unterminated_line_is_read_past_the_buffer :
  n3dc_obj_seek_end_of_line unterminated_obj 1
  = ([], Undef Out_of_bounds_read) /\
  n3dc_obj_load Libc.atof Libc.atoi unterminated_obj 1 1 3
  = Some ([], Undef Out_of_bounds_read).
Proof. split; vm_compute; reflexivity. Qed.



(** C8 on a field of 14 characters: only [0.12345678] is converted. *)
Lemma converter_reads_first_ten_characters_witness :
  n3dc_obj_string_section_to_float Libc.atof 2 16 (chars "v 0.123456789012 1 2")
  = float_of_double (Libc.atof (chars "0.12345678")) /\
  n3dc_obj_string_section_to_uint Libc.atoi 2 16 (chars "v 0.123456789012 1 2")
  = uint (Libc.atoi (chars "0.12345678")) /\
  Z.to_nat (char_count 2 16) = 10%nat.
Proof.
  assert (2 <= 16 <= length (chars "v 0.123456789012 1 2"))%nat as Hrange
    by (simpl; lia).
  destruct (converter_reads_first_ten_characters Libc.atof Libc.atoi
              (chars "v 0.123456789012 1 2") 2 16 Hrange)
    as (_ & Hfloat & Huint & Hcut).
  split; [exact Hfloat|]. split; [exact Huint|].
  apply Hcut. simpl. lia.
Defined.

(** C10 on a file of two comments and a blank line. *)
Lemma file_without_records_loads_empty_witness :
  n3dc_obj_load Libc.atof Libc.atoi comments_obj 1 1 3
  = Some ([], Ok {| num_vertices := 0; vertices := []; normals := [];
                    texture_coords := [] |}).
Proof.
  apply (file_without_records_loads_empty Libc.atof Libc.atoi comments_obj 1 1 3).
  - right. reflexivity.
  - reflexivity.
Defined.

(** ** Instances of the further theorems *)

Lemma vec3_fields_end_at_the_first_two_spaces_witness :
  n3dc_obj_parse_obj_vec3 Libc.atof
    (chars "v " ++ chars "1.5" ++ SP :: chars "-2" ++ SP :: chars "3 4"
       ++ LF :: chars "vn")
    (length (chars "v "))
  = ([], Some (field_float Libc.atof (chars "1.5"),
               field_float Libc.atof (SP :: chars "-2"),
               field_float Libc.atof (SP :: chars "3 4"), 12%nat)) /\
  field_float Libc.atof (SP :: chars "3 4") = float32 3 0.
Proof.
  split; [|vm_compute; reflexivity].
  apply (vec3_fields_end_at_the_first_two_spaces Libc.atof
           (chars "v ") (chars "1.5") (chars "-2") (chars "3 4") (chars "vn"));
    compute_done.
Defined.

Lemma vec2_fields_end_at_the_last_space_witness :
  n3dc_obj_parse_obj_vec2 Libc.atof
    (chars "vt " ++ chars "0.25 0.5" ++ SP :: chars "0.75" ++ LF :: [])
    (length (chars "vt "))
  = ([], Some (field_float Libc.atof (chars "0.25 0.5"),
               field_float Libc.atof (SP :: chars "0.75"), 16%nat)) /\
  field_float Libc.atof (chars "0.25 0.5") = float32 1 (-2) /\
  field_float Libc.atof (SP :: chars "0.75") = float32 3 (-2).
Proof.
  split; [|split; vm_compute; reflexivity].
  apply (vec2_fields_end_at_the_last_space Libc.atof
           (chars "vt ") (chars "0.25 0.5") (chars "0.75") []);
    compute_done.
Defined.

Lemma vector_scan_succeeds_iff_witness :
  ((exists p r,
      n3dc_obj_parse_obj_vec3 Libc.atof
        (chars "v " ++ chars "1 2 3" ++ LF :: []) (length (chars "v "))
      = (p, Some r))
   <-> Forall vec_char (chars "1 2 3") /\ (2 <= spaces (chars "1 2 3"))%nat) /\
  ((exists p r,
      n3dc_obj_parse_obj_vec2 Libc.atof
        (chars "v " ++ chars "1 2 3" ++ LF :: []) (length (chars "v "))
      = (p, Some r))
   <-> Forall vec_char (chars "1 2 3") /\ (1 <= spaces (chars "1 2 3"))%nat).
Proof.
  apply (vector_scan_succeeds_iff Libc.atof Libc.atoi
           (chars "v ") (chars "1 2 3") []).
  compute_done.
Defined.

Lemma vector_record_with_too_few_fields_witness :
  n3dc_obj_parse_obj_vec3 Libc.atof
    (chars "v " ++ chars "1" ++ LF :: []) (length (chars "v "))
  = ([Vec3_x_missing], None) /\
  n3dc_obj_parse_obj_vec3 Libc.atof
    (chars "v " ++ chars "1" ++ SP :: chars "2" ++ LF :: [])
    (length (chars "v "))
  = ([Vec3_y_missing], None) /\
  n3dc_obj_parse_obj_vec2 Libc.atof
    (chars "v " ++ chars "1" ++ LF :: []) (length (chars "v "))
  = ([Vec2_x_missing], None).
Proof.
  apply (vector_record_with_too_few_fields Libc.atof
           (chars "v ") (chars "1") (chars "2") []);
    compute_done.
Defined.

Lemma index_group_scan_postcondition_witness :
  let file := chars "f 12/3/7 1/1/1" ++ [LF] in
  (1 < 8 < length file)%nat /\
  (char_at file 8 = SP \/ char_at file 8 = LF) /\
  exists ve te,
    (1 <= ve < te)%nat /\ (te < 8)%nat /\
    char_at file ve = SLASH /\ char_at file te = SLASH /\
    {| vertex_index := Some 11; texture_index := Some 2;
       normal_index := Some 6 |}
    = {| vertex_index :=
           Some (n3dc_obj_string_section_to_uint Libc.atoi 1 ve file - 1);
         texture_index :=
           Some (n3dc_obj_string_section_to_uint Libc.atoi (ve + 1) te file - 1);
         normal_index :=
           Some (n3dc_obj_string_section_to_uint Libc.atoi (te + 1) 8 file - 1)
       |}.
Proof.
  intros file.
  destruct (index_group_scan_postcondition Libc.atoi file 1 []
              {| vertex_index := Some 11; texture_index := Some 2;
                 normal_index := Some 6 |} 8)
    as (_ & Hr & Hterm & ve & te & H1 & H2 & H3 & H4 & _ & _ & _ & Hcells);
    [vm_compute; reflexivity|].
  split; [exact Hr|]. split; [exact Hterm|].
  exists ve, te.
  split; [exact H1|]. split; [exact H2|]. split; [exact H3|].
  split; [exact H4|exact Hcells].
Defined.

Lemma first_index_field_runs_to_the_first_slash_witness :
  let w := chars " 1 2 3" ++ LF :: chars "f 4" in
  n3dc_obj_parse_obj_index_group Libc.atoi
    (chars "f" ++ w ++ SLASH :: chars "5" ++ SLASH :: chars "6"
       ++ SP :: chars "7/8/9 1/1/1" ++ [LF])
    (length (chars "f"))
  = index_group_result (field_value Libc.atoi w)
      (field_value Libc.atoi (chars "5")) (field_value Libc.atoi (chars "6"))
      15%nat /\
  index_group_result (field_value Libc.atoi w)
    (field_value Libc.atoi (chars "5")) (field_value Libc.atoi (chars "6"))
    15%nat
  = ([], {| vertex_index := Some 0; texture_index := Some 4;
            normal_index := Some 5 |}, Some 15%nat).
Proof.
  intros w. split; [|vm_compute; reflexivity].
  apply (first_index_field_runs_to_the_first_slash Libc.atoi
           (chars "f") w (chars "5") (chars "6") SP
           (chars "7/8/9 1/1/1" ++ [LF]));
    compute_done.
Defined.

Lemma incomplete_index_groups_are_refused_witness :
  n3dc_obj_parse_obj_index_group Libc.atoi
    (chars "f" ++ SP :: chars "1" ++ SLASH :: chars "2" ++ SP :: chars "3/4")
    (length (chars "f"))
  = ([Group_texture_missing], untouched, None) /\
  n3dc_obj_parse_obj_index_group Libc.atoi
    (chars "f" ++ SP :: chars "1" ++ SLASH :: SLASH :: chars "3"
       ++ SP :: chars "3/4")
    (length (chars "f"))
  = ([Group_texture_invalid],
     {| vertex_index := Some (field_value Libc.atoi (SP :: chars "1") - 1);
        texture_index := Some 0; normal_index := None |}, None) /\
  n3dc_obj_parse_obj_index_group Libc.atoi
    (chars "f" ++ SP :: chars "1" ++ SLASH :: chars "2" ++ SLASH :: SP
       :: chars "3/4")
    (length (chars "f"))
  = ([Group_normal_invalid],
     {| vertex_index := Some (field_value Libc.atoi (SP :: chars "1") - 1);
        texture_index := Some (field_value Libc.atoi (chars "2") - 1);
        normal_index := Some 0 |},
     None).
Proof.
  apply (incomplete_index_groups_are_refused Libc.atoi
           (chars "f") (chars "1") (chars "2") (chars "3") SP (chars "3/4"));
    compute_done.
Defined.


Lemma unterminated_vector_record_is_reported_witness :
  n3dc_obj_load Libc.atof Libc.atoi
    (render_all [] ++ "v"%char :: SP :: chars "1 2 3") 1 1 1
  = Some ([Vec3_end_of_file], Err) /\
  n3dc_obj_load Libc.atof Libc.atoi
    (render_all [] ++ "v"%char :: "t"%char :: SP :: chars "1 2 3") 1 1 1
  = Some ([Vec2_end_of_file], Err) /\
  n3dc_obj_load Libc.atof Libc.atoi
    (render_all [] ++ "v"%char :: "n"%char :: SP :: chars "1 2 3") 1 1 1
  = Some ([Vec3_end_of_file], Err).
Proof.
  apply (unterminated_vector_record_is_reported Libc.atof Libc.atoi
           [] (chars "1 2 3") 1 1 1);
    try lia; compute_done.
Defined.

Lemma unterminated_face_is_reported_as_not_triangulated_witness :
  n3dc_obj_load Libc.atof Libc.atoi
    (render_all record_lines
       ++ "f"%char :: render_group (chars "1", chars "1", chars "1")
       ++ render_group (chars "1", chars "1", chars "1")
       ++ render_group (chars "1", chars "1", chars "1")) 1 1 3
  = Some ([Group_end_of_file; Face_not_triangulated], Err).
Proof.
  apply (unterminated_face_is_reported_as_not_triangulated
           Libc.atof Libc.atoi record_lines
           (chars "1", chars "1", chars "1") (chars "1", chars "1", chars "1")
           (chars "1", chars "1", chars "1") 1 1 3);
    try lia; compute_done.
Defined.

Lemma face_without_slash_fails_witness :
  n3dc_obj_load Libc.atof Libc.atoi
    (render_all [Position (chars "0 1 2")]
       ++ "f"%char :: SP :: chars "1 2 3" ++ [LF]) 1 1 3
  = Some ([Group_end_of_file], Err).
Proof.
  apply (face_without_slash_fails Libc.atof Libc.atoi
           [Position (chars "0 1 2")] (chars "1 2 3" ++ [LF]) 1 1 3);
    try lia; compute_done.
Defined.

Lemma normal_capacity_exceeded_witness :
  n3dc_obj_load Libc.atof Libc.atoi
    (render_all [Normal (chars "0 0 1")]
       ++ "v"%char :: "n"%char :: chars " 0 1 0" ++ [LF]) 1 1 3
  = Some ([Max_normals_exceeded], Err).
Proof.
  apply (normal_capacity_exceeded Libc.atof Libc.atoi
           [Normal (chars "0 0 1")] (chars " 0 1 0" ++ [LF]) 1 1 3);
    try lia; compute_done.
Defined.

Lemma index_capacity_exceeded_witness :
  n3dc_obj_load Libc.atof Libc.atoi
    (render_all triangle_lines
       ++ "f"%char :: SP :: chars "1/1/1 1/1/1 1/1/1" ++ [LF]) 1 1 5
  = Some ([Max_indices_exceeded], Err).
Proof.
  apply (index_capacity_exceeded Libc.atof Libc.atoi
           triangle_lines (chars "1/1/1 1/1/1 1/1/1" ++ [LF]) 1 1 5);
    try lia; compute_done.
Defined.

Lemma failed_load_prints_a_diagnostic_witness :
  n3dc_obj_load Libc.atof Libc.atoi (chars "v 1 2" ++ [LF]) 1 1 3
  = Some ([Vec3_y_missing], Err) /\
  [Vec3_y_missing] <> [].
Proof.
  split; [vm_compute; reflexivity|].
  apply (failed_load_prints_a_diagnostic Libc.atof Libc.atoi
           (chars "v 1 2" ++ [LF]) 1 1 3).
  vm_compute. reflexivity.
Defined.

Lemma successful_load_prints_only_group_diagnostics_witness :
  exists obj,
    n3dc_obj_load Libc.atof Libc.atoi split_face_obj 1 1 3
    = Some ([Group_normal_invalid], Ok obj) /\
    Forall (fun d => group_diag d = true) [Group_normal_invalid].
Proof.
  eexists. split; [vm_compute; reflexivity|].
  eapply (successful_load_prints_only_group_diagnostics Libc.atof Libc.atoi
            split_face_obj 1 1 3).
  vm_compute. reflexivity.
Defined.

Lemma entry_diagnostics_are_never_printed_witness :
  n3dc_obj_load Libc.atof Libc.atoi unterminated_face_obj 1 1 3
  = Some ([Group_end_of_file; Face_not_triangulated], Err) /\
  (Face_end_of_file ∉ [Group_end_of_file; Face_not_triangulated]) /\
  (Seek_end_of_file ∉ [Group_end_of_file; Face_not_triangulated]).
Proof.
  split; [vm_compute; reflexivity|].
  apply (entry_diagnostics_are_never_printed Libc.atof Libc.atoi
           unterminated_face_obj 1 1 3 _ Err).
  vm_compute. reflexivity.
Defined.

Lemma successful_load_array_lengths_witness :
  exists obj,
    n3dc_obj_load Libc.atof Libc.atoi triangle_obj 1 1 3 = Some ([], Ok obj) /\
    (exists k, 0 <= k /\ num_vertices obj = 3 * k) /\
    num_vertices obj <= 3 /\
    Z.of_nat (length (vertices obj)) = 3 * num_vertices obj /\
    Z.of_nat (length (normals obj)) = 3 * num_vertices obj /\
    Z.of_nat (length (texture_coords obj)) = 2 * num_vertices obj.
Proof.
  eexists. split; [vm_compute; reflexivity|].
  apply (successful_load_array_lengths Libc.atof Libc.atoi triangle_obj 1 1 3 []);
    try lia.
  vm_compute. reflexivity.
Defined.

Lemma driver_loop_stores_stay_in_bounds_witness :
  scan_loop Libc.atof Libc.atoi unterminated_obj 1 1 3
    (length unterminated_obj) (initial_state 1 1 3)
  = Some ([], Undef Out_of_bounds_read) /\
  Out_of_bounds_read = Out_of_bounds_read /\
  ~ newline_terminated unterminated_obj.
Proof.
  split; [vm_compute; reflexivity|].
  apply (driver_loop_stores_stay_in_bounds Libc.atof Libc.atoi
           unterminated_obj 1 1 3 []); try lia.
  vm_compute. reflexivity.
Defined.


Lemma resolver_copies_the_indexed_cells_witness :
  exists st obj,
    scan_loop Libc.atof Libc.atoi (render_all forward_lines) 2 1 3
      (length (render_all forward_lines)) (initial_state 2 1 3)
    = Some ([], Ok st) /\
    resolve st = Ok obj /\
    exists v t n,
      fetch (vertex_indices st) (Z.of_nat 0) = Ok v /\
      fetch (texture_indices st) (Z.of_nat 0) = Ok t /\
      fetch (normal_indices st) (Z.of_nat 0) = Ok n /\
      Ok <$> take 3 (drop (3 * 0) (vertices obj))
      = [fetch (pool_vertices st) (uint (v * 3));
         fetch (pool_vertices st) (uint (uint (v * 3) + 1));
         fetch (pool_vertices st) (uint (uint (v * 3) + 2))] /\
      Ok <$> take 2 (drop (2 * 0) (texture_coords obj))
      = [fetch (pool_texture_coords st) (uint (t * 2));
         fetch (pool_texture_coords st) (uint (uint (t * 2) + 1))] /\
      Ok <$> take 3 (drop (3 * 0) (normals obj))
      = [fetch (pool_normals st) (uint (n * 3));
         fetch (pool_normals st) (uint (uint (n * 3) + 1));
         fetch (pool_normals st) (uint (uint (n * 3) + 2))].
Proof.
  eexists. eexists.
  split; [vm_compute; reflexivity|].
  split; [vm_compute; reflexivity|].
  apply (resolver_copies_the_indexed_cells _ _ 0);
    vm_compute; reflexivity.
Defined.

Lemma well_formed_file_loads_expanded_witness :
  n3dc_obj_load Libc.atof Libc.atoi (render_all forward_lines) 2 1 3
  = Some ([], Ok (expanded Libc.atof Libc.atoi forward_lines)) /\
  vertices (expanded Libc.atof Libc.atoi forward_lines)
  = [float32 7 (-1); float32 4 0; float32 5 0;
     float32 0 0; float32 1 0; float32 2 0;
     float32 0 0; float32 1 0; float32 2 0].
Proof.
  split; [|vm_compute; reflexivity].
  apply (well_formed_file_loads_expanded Libc.atof Libc.atoi
           forward_lines 2 1 3);
    try lia; compute_done.
Defined.

Lemma index_beyond_the_records_read_witness :
  n3dc_obj_load Libc.atof Libc.atoi (render_all dangling_lines) 1 1 3
  = Some ([], Undef Out_of_bounds_read) /\
  n3dc_obj_load Libc.atof Libc.atoi (render_all dangling_lines) 2 1 3
  = Some ([], Undef Uninitialised_read).
Proof.
  split.
  - apply (index_beyond_the_records_read Libc.atof Libc.atoi
             dangling_lines [] 1 0 0 [(0, 0, 0); (0, 0, 0)] 1 1 3);
      try lia; compute_done.
  - apply (index_beyond_the_records_read Libc.atof Libc.atoi
             dangling_lines [] 1 0 0 [(0, 0, 0); (0, 0, 0)] 2 1 3);
      try lia; compute_done.
Defined.

Lemma line_after_a_blank_line_is_skipped_witness :
  n3dc_obj_load Libc.atof Libc.atoi
    (render_all record_lines ++ LF :: chars "f 1/1/1 1/1/1 1/1/1"
       ++ LF :: render_all []) 1 1 1
  = Some ([], Ok (expanded Libc.atof Libc.atoi (record_lines ++ []))) /\
  num_vertices (expanded Libc.atof Libc.atoi (record_lines ++ [])) = 0.
Proof.
  split; [|vm_compute; reflexivity].
  apply (line_after_a_blank_line_is_skipped Libc.atof Libc.atoi
           record_lines (chars "f 1/1/1 1/1/1 1/1/1") [] 1 1 1);
    try lia; compute_done.
Defined.

Lemma line_skip_finds_the_first_newline_witness :
  n3dc_obj_seek_end_of_line (chars "# a" ++ chars "bc" ++ LF :: chars "v 1")
    (length (chars "# a"))
  = ([], Ok 5%nat) /\
  n3dc_obj_seek_end_of_line (chars "# a" ++ "b"%char :: chars "c")
    (length (chars "# a"))
  = ([], Undef Out_of_bounds_read) /\
  n3dc_obj_seek_end_of_line (chars "# a") (length (chars "# a"))
  = ([Seek_end_of_file], Err).
Proof.
  apply (line_skip_finds_the_first_newline (chars "# a") (chars "bc")
           (chars "v 1") "b"%char);
    compute_done.
Defined.

(** [k = 1]: one position record, then a second one. *)
Lemma vertex_capacity_exceeded_witness :
  n3dc_obj_load Libc.atof Libc.atoi
    (render_all [Position (chars "0.0 1.0 2.0")]
       ++ "v"%char :: SP :: chars "3.0 4.0 5.0" ++ [LF]) 1 1 3
  = Some ([Max_vertices_exceeded], Err).
Proof.
  apply (vertex_capacity_exceeded Libc.atof Libc.atoi
           [Position (chars "0.0 1.0 2.0")] (chars "3.0 4.0 5.0" ++ [LF]) 1 1 3);
    try lia; compute_done.
Defined.

(** [max_indices = 1] and room for a hundred positions and normals:
    the second texture coordinate fails the load. *)
Lemma texture_coords_are_checked_against_max_indices_witness :
  n3dc_obj_load Libc.atof Libc.atoi
    (render_all [Texture_coord (chars "0.5 0.5")]
       ++ "v"%char :: "t"%char :: chars " 0.25 0.75" ++ [LF]) 100 100 1
  = Some ([Max_texture_coords_exceeded], Err).
Proof.
  apply (texture_coords_are_checked_against_max_indices Libc.atof Libc.atoi
           [Texture_coord (chars "0.5 0.5")] (chars " 0.25 0.75" ++ [LF])
           100 100 1);
    try lia; compute_done.
Defined.

(** The scenario with a fourth group on the face line. *)
Lemma four_group_face_is_rejected_witness :
  let file_chars :=
    render_all [Position (chars "0.0 1.0 2.0"); Texture_coord (chars "0.5 0.5");
                Normal (chars "0.0 0.0 1.0")]
      ++ "f"%char :: render_group (chars "1", chars "1", chars "1")
      ++ render_group (chars "1", chars "1", chars "1")
      ++ render_group (chars "1", chars "1", chars "1")
      ++ SP :: chars "1/1/1" ++ [LF] in
  (exists cells,
     n3dc_obj_parse_obj_face Libc.atoi file_chars
       (length (render_all [Position (chars "0.0 1.0 2.0");
                            Texture_coord (chars "0.5 0.5");
                            Normal (chars "0.0 0.0 1.0")]) + 1)
     = ([Face_not_triangulated], cells, None)) /\
  n3dc_obj_load Libc.atof Libc.atoi file_chars 1 1 3
  = Some ([Face_not_triangulated], Err).
Proof.
  apply (four_group_face_is_rejected Libc.atof Libc.atoi
           [Position (chars "0.0 1.0 2.0"); Texture_coord (chars "0.5 0.5");
            Normal (chars "0.0 0.0 1.0")]
           (chars "1", chars "1", chars "1") (chars "1", chars "1", chars "1")
           (chars "1", chars "1", chars "1") (chars "1/1/1" ++ [LF]) 1 1 3);
    try lia; compute_done.
Defined.
